(** * Resistor colour codes of the virtual-lab chat route

    A shallow embedding of the deterministic part of the chat route:
    [computeResistorColorCode], [extractOhmValues] and the lines of the
    [POST] handler that print a colour code.

    - JavaScript numbers are IEEE 754 binary64 values.  They are modelled
      by [Number.number]: a finite value is an integer count of the
      smallest subnormal, 2^-1074, so that every finite double is one
      [Z]; an arithmetic operation computes the exact rational result and
      rounds it to the nearest double, ties to even, overflowing to
      infinity.  The two zeros are one value: the embedded code never
      tells them apart.  The operations are compared with [SpecFloat] of
      the Standard Library on sample operands.
    - JavaScript strings are sequences of UTF-16 code units ([jsstring]);
      a value read from an array is a string or [undefined] ([value]).
    - The two [while] loops take fuel; [None] is a run that exhausts it.
      [returns ohms r] says that every run with at least [enough] fuel
      returns [r], and every finite positive double stays under
      [enough].
    - The pattern of [extractOhmValues] is a term of a small pattern
      language with a backtracking matcher.

    The last part covers more of the route: the digits that the colour
    code shows, texts with a single numeral, the patterns and the
    answers of the [POST] handler, the image paths, the model candidates,
    the passages of the context, the choice of the embedding provider in
    the route and in the loading script, and the filter of the web
    search.  The calls of the services are outside the model; what a
    function reads from them is an argument. *)

From Stdlib Require Import String Ascii DecimalString.
From Stdlib Require Import ZArith NArith Lia Bool List.
From Stdlib Require SpecFloat.
From Stdlib Require DecimalPos.
Import ListNotations.

Open Scope Z_scope.

(** ** Numbers *)

Module Number.

(** The value 1, counted in units of 2^-1074. *)
Definition ONE : Z := 2 ^ 1074.

(** 2^1024, the first magnitude that overflows. *)
Definition TOP : Z := 2 ^ 2098.

Inductive number : Type :=
| NaN
| Inf (negative : bool)
| Fin (n : Z).

(** Number of trailing zero bits; 0 for 0. *)
Fixpoint ctz_pos (p : positive) : Z :=
  match p with
  | xO p' => Z.succ (ctz_pos p')
  | _ => 0
  end.

Definition ctz (n : Z) : Z :=
  match n with
  | Z0 => 0
  | Zpos p | Zneg p => ctz_pos p
  end.

(** Binary logarithm of the spacing of the doubles around [t] units:
    53 significant bits, and never finer than one unit. *)
Definition scale (t : Z) : Z := Z.max 0 (Z.log2 t - 52).

(** [nearest m rest gap]: [m] or [m + 1], whichever is nearer to
    [m + rest / gap], a tie going to the even one. *)
Definition nearest (m rest gap : Z) : Z :=
  match 2 * rest ?= gap with
  | Lt => m
  | Gt => m + 1
  | Eq => if Z.even m then m else m + 1
  end.

(** The double nearest to [a / b] units, for [0 <= a] and [0 < b].  The
    fraction is first reduced by the power of two common to both, which
    keeps the division short; [m] is the significand of [a / b] cut to
    53 bits and [2 ^ s] the spacing there. *)
Definition round_pos (a b : Z) : number :=
  let g := Z.min (ctz a) (ctz b) in
  let a := Z.shiftr a g in
  let b := Z.shiftr b g in
  let s := scale (a / b) in
  let m := Z.shiftr (a / b) s in
  let r := nearest m (a - m * 2 ^ s * b) (b * 2 ^ s) * 2 ^ s in
  if TOP <=? r then Inf false else Fin r.

Definition opp (x : number) : number :=
  match x with
  | NaN => NaN
  | Inf s => Inf (negb s)
  | Fin n => Fin (- n)
  end.

(** The double nearest to [a / b] units, for [0 < b]. *)
Definition round_ratio (a b : Z) : number :=
  if a <? 0 then opp (round_pos (- a) b) else round_pos a b.

(** An integer literal of the source ([0], [10], [1e3], ...). *)
Definition of_Z (z : Z) : number := round_ratio (z * ONE) 1.

(** A decimal literal [digits * 10^e]. *)
Definition of_decimal (digits e : Z) : number :=
  if 0 <=? e then round_ratio (digits * 10 ^ e * ONE) 1
  else round_ratio (digits * ONE) (10 ^ (- e)).

Definition neg_sign (n : Z) : bool := n <? 0.

Definition mul (x y : number) : number :=
  match x, y with
  | NaN, _ | _, NaN => NaN
  | Fin a, Fin b => round_ratio (a * b) ONE
  | Inf s, Inf t => Inf (xorb s t)
  | Inf s, Fin b => if b =? 0 then NaN else Inf (xorb s (neg_sign b))
  | Fin a, Inf t => if a =? 0 then NaN else Inf (xorb (neg_sign a) t)
  end.

Definition div (x y : number) : number :=
  match x, y with
  | NaN, _ | _, NaN => NaN
  | Fin a, Fin b =>
      if b =? 0 then (if a =? 0 then NaN else Inf (neg_sign a))
      else round_ratio (a * ONE * Z.sgn b) (Z.abs b)
  | Inf _, Inf _ => NaN
  | Inf s, Fin b => Inf (xorb s (neg_sign b))
  | Fin _, Inf _ => Fin 0
  end.

Definition add (x y : number) : number :=
  match x, y with
  | NaN, _ | _, NaN => NaN
  | Fin a, Fin b => round_ratio (a + b) 1
  | Inf s, Inf t => if Bool.eqb s t then Inf s else NaN
  | Inf s, Fin _ => Inf s
  | Fin _, Inf t => Inf t
  end.

Definition sub (x y : number) : number := add x (opp y).

(** [x % y]: the remainder has the sign of the dividend and is exact. *)
Definition rem (x y : number) : number :=
  match x, y with
  | NaN, _ | _, NaN => NaN
  | Inf _, _ => NaN
  | Fin a, Inf _ => Fin a
  | Fin a, Fin b =>
      if b =? 0 then NaN
      else
        let g := Z.min (ctz a) (ctz b) in
        Fin (Z.shiftl (Z.rem (Z.shiftr a g) (Z.shiftr b g)) g)
  end.

(** [Math.floor]. *)
Definition floor (x : number) : number :=
  match x with
  | Fin n => Fin (Z.shiftl (Z.shiftr n 1074) 1074)
  | _ => x
  end.

(** [Math.round]: the nearest integer, a tie going up. *)
Definition round (x : number) : number :=
  match x with
  | Fin n => Fin (Z.shiftl (Z.shiftr (2 * n + ONE) 1075) 1074)
  | _ => x
  end.

Definition isFinite (x : number) : bool :=
  match x with
  | Fin _ => true
  | _ => false
  end.

Definition ltb (x y : number) : bool :=
  match x, y with
  | NaN, _ | _, NaN => false
  | Fin a, Fin b => a <? b
  | Inf s, Inf t => s && negb t
  | Inf s, Fin _ => s
  | Fin _, Inf t => negb t
  end.

(** Numeric equality [===]; [NaN] equals nothing. *)
Definition eqb (x y : number) : bool :=
  match x, y with
  | Fin a, Fin b => a =? b
  | Inf s, Inf t => Bool.eqb s t
  | _, _ => false
  end.

Definition leb (x y : number) : bool := ltb x y || eqb x y.
Definition gtb (x y : number) : bool := ltb y x.
Definition geb (x y : number) : bool := leb y x.

(** SameValueZero, the equality of [Set]: as [===], and [NaN] equals
    itself. *)
Definition sameValueZero (x y : number) : bool :=
  match x, y with
  | NaN, NaN => true
  | _, _ => eqb x y
  end.

(** Whole numbers of units of 1. *)
Definition is_integer (n : Z) : bool := n =? Z.shiftl (Z.shiftr n 1074) 1074.

(** The array index a number denotes as a property key, if any. *)
Definition toIndex (x : number) : option nat :=
  match x with
  | Fin n =>
      if (0 <=? n) && is_integer n then Some (Z.to_nat (Z.shiftr n 1074)) else None
  | _ => None
  end.

(** *** Rounding, as arithmetic

    The same rounding stated on the fraction as it is given, without the
    reduction and the shifts of [round_pos]; the lemmas below go through
    it. *)

(** [rne a c]: the integer nearest to [a / c], ties to the even one. *)
Definition rne (a c : Z) : Z := nearest (a / c) (a mod c) c.

(** The multiple of the spacing nearest to [a / b], before the overflow
    test. *)
Definition rnd (a b : Z) : Z :=
  let s := scale (a / b) in
  rne a (b * 2 ^ s) * 2 ^ s.

(** [f] lies on the grid of the doubles: it is a multiple of the spacing
    at its magnitude. *)
Definition on_grid (f : Z) : Prop := f mod 2 ^ scale f = 0.

(** The result of an operation whose rounded magnitude is [r]. *)
Definition finish (r : Z) : number := if TOP <=? r then Inf false else Fin r.

(** The doubles among the values of [number]: a finite one lies on the
    grid, below the overflow threshold. *)
Definition representable (x : number) : Prop :=
  match x with
  | Fin n => on_grid (Z.abs n) /\ Z.abs n < TOP
  | _ => True
  end.

End Number.

Import Number.

Declare Scope number_scope.
Delimit Scope number_scope with num.
Bind Scope number_scope with number.
Infix "*" := mul : number_scope.
Infix "/" := div : number_scope.
Infix "+" := add : number_scope.
Infix "-" := sub : number_scope.
Infix "%%" := rem (at level 40, left associativity) : number_scope.
Infix "<?" := ltb : number_scope.
Infix "<=?" := leb : number_scope.
Infix ">?" := gtb : number_scope.
Infix ">=?" := geb : number_scope.

(** ** Strings *)

(** A string is its sequence of UTF-16 code units. *)
Definition jsstring : Type := list N.

(** Code units of a UTF-8 encoded text of the Basic Multilingual Plane. *)
Fixpoint utf16_of_utf8 (bs : list N) : jsstring :=
  match bs with
  | [] => []
  | b :: rest =>
      if (b <? 128)%N then b :: utf16_of_utf8 rest
      else if (b <? 224)%N then
        match rest with
        | c :: rest' => ((b - 192) * 64 + (c - 128))%N :: utf16_of_utf8 rest'
        | [] => []
        end
      else
        match rest with
        | c :: d :: rest' =>
            ((b - 224) * 4096 + (c - 128) * 64 + (d - 128))%N :: utf16_of_utf8 rest'
        | _ => []
        end
  end.

(** A string literal of the source. *)
Definition js (s : string) : jsstring :=
  utf16_of_utf8 (map N_of_ascii (list_ascii_of_string s)).

Definition LF : N := 10%N.

Fixpoint jsstring_eqb (s t : jsstring) : bool :=
  match s, t with
  | [], [] => true
  | a :: s', b :: t' => (a =? b)%N && jsstring_eqb s' t'
  | _, _ => false
  end.

(** A value read from an array of strings: a string, or [undefined]. *)
Definition value : Type := option jsstring.

(** [arr[i]] *)
Definition get (arr : list jsstring) (i : number) : value :=
  match toIndex i with
  | Some k => nth_error arr k
  | None => None
  end.

(** [Array.prototype.join]; [undefined] prints as the empty string. *)
Fixpoint join (sep : jsstring) (xs : list value) : jsstring :=
  match xs with
  | [] => []
  | [x] => match x with Some s => s | None => [] end
  | x :: rest => (match x with Some s => s | None => [] end) ++ sep ++ join sep rest
  end.

(** Decimal digits of an integer. *)
Definition decimal (z : Z) : jsstring :=
  js (NilZero.string_of_int (Z.to_int z)).

(** [String(x)] for the numbers printed as an integer without exponent:
    the integers below 10^21.  Other finite numbers are not modelled. *)
Definition toString (x : number) : option jsstring :=
  match x with
  | NaN => Some (js "NaN")
  | Inf false => Some (js "Infinity")
  | Inf true => Some (js "-Infinity")
  | Fin n =>
      if is_integer n && (Z.abs n <? 10 ^ 21 * ONE)
      then Some (decimal (Z.shiftr n 1074)) else None
  end.

(** ** computeResistorColorCode *)

Definition digitColor : list jsstring :=
  map js ["Black"; "Brown"; "Red"; "Orange"; "Yellow";
          "Green"; "Blue"; "Violet"; "Grey"; "White"]%string.

Definition multiplierColor : list jsstring :=
  map js ["Black"; "Brown"; "Red"; "Orange"; "Yellow";
          "Green"; "Blue"; "Violet"; "Grey"; "White"]%string.

Definition gold : jsstring := js "Gold (±5%)".

Record mapping : Type := { fourBand : list value; fiveBand : list value }.

Section Loops.

Local Open Scope number_scope.

(** [while (m >= lim) { m /= 10; p++; }].  [None]: the fuel ran out. *)
Fixpoint while_ge (fuel : nat) (lim m p : number) : option (number * number) :=
  if m >=? lim then
    match fuel with
    | O => None
    | S fuel' => while_ge fuel' lim (m / of_Z 10) (p + of_Z 1)
    end
  else Some (m, p).

(** [while (m < lim) { m *= 10; p--; }] *)
Fixpoint while_lt (fuel : nat) (lim m p : number) : option (number * number) :=
  if m <? lim then
    match fuel with
    | O => None
    | S fuel' => while_lt fuel' lim (m * of_Z 10) (p - of_Z 1)
    end
  else Some (m, p).

(** The two normalization loops in sequence, from [p = 0]. *)
Definition normalize (fuel : nat) (hi lo ohms : number) : option (number * number) :=
  match while_ge fuel hi ohms (of_Z 0) with
  | Some (m, p) => while_lt fuel lo m p
  | None => None
  end.

Definition out_of_digit (d : number) : bool := (d <? of_Z 0) || (d >? of_Z 9).

(** Lines 479-487: the 4-band sequence, or [null]. *)
Definition fourBandOf (fuel : nat) (ohms : number) : option (option (list value)) :=
  match normalize fuel (of_Z 100) (of_Z 10) ohms with
  | None => None
  | Some (m4, p4) =>
      let d1_4 := floor (m4 / of_Z 10) in
      let d2_4 := floor (m4 %% of_Z 10) in
      let mult4 := p4 in
      if out_of_digit d1_4 || out_of_digit d2_4 || out_of_digit mult4
      then Some None
      else Some (Some [get digitColor d1_4; get digitColor d2_4;
                       get multiplierColor mult4; Some gold])
  end.

(** Lines 490-499: the 5-band sequence, or [null]. *)
Definition fiveBandOf (fuel : nat) (ohms : number) : option (option (list value)) :=
  match normalize fuel (of_Z 1000) (of_Z 100) ohms with
  | None => None
  | Some (m5, p5) =>
      let d1_5 := floor (m5 / of_Z 100) %% of_Z 10 in
      let d2_5 := floor (m5 / of_Z 10) %% of_Z 10 in
      let d3_5 := floor (m5 %% of_Z 10) in
      let mult5 := p5 in
      if existsb out_of_digit [d1_5; d2_5; d3_5] || out_of_digit mult5
      then Some None
      else Some (Some [get digitColor d1_5; get digitColor d2_5; get digitColor d3_5;
                       get multiplierColor mult5; Some gold])
  end.

(** The function; the outer [None] is a run that exhausts [fuel], the
    inner one is [null]. *)
Definition computeResistorColorCode (fuel : nat) (ohms : number)
  : option (option mapping) :=
  if negb (isFinite ohms) || (ohms <=? of_Z 0) then Some None
  else
    match fourBandOf fuel ohms with
    | None => None
    | Some None => Some None
    | Some (Some four) =>
        match fiveBandOf fuel ohms with
        | None => None
        | Some None => Some None
        | Some (Some five) => Some (Some {| fourBand := four; fiveBand := five |})
        end
    end.

End Loops.

(** Fuel that every finite positive input stays under. *)
Definition enough : nat := 1100.

(** ** Regular expressions *)

(** Captured groups, by number. *)
Definition captures : Type := list (nat * jsstring).

Fixpoint capture (i : nat) (caps : captures) : value :=
  match caps with
  | [] => None
  | (j, s) :: rest => if Nat.eqb i j then Some s else capture i rest
  end.

(** The fragment of the pattern language the source uses: classes and
    literal characters, sequence, alternation, the greedy [?], the
    greedy [*] of a class, and numbered groups. *)
Inductive regex : Type :=
| Cls (p : N -> bool)
| Seq (r1 r2 : regex)
| Alt (r1 r2 : regex)
| Opt (r : regex)
| Star (p : N -> bool)
| Group (i : nat) (r : regex).

Definition Chr (c : N) : regex := Cls (N.eqb c).

(** [p+] *)
Definition Plus (p : N -> bool) : regex := Seq (Cls p) (Star p).

(** A literal of at least one character. *)
Fixpoint Lit (c : N) (s : jsstring) : regex :=
  match s with
  | [] => Chr c
  | d :: s' => Seq (Chr c) (Lit d s')
  end.

Section Matcher.

Context {A : Type}.

(** What remains to be matched after a piece of the pattern: it takes
    the rest of the input and the captures so far, and fails with
    [None], which makes the matcher backtrack. *)
Definition continuation : Type := jsstring -> captures -> option A.

(** Greedy [p*]: the longest run first, then shorter ones. *)
Fixpoint star (p : N -> bool) (inp : jsstring) (caps : captures) (k : continuation)
  : option A :=
  match inp with
  | c :: rest =>
      if p c then
        match star p rest caps k with
        | Some a => Some a
        | None => k inp caps
        end
      else k inp caps
  | [] => k inp caps
  end.

(** The backtracking matcher of the pattern language. *)
Fixpoint mtch (r : regex) (inp : jsstring) (caps : captures) (k : continuation)
  : option A :=
  match r with
  | Cls p =>
      match inp with
      | c :: rest => if p c then k rest caps else None
      | [] => None
      end
  | Seq r1 r2 => mtch r1 inp caps (fun inp' caps' => mtch r2 inp' caps' k)
  | Alt r1 r2 =>
      match mtch r1 inp caps k with
      | Some a => Some a
      | None => mtch r2 inp caps k
      end
  | Opt r' =>
      match mtch r' inp caps k with
      | Some a => Some a
      | None => k inp caps
      end
  | Star p => star p inp caps k
  | Group i r' =>
      mtch r' inp caps
        (fun inp' caps' =>
           k inp' ((i, firstn (length inp - length inp') inp) :: caps'))
  end.

End Matcher.

(** One match: [m[0]] and the groups. *)
Record rmatch : Type := { matched : jsstring; groups : captures }.

(** [m[i]] for [i >= 1]. *)
Definition group (i : nat) (m : rmatch) : value := capture i (groups m).

(** A match attempt at the start of [inp]. *)
Definition exec (r : regex) (inp : jsstring) : option rmatch :=
  mtch r inp []
    (fun rest caps =>
       Some {| matched := firstn (length inp - length rest) inp; groups := caps |}).

(** [text.matchAll(r)] for a global pattern: the matches from left to
    right, each search starting where the previous match ended, or one
    character further after an empty match.  [skip] counts the characters
    still covered by the previous match. *)
Fixpoint matchAll_from (r : regex) (skip : nat) (text : jsstring) : list rmatch :=
  match skip, text with
  | S skip', _ :: rest => matchAll_from r skip' rest
  | S _, [] => []
  | O, _ =>
      match exec r text with
      | Some m =>
          m :: match text with
               | [] => []
               | _ :: rest => matchAll_from r (Nat.pred (length (matched m))) rest
               end
      | None =>
          match text with
          | [] => []
          | _ :: rest => matchAll_from r O rest
          end
      end
  end.

Definition matchAll (r : regex) (text : jsstring) : list rmatch :=
  matchAll_from r O text.

(** [\d] *)
Definition is_digit (c : N) : bool := ((48 <=? c) && (c <=? 57))%N.

(** [\s]: white space and line terminators. *)
Definition is_space (c : N) : bool :=
  existsb (N.eqb c)
    [9; 10; 11; 12; 13; 32; 160; 5760; 8232; 8233; 8239; 8287; 12288; 65279]%N
  || ((8192 <=? c) && (c <=? 8202))%N.

(** ** parseFloat *)

Fixpoint span (p : N -> bool) (s : jsstring) : jsstring * jsstring :=
  match s with
  | c :: rest =>
      if p c then let (a, b) := span p rest in (c :: a, b) else ([], s)
  | [] => ([], [])
  end.

Fixpoint starts_with (pre s : jsstring) : bool :=
  match pre, s with
  | [], _ => true
  | a :: pre', b :: s' => (a =? b)%N && starts_with pre' s'
  | _ :: _, [] => false
  end.

(** Value of a run of decimal digits. *)
Definition digits_value (ds : jsstring) : Z :=
  fold_left (fun acc c => 10 * acc + Z.of_N (c - 48)) ds 0.

(** Value of an exponent part [e], [e+] or [e-] followed by digits at the
    start of [s]; 0 when there is none. *)
Definition exponent_part (s : jsstring) : Z :=
  match s with
  | c :: rest =>
      if (c =? 101)%N || (c =? 69)%N then
        match rest with
        | sg :: rest' =>
            if is_digit sg then digits_value (fst (span is_digit rest))
            else
              match fst (span is_digit rest') with
              | [] => 0
              | ds => if (sg =? 43)%N then digits_value ds
                      else if (sg =? 45)%N then - digits_value ds
                      else 0
              end
        | [] => 0
        end
      else 0
  | [] => 0
  end.

(** The longest unsigned decimal literal at the start of [s]. *)
Definition parse_unsigned (s : jsstring) : number :=
  if starts_with (js "Infinity") s then Inf false
  else
    let (ip, r1) := span is_digit s in
    let (fp, r2) :=
      match r1 with
      | c :: r => if (c =? 46)%N then span is_digit r else ([], r1)
      | [] => ([], r1)
      end in
    match ip ++ fp with
    | [] => NaN
    | ds => of_decimal (digits_value ds) (exponent_part r2 - Z.of_nat (length fp))
    end.

(** [parseFloat]: leading white space, a sign, then the literal. *)
Definition parseFloat (v : value) : number :=
  match v with
  | None => NaN
  | Some s =>
      match snd (span is_space s) with
      | c :: rest =>
          if (c =? 45)%N then opp (parse_unsigned rest)
          else if (c =? 43)%N then parse_unsigned rest
          else parse_unsigned (c :: rest)
      | [] => NaN
      end
  end.

(** [toLowerCase] on the letters A to Z; it is applied to captures of
    the suffix group only. *)
Definition toLowerCase (s : jsstring) : jsstring :=
  map (fun c => if ((65 <=? c) && (c <=? 90))%N then (c + 32)%N else c) s.

(** ** extractOhmValues *)

(** [/(\d+(?:\.\d+)?)\s*(k|K|M|mega|G|g)?/g] *)
Definition re : regex :=
  Seq (Group 1 (Seq (Plus is_digit) (Opt (Seq (Chr 46) (Plus is_digit)))))
      (Seq (Star is_space)
           (Opt (Group 2
              (Alt (Lit 107 [])                       (* k *)
              (Alt (Lit 75 [])                        (* K *)
              (Alt (Lit 77 [])                        (* M *)
              (Alt (Lit 109 [101; 103; 97]%N)         (* mega *)
              (Alt (Lit 71 [])                        (* G *)
                   (Lit 103 []))))))))).              (* g *)

(** [seen.has(val)] *)
Definition has (seen : list number) (val : number) : bool :=
  existsb (sameValueZero val) seen.

(** The body of the [for] loop on the pair of [out] and [seen]. *)
Definition extract_step (st : list number * list number) (m : rmatch)
  : list number * list number :=
  let (out, seen) := st in
  let n := parseFloat (group 1 m) in
  if negb (isFinite n) then st
  else
    let suf := toLowerCase (match group 2 m with Some s => s | None => [] end) in
    let factor :=
      if jsstring_eqb suf (js "k") then of_Z (10 ^ 3)
      else if jsstring_eqb suf (js "m") || jsstring_eqb suf (js "mega") then of_Z (10 ^ 6)
      else if jsstring_eqb suf (js "g") then of_Z (10 ^ 9)
      else of_Z 1 in
    let val := mul n factor in
    if has seen val then st else (out ++ [val], val :: seen).

Definition extractOhmValues (text : jsstring) : list number :=
  fst (fold_left extract_step (matchAll re text) ([], [])).

(** ** The colour-code lines of the POST handler *)

(** The template literal pushed on [parts] for one value. *)
Definition format_part (val : number) (m : mapping) : option jsstring :=
  match toString (round val) with
  | Some rounded =>
      Some (js "- " ++ rounded ++ js " Ω:" ++ [LF]
            ++ js "  - 4‑band: " ++ join (js " - ") (fourBand m) ++ [LF]
            ++ js "  - 5‑band: " ++ join (js " - ") (fiveBand m))
  | None => None
  end.

(** The loop over [qVals] that fills [parts].  [None]: a run outside the
    model (fuel exhausted, or a number whose decimal string is not
    modelled). *)
Fixpoint colorParts (fuel : nat) (qVals : list number) : option (list jsstring) :=
  match qVals with
  | [] => Some []
  | val :: rest =>
      match computeResistorColorCode fuel val with
      | None => None
      | Some None => colorParts fuel rest
      | Some (Some m) =>
          match format_part val m, colorParts fuel rest with
          | Some part, Some parts => Some (part :: parts)
          | _, _ => None
          end
      end
  end.

(** The answer of the handler when it falls back on the deterministic
    computation; [wantColor] is the outcome of the question pattern. *)
Definition colorAnswer (fuel : nat) (wantColor : bool) (question : jsstring)
  : option jsstring :=
  let qVals := if wantColor then extractOhmValues question else [] in
  match colorParts fuel qVals with
  | None => None
  | Some [] => Some (js "I don't know.")
  | Some parts =>
      Some (js "Resistor color code:" ++ [LF; LF] ++ join [LF] (map Some parts))
  end.

(** *** The line as the specification words it *)

(** The one-line format that section 6 of the specification gives,
    "<rounded ohms> Ω: 4-band: <c1> - <c2> - <c3> - <c4>; 5-band: ...",
    to be compared with [format_part]. *)
Definition spec_line (val : number) (m : mapping) : option jsstring :=
  match toString (round val) with
  | Some rounded =>
      Some (rounded ++ js " Ω: 4-band: " ++ join (js " - ") (fourBand m)
            ++ js "; 5-band: " ++ join (js " - ") (fiveBand m))
  | None => None
  end.

(** ** The loops on integers

    The iterates of the two loops on the integer that counts the units
    of a finite double, and the runs of the loops on them. *)

(** One [m /= 10]. *)
Definition div10 (n : Z) : Z := rnd n 10.

(** One [m *= 10]. *)
Definition mul10 (n : Z) : Z := rnd (10 * n) 1.

(** The first loop: divisions while the limit [L] is reached; [j]
    counts them. *)
Fixpoint down (fuel : nat) (L n j : Z) : option (Z * Z) :=
  if L <=? n then
    match fuel with
    | O => None
    | S fuel' => down fuel' L (div10 n) (j + 1)
    end
  else Some (n, j).

(** The second loop: multiplications while below the limit [L]. *)
Fixpoint up (fuel : nat) (L n j : Z) : option (Z * Z) :=
  if n <? L then
    match fuel with
    | O => None
    | S fuel' => up fuel' L (mul10 n) (j - 1)
    end
  else Some (n, j).

(** The pair of numbers of a pair of integers. *)
Definition lift (r : option (Z * Z)) : option (number * number) :=
  match r with
  | Some (n, j) => Some (Fin n, of_Z j)
  | None => None
  end.

(** The double before [P]. *)
Definition before (P : Z) : Z := P - 2 ^ scale (P - 1).

(** The double before [10^(e+1)], divided by ten, stays below [10^e]. *)
Definition decade_check (e : Z) : bool :=
  div10 (before (10 ^ (e + 1) * ONE)) <? 10 ^ e * ONE.

(** The two loops in sequence, from the exponent 0. *)
Definition norm (fuel : nat) (hi lo n : Z) : option (Z * Z) :=
  match down fuel hi n 0 with
  | Some (m, p) => up fuel lo m p
  | None => None
  end.

(** ** Tokens, as the specification describes them

    Section 4.1 of the specification words [extractOhmValues] as a scan
    for numeric tokens with an optional magnitude suffix, of which the
    distinct finite values are kept.  The definitions of this part follow
    those words; they are compared below with the loop of the source. *)

(** A fraction part: a dot and at least one digit. *)
Definition take_fraction (s : jsstring) : jsstring * jsstring :=
  match s with
  | c :: r =>
      if (c =? 46)%N then
        match span is_digit r with
        | ([], _) => ([], s)
        | (fp, r') => (c :: fp, r')
        end
      else ([], s)
  | [] => ([], s)
  end.

(** The magnitude suffixes and their powers of ten. *)
Definition suffixes : list (jsstring * Z) :=
  [(js "k", 3); (js "K", 3); (js "M", 6); (js "mega", 6); (js "G", 9); (js "g", 9)].

(** The first suffix of the table that [s] starts with. *)
Definition take_suffix (s : jsstring) : option (jsstring * Z) :=
  find (fun w => starts_with (fst w) s) suffixes.

(** A token: the numeral, the white space after it and the suffix with
    its power of ten. *)
Record token : Type :=
  { numeral : jsstring; gap : jsstring; magnitude : option (jsstring * Z) }.

(** The token at the start of [inp]: an unsigned decimal literal, white
    space, and a suffix if one follows. *)
Definition scan (inp : jsstring) : option token :=
  match span is_digit inp with
  | ([], _) => None
  | (ip, r1) =>
      let (fp, r2) := take_fraction r1 in
      let (ws, r3) := span is_space r2 in
      Some {| numeral := ip ++ fp; gap := ws; magnitude := take_suffix r3 |}
  end.

(** The text a token covers. *)
Definition token_text (t : token) : jsstring :=
  numeral t ++ gap t ++ match magnitude t with Some (w, _) => w | None => [] end.

(** The tokens of a text, from left to right; [skip] counts the
    characters still covered by the previous token. *)
Fixpoint tokens_from (skip : nat) (text : jsstring) : list token :=
  match skip, text with
  | S skip', _ :: rest => tokens_from skip' rest
  | S _, [] => []
  | O, [] => []
  | O, _ :: rest =>
      match scan text with
      | Some t => t :: tokens_from (Nat.pred (length (token_text t))) rest
      | None => tokens_from O rest
      end
  end.

Definition tokens (text : jsstring) : list token := tokens_from O text.

(** The value of a token: its numeral scaled by its suffix. *)
Definition token_value (t : token) : number :=
  (parseFloat (Some (numeral t))
   * of_Z (10 ^ match magnitude t with Some (_, e) => e | None => 0 end))%num.

(** The numeral parses to a finite number. *)
Definition token_finite (t : token) : bool := isFinite (parseFloat (Some (numeral t))).

(** The distinct values of a list, in order of first appearance. *)
Fixpoint distinct (xs : list number) : list number :=
  match xs with
  | [] => []
  | x :: rest => x :: filter (fun y => negb (eqb x y)) (distinct rest)
  end.

(** The match of the pattern on a token. *)
Definition to_rmatch (t : token) : rmatch :=
  {| matched := token_text t;
     groups := match magnitude t with
               | Some (w, _) => [(2%nat, w); (1%nat, numeral t)]
               | None => [(1%nat, numeral t)]
               end |}.

(** A continuation that cannot fail. *)
Definition total {A : Type} (k : @continuation A) : Prop := forall i c, k i c <> None.

(** ** Predicates of the proofs *)

(** [seen.add(val); out.push(val)] unless [seen.has(val)]. *)
Definition push (st : list number * list number) (val : number)
  : list number * list number :=
  let (out, seen) := st in
  if has seen val then st else (out ++ [val], val :: seen).

(** Numbers that are at least 0. *)
Definition nonneg (x : number) : Prop :=
  match x with
  | Fin n => 0 <= n
  | Inf s => s = false
  | NaN => False
  end.

(** What [scan] guarantees of a token: the numeral starts with a digit
    and the suffix is one of the table. *)
Definition wf_token (t : token) : Prop :=
  (exists c s, numeral t = c :: s /\ is_digit c = true) /\
  match magnitude t with
  | Some we => In we suffixes
  | None => True
  end.

(** ** What the function returns *)

(** [colorCode(ohms)] returns [r]: every run with enough fuel does. *)
Definition returns (ohms : number) (r : option mapping) : Prop :=
  forall fuel, (enough <= fuel)%nat -> computeResistorColorCode fuel ohms = Some r.

(** Position of a colour name in a table. *)
Fixpoint index_of (c : jsstring) (table : list jsstring) : option Z :=
  match table with
  | [] => None
  | c' :: rest =>
      if jsstring_eqb c c' then Some 0
      else match index_of c rest with Some i => Some (i + 1) | None => None end
  end.

(** The digit a band denotes. *)
Definition color_value (table : list jsstring) (v : value) : option Z :=
  match v with
  | Some c => index_of c table
  | None => None
  end.

(** The resistance a band sequence denotes: the significant digits
    reassembled, times ten to the multiplier. *)
Definition decode (bands : list value) : option Z :=
  match bands with
  | [b1; b2; bm; _] =>
      match color_value digitColor b1, color_value digitColor b2,
            color_value multiplierColor bm with
      | Some d1, Some d2, Some e => Some ((10 * d1 + d2) * 10 ^ e)
      | _, _, _ => None
      end
  | [b1; b2; b3; bm; _] =>
      match color_value digitColor b1, color_value digitColor b2,
            color_value digitColor b3, color_value multiplierColor bm with
      | Some d1, Some d2, Some d3, Some e => Some ((100 * d1 + 10 * d2 + d3) * 10 ^ e)
      | _, _, _, _ => None
      end
  | _ => None
  end.

(** A band sequence, from its colour names. *)
Definition colors (names : list string) : list value := map (fun s => Some (js s)) names.

(** The result for 220 ohms. *)
Definition mapping_220 : mapping :=
  {| fourBand := colors ["Red"; "Red"; "Brown"; "Gold (±5%)"]%string;
     fiveBand := colors ["Red"; "Red"; "Black"; "Black"; "Gold (±5%)"]%string |}.

(** The result for 10^10 ohms. *)
Definition mapping_1e10 : mapping :=
  {| fourBand := colors ["Brown"; "Black"; "White"; "Gold (±5%)"]%string;
     fiveBand := colors ["Brown"; "Black"; "Black"; "Grey"; "Gold (±5%)"]%string |}.

(** An entry of the colour table. *)
Definition is_color (v : value) : Prop := exists c, v = Some c /\ In c digitColor.

(** ** The number model against the Standard Library

    [SpecFloat] of the Standard Library specifies the IEEE 754
    operations on sign, significand and exponent.  [to_spec] maps a
    double of this development to that representation with the binary64
    parameters; [agree] compares the operations of both on a pair of
    operands, up to the sign of zero. *)

Definition to_spec (x : number) : SpecFloat.spec_float :=
  match x with
  | NaN => SpecFloat.S754_nan
  | Inf s => SpecFloat.S754_infinity s
  | Fin 0 => SpecFloat.S754_zero false
  | Fin n =>
      let s := scale (Z.abs n) in
      SpecFloat.S754_finite (n <? 0) (Z.to_pos (Z.shiftr (Z.abs n) s)) (s - 1074)
  end.

Definition same_float (x y : SpecFloat.spec_float) : bool :=
  match x, y with
  | SpecFloat.S754_nan, SpecFloat.S754_nan => true
  | SpecFloat.S754_infinity s, SpecFloat.S754_infinity t => Bool.eqb s t
  | SpecFloat.S754_zero _, SpecFloat.S754_zero _ => true
  | SpecFloat.S754_finite s m e, SpecFloat.S754_finite t m' e' =>
      Bool.eqb s t && Pos.eqb m m' && Z.eqb e e'
  | _, _ => false
  end.

Definition agree (xy : number * number) : bool :=
  let (x, y) := xy in
  same_float (to_spec (x * y)%num) (SpecFloat.SFmul 53 1024 (to_spec x) (to_spec y)) &&
  same_float (to_spec (x / y)%num) (SpecFloat.SFdiv 53 1024 (to_spec x) (to_spec y)) &&
  same_float (to_spec (x + y)%num) (SpecFloat.SFadd 53 1024 (to_spec x) (to_spec y)) &&
  same_float (to_spec (x - y)%num) (SpecFloat.SFsub 53 1024 (to_spec x) (to_spec y)) &&
  Bool.eqb (x <? y)%num (SpecFloat.SFltb (to_spec x) (to_spec y)) &&
  Bool.eqb (x <=? y)%num (SpecFloat.SFleb (to_spec x) (to_spec y)) &&
  Bool.eqb (eqb x y) (SpecFloat.SFeqb (to_spec x) (to_spec y)).

(** Operands of the embedded code and of the corners of the format:
    subnormals, ties, the largest double, overflow, infinities, NaN. *)
Definition samples : list (number * number) :=
  [(of_decimal 47 (-1), of_Z 1000); (of_Z 220, of_Z 10); (of_decimal 1 (-3), of_Z 10);
   (Fin 1, of_Z 10); (Fin 2024, of_Z 10); (of_decimal 1 308, of_Z 10);
   (of_decimal 17 307, of_Z 10); (of_decimal 33 (-1), of_Z (10 ^ 6));
   (of_decimal 1 (-1), of_decimal 2 (-1)); (of_Z 1, of_Z 3); (of_Z 2, of_Z 3);
   (of_decimal 1 (-300), of_decimal 1 (-20)); (of_decimal 1 (-310), of_Z 3);
   (of_decimal (-73) (-1), of_Z (10 ^ 9)); (of_decimal 123456789123 (-3), of_Z (-10));
   (of_Z 9007199254740993, of_Z 10); (Fin (TOP - 2 ^ 2045), of_decimal 5 (-1));
   (Fin (2 ^ 53 - 1), of_decimal 5 (-1)); (Fin (2 ^ 52 + 1), of_decimal 5 (-1));
   (Fin (2 ^ 52 + 3), of_decimal 5 (-1)); (Fin 1, of_decimal 15 (-1));
   (of_decimal 1 200, of_decimal 1 200); (of_decimal 1 (-200), of_decimal 1 (-200));
   (of_decimal 99999999999 0, of_Z 10); (Fin (before (100 * ONE)), of_Z 10);
   (Fin (before (10 * ONE)), of_Z 10); (of_Z 0, of_Z 10); (of_Z 7, Inf false);
   (Inf true, of_Z 3); (NaN, of_Z 3); (Inf false, Inf false)].

(** ** The bands of given digits *)

(** The 4-band sequence of the two digits [D] and the exponent [e]. *)
Definition four_bands (D e : Z) : list value :=
  [nth_error digitColor (Z.to_nat (D / 10)); nth_error digitColor (Z.to_nat (D mod 10));
   nth_error multiplierColor (Z.to_nat e); Some gold].

(** The 5-band sequence of the three digits [D] and the exponent [e]. *)
Definition five_bands (D e : Z) : list value :=
  [nth_error digitColor (Z.to_nat (D / 100));
   nth_error digitColor (Z.to_nat (D / 10 mod 10));
   nth_error digitColor (Z.to_nat (D mod 10));
   nth_error multiplierColor (Z.to_nat e); Some gold].

(** The values between 100 and 10^11, the ones with a colour code. *)
Definition in_range (v : number) : bool :=
  ((v >=? of_Z 100) && (v <? of_Z (10 ^ 11)))%num.

(** ** Texts with one numeral *)

(** No character of the text is a decimal digit. *)
Definition no_digit (s : jsstring) : Prop := Forall (fun c => is_digit c = false) s.

(** All characters are decimal digits, and there is at least one. *)
Definition all_digits (s : jsstring) : Prop :=
  s <> [] /\ Forall (fun c => is_digit c = true) s.

(** The fraction part of a numeral: nothing, or a dot and digits. *)
Definition fraction_part (fp : jsstring) : Prop :=
  fp = [] \/ exists d, fp = 46%N :: d /\ all_digits d.


(** ** The patterns of the handler *)

(** A lower-case letter of a pattern with the flag [i]: the letter in
    either case.  Without the flag [u] a character outside ASCII never
    matches an ASCII letter. *)
Definition ci (c : N) (x : N) : bool := ((x =? c) || (x =? c - 32))%N.

(** A word of at least one letter under the flag [i]. *)
Fixpoint LitI (c : N) (s : jsstring) : regex :=
  match s with
  | [] => Cls (ci c)
  | d :: s' => Seq (Cls (ci c)) (LitI d s')
  end.

(** A word of lower-case letters under the flag [i]. *)
Definition word (s : string) : regex :=
  match js s with
  | [] => Star (fun _ => false)
  | c :: s' => LitI c s'
  end.

(** A word of plain characters, without flags. *)
Definition plain (s : string) : regex :=
  match js s with
  | [] => Star (fun _ => false)
  | c :: s' => Lit c s'
  end.

(** [.]: any character but a line terminator. *)
Definition dot (c : N) : bool := negb (existsb (N.eqb c) [10; 13; 8232; 8233]%N).

(** [(color\s*cod(?:e|ing)|band\s*colou?r)], the group numbered [i]. *)
Definition colorWords (i : nat) : regex :=
  Group i
    (Alt (Seq (word "color") (Seq (Star is_space)
           (Seq (word "cod") (Alt (word "e") (word "ing")))))
         (Seq (word "band") (Seq (Star is_space)
           (Seq (word "colo") (Seq (Opt (Cls (ci 117))) (Cls (ci 114))))))).

(** [/(color\s*cod(?:e|ing)|band\s*colou?r)/i], lines 636 and 647. *)
Definition wantsColorCode_re : regex := colorWords 1.

(** [/(resistor)?.*(color\s*cod(?:e|ing)|band\s*colou?r)/i], lines 688
    and 720. *)
Definition wantColor_re : regex :=
  Seq (Opt (Group 1 (word "resistor"))) (Seq (Star dot) (colorWords 2)).

(** The places where a search can start: the text and its suffixes, the
    empty one included. *)
Fixpoint tails (s : jsstring) : list jsstring :=
  s :: match s with
       | [] => []
       | _ :: rest => tails rest
       end.

(** [r.test(s)] for a pattern without the flags [g] and [y]: is there a
    match starting anywhere. *)
Definition test (r : regex) (s : jsstring) : bool :=
  existsb (fun t => match exec r t with Some _ => true | None => false end) (tails s).

Definition wantsColorCode (question : jsstring) : bool := test wantsColorCode_re question.

Definition wantColor (question : jsstring) : bool := test wantColor_re question.

(** What a pattern can match at the start of a text: [matches r inp rest]
    when a match of [r] leaves [rest] of [inp]. *)
Inductive matches : regex -> jsstring -> jsstring -> Prop :=
| m_cls p c rest : p c = true -> matches (Cls p) (c :: rest) rest
| m_seq r1 r2 inp mid rest :
    matches r1 inp mid -> matches r2 mid rest -> matches (Seq r1 r2) inp rest
| m_alt_l r1 r2 inp rest : matches r1 inp rest -> matches (Alt r1 r2) inp rest
| m_alt_r r1 r2 inp rest : matches r2 inp rest -> matches (Alt r1 r2) inp rest
| m_opt_some r inp rest : matches r inp rest -> matches (Opt r) inp rest
| m_opt_none r inp : matches (Opt r) inp inp
| m_star_stop p inp : matches (Star p) inp inp
| m_star_step p c inp rest :
    p c = true -> matches (Star p) inp rest -> matches (Star p) (c :: inp) rest
| m_group i r inp rest : matches r inp rest -> matches (Group i r) inp rest.

(** A continuation whose outcome does not depend on the captures. *)
Definition blind {A : Type} (k : @continuation A) : Prop :=
  forall i c c', k i c = None -> k i c' = None.

(** [t] is [s] or a later part of it. *)
Definition suffix_of (t s : jsstring) : Prop := exists a, s = a ++ t.

(** Every character that a pattern can take satisfies [P]. *)
Fixpoint takes_only (P : N -> Prop) (r : regex) : Prop :=
  match r with
  | Cls p | Star p => forall c, p c = true -> P c
  | Seq r1 r2 | Alt r1 r2 => takes_only P r1 /\ takes_only P r2
  | Opt r' | Group _ r' => takes_only P r'
  end.

(** ** The greeting, lines 618-624 *)

(** The pattern between [^] and [$]:
    [(hi|hello|hey|hlo|hola|namaste|good\s*(morning|afternoon|evening)|yo|sup)[!.?,\s]*] *)
Definition greetWords : regex :=
  Seq (Group 1
         (Alt (word "hi") (Alt (word "hello") (Alt (word "hey") (Alt (word "hlo")
         (Alt (word "hola") (Alt (word "namaste")
         (Alt (Seq (word "good") (Seq (Star is_space)
                 (Group 2 (Alt (word "morning") (Alt (word "afternoon") (word "evening"))))))
         (Alt (word "yo") (word "sup"))))))))))
      (Star (fun c => existsb (N.eqb c) [33; 46; 63; 44]%N || is_space c)).

(** [!s] for a string. *)
Definition is_empty (s : jsstring) : bool :=
  match s with
  | [] => true
  | _ :: _ => false
  end.

(** [greetRe.test(qNorm)]: the match starts at the start of the text,
    and [$] lets it end only at its end. *)
Definition greetRe_test (qNorm : jsstring) : bool :=
  match mtch greetWords qNorm [] (fun rest _ => if is_empty rest then Some tt else None) with
  | Some _ => true
  | None => false
  end.

(** ** The web search policy, lines 630-641 *)

(** [qDigits]: the runs of digits of the question. *)
Definition qDigits (question : jsstring) : list jsstring :=
  map matched (matchAll (Plus is_digit) question).

(** [new RegExp(`\b${d}\b`)]: in a template literal [\b] is the
    character U+0008, so the pattern is this character, the digits, and
    this character again. *)
Definition boundedDigits (d : jsstring) : regex := Lit 8 (d ++ [8%N]).

Definition digitsInContext (question context : jsstring) : bool :=
  existsb (fun d => test (boundedDigits d) context) (qDigits question).

(** [/(color|colour|band)/i] *)
Definition hasColorTermsInContext (context : jsstring) : bool :=
  test (Group 1 (Alt (word "color") (Alt (word "colour") (word "band")))) context.

Definition insufficientMapping (question context : jsstring) : bool :=
  wantsColorCode question
  && (negb (digitsInContext question context) || negb (hasColorTermsInContext context)).

(** [sim], line 631, from the two similarities of the retrieval. *)
Definition sim (topTextSimilarity topSimilarity : option number) : option number :=
  match topTextSimilarity with
  | Some s => Some s
  | None => topSimilarity
  end.

(** [threshold], lines 632-633, from the variable [SEARCH_SIM_THRESHOLD]. *)
Definition threshold (SEARCH_SIM_THRESHOLD : value) : number :=
  let thresholdEnv :=
    parseFloat (Some (match SEARCH_SIM_THRESHOLD with Some s => s | None => js "0.6" end)) in
  if isFinite thresholdEnv then thresholdEnv else of_decimal 6 (-1).

(** [shouldSearchWeb], line 641; [forceWeb] is the outcome of the
    pattern of line 630. *)
Definition shouldSearchWeb (forceWeb : bool) (topTextSimilarity topSimilarity : option number)
    (SEARCH_SIM_THRESHOLD : value) (question context : jsstring) : bool :=
  forceWeb || insufficientMapping question context
  || match sim topTextSimilarity topSimilarity with
     | Some s => (s <? threshold SEARCH_SIM_THRESHOLD)%num
     | None => false
     end.

(** ** Image paths, lines 657-684 *)

(** [s.replace(/\\/g, '/')] *)
Definition slashes (s : jsstring) : jsstring :=
  map (fun c => if (c =? 92)%N then 47%N else c) s.

(** [s.lastIndexOf(needle)]; [None] is -1. *)
Fixpoint lastIndexOf (needle s : jsstring) : option nat :=
  match s with
  | [] => if starts_with needle [] then Some O else None
  | _ :: rest =>
      match lastIndexOf needle rest with
      | Some i => Some (S i)
      | None => if starts_with needle s then Some O else None
      end
  end.

(** [s.split(sep)] for a separator of one character. *)
Fixpoint split (sep : N) (s : jsstring) : list jsstring :=
  match s with
  | [] => [[]]
  | c :: rest =>
      if (c =? sep)%N then [] :: split sep rest
      else
        match split sep rest with
        | seg :: segs => (c :: seg) :: segs
        | [] => [[c]]
        end
  end.

(** [toClientPath], lines 659-665. *)
Definition toClientPath (p : jsstring) : jsstring :=
  let norm := slashes p in
  match lastIndexOf (js "/images/") norm with
  | Some i => skipn (i + 1) norm
  | None =>
      let file := match last (split 47 norm) [] with
                  | [] => norm
                  | file => file
                  end in
      js "images/" ++ file
  end.

(** [s.includes(needle)] *)
Definition includes (needle s : jsstring) : bool := existsb (starts_with needle) (tails s).

Section Images.

(** [String.prototype.toLowerCase] of the engine, on any text. *)
Variable lower : jsstring -> jsstring.

(** The filter of line 668 on one image path. *)
Definition preferredImage (question p : jsstring) : bool :=
  let qtext := lower question in
  let s := lower p in
  (includes (js "resistor") qtext && test (Seq (plain "res") (Opt (Group 1 (plain "istor")))) s)
  || (includes (js "capacitor") qtext && test (Seq (plain "cap") (Opt (Group 1 (plain "acitor")))) s)
  || (includes (js "inductor") qtext && test (plain "induct") s)
  || ((includes (js "color") qtext || includes (js "colour") qtext)
      && test (Alt (plain "color") (Alt (plain "colour") (Alt (plain "code")
                 (Alt (plain "guide") (plain "chart"))))) s).

(** [picks], line 677. *)
Definition imagePicks (question : jsstring) (images : list jsstring) : list jsstring :=
  let preferred := filter (preferredImage question) images in
  map toClientPath
      (firstn 6 (match preferred with [] => images | _ :: _ => preferred end)).

(** The answer and the sources of lines 678-683. *)
Definition imageAnswer (question : jsstring) (images : list jsstring)
  : jsstring * list jsstring :=
  let picks := imagePicks question images in
  (join [LF] (map Some ([js "Here are relevant images:"; []]
                        ++ map (fun r => js "![](/" ++ r ++ js ")") picks)),
   map (fun p => 47%N :: p) picks).

End Images.

(** ** The handler after the model call, lines 719-739 *)

(** [/i\s*don'?t\s*know|not\s*(available|present)|no\s*information/i] *)
Definition looksUnknown_re : regex :=
  Alt (Seq (word "i") (Seq (Star is_space) (Seq (word "don") (Seq (Opt (Chr 39))
         (Seq (word "t") (Seq (Star is_space) (word "know")))))))
 (Alt (Seq (word "not") (Seq (Star is_space)
         (Group 1 (Alt (word "available") (word "present")))))
      (Seq (word "no") (Seq (Star is_space) (word "information")))).

Section FinalAnswer.

(** [String.prototype.toLowerCase] of the engine, on any text. *)
Variable lower : jsstring -> jsstring.

Definition looksUnknown (t : jsstring) : bool := test looksUnknown_re (lower t).

(** The answer sent after the call of the model returned [draft] (the
    trimmed answer, or the excerpt of the context when the call failed). *)
Definition finalAnswer (fuel : nat) (question draft : jsstring) : option jsstring :=
  let computed :=
    if wantColor question && (is_empty draft || looksUnknown draft) then
      match colorParts fuel (extractOhmValues question) with
      | None => None
      | Some [] => Some draft
      | Some parts =>
          Some (js "Resistor color code:" ++ [LF; LF] ++ join [LF] (map Some parts))
      end
    else Some draft in
  match computed with
  | Some [] => Some (js "I don't know.")
  | other => other
  end.

End FinalAnswer.

(** ** The model candidates, lines 551-568 and 910-930 *)

(** An environment variable that is set to a string that is not empty. *)
Definition truthy (x : value) : bool :=
  match x with
  | Some (_ :: _) => true
  | _ => false
  end.

(** The string of a variable that is set. *)
Definition text_of (x : value) : jsstring :=
  match x with
  | Some s => s
  | None => []
  end.

Module Gemini.

(** A pair of API version and model name. *)
Record candidate : Type := { v : jsstring; m : jsstring }.

(** [`${c.v}|${c.m}`] *)
Definition key (c : candidate) : jsstring := v c ++ js "|" ++ m c.

(** The six pairs that are always tried. *)
Definition defaults : list candidate :=
  [{| v := js "v1"; m := js "gemini-1.5-flash" |};
   {| v := js "v1"; m := js "gemini-1.5-flash-8b" |};
   {| v := js "v1"; m := js "gemini-1.5-pro" |};
   {| v := js "v1beta"; m := js "gemini-2.0-flash" |};
   {| v := js "v1beta"; m := js "gemini-1.5-flash" |};
   {| v := js "v1beta"; m := js "gemini-pro" |}].

(** [preferred], from the variables [GEMINI_MODEL] and
    [GEMINI_API_VERSION]. *)
Definition preferred (GEMINI_MODEL GEMINI_API_VERSION : value) : list candidate :=
  (if truthy GEMINI_MODEL && truthy GEMINI_API_VERSION
   then [{| v := text_of GEMINI_API_VERSION; m := text_of GEMINI_MODEL |}] else [])
  ++ (if truthy GEMINI_MODEL
      then [{| v := js "v1"; m := text_of GEMINI_MODEL |};
            {| v := js "v1beta"; m := text_of GEMINI_MODEL |}] else [])
  ++ defaults.

(** The filter with the set [seen] of keys. *)
Fixpoint dedupe (seen : list jsstring) (l : list candidate) : list candidate :=
  match l with
  | [] => []
  | c :: rest =>
      if existsb (jsstring_eqb (key c)) seen then dedupe seen rest
      else c :: dedupe (key c :: seen) rest
  end.

Definition candidates (GEMINI_MODEL GEMINI_API_VERSION : value) : list candidate :=
  dedupe [] (preferred GEMINI_MODEL GEMINI_API_VERSION).

End Gemini.

(** ** The passages of the context, lines 813-865 *)

(** [s.trim()] *)
Definition trim (s : jsstring) : jsstring :=
  rev (snd (span is_space (rev (snd (span is_space s))))).

(** [/(procedure|precaution|apparatus|equipment|objective|aim|theory|definition|principle)s?/i] *)
Definition focusRegex : regex :=
  Seq (Group 1
         (Alt (word "procedure") (Alt (word "precaution") (Alt (word "apparatus")
         (Alt (word "equipment") (Alt (word "objective") (Alt (word "aim")
         (Alt (word "theory") (Alt (word "definition") (word "principle"))))))))))
      (Opt (Cls (ci 115))).

Module Passages.

(** The two lists and the set of the loop of lines 852-859. *)
Record state : Type :=
  { prioritized : list jsstring; tail : list jsstring; seen : list jsstring }.

Definition start : state := {| prioritized := []; tail := []; seen := [] |}.

(** The body of the loop for one text. *)
Definition step (hasFocusKeyword : bool) (st : state) (s : jsstring) : state :=
  let t := trim s in
  if is_empty t then st
  else if existsb (jsstring_eqb t) (seen st) then st
  else if hasFocusKeyword && test focusRegex t
       then {| prioritized := prioritized st ++ [t]; tail := tail st; seen := t :: seen st |}
       else {| prioritized := prioritized st; tail := tail st ++ [t]; seen := t :: seen st |}.

(** [ordered], line 860, from the texts of the documents;
    [filter(Boolean)] drops the empty ones. *)
Definition ordered (query : jsstring) (texts : list jsstring) : list jsstring :=
  let rawTexts := filter (fun s => negb (is_empty s)) texts in
  let hasFocusKeyword := test focusRegex query in
  let st := fold_left (step hasFocusKeyword) rawTexts start in
  if hasFocusKeyword then prioritized st ++ tail st
  else match tail st with
       | _ :: _ => rawTexts
       | [] => rawTexts
       end.

(** [snippets], the sources of the answer. *)
Definition snippets (query : jsstring) (texts : list jsstring) : list jsstring :=
  firstn 5 (ordered query texts).

(** [context] *)
Definition context (query : jsstring) (texts : list jsstring) : jsstring :=
  join ([LF; LF] ++ js "---" ++ [LF; LF]) (map Some (snippets query texts)).

(** [isSparse] *)
Definition isSparse (query : jsstring) (texts : list jsstring) : bool :=
  let rawTexts := filter (fun s => negb (is_empty s)) texts in
  let hasFocusKeyword := test focusRegex query in
  let st := fold_left (step hasFocusKeyword) rawTexts start in
  let foundFocused := hasFocusKeyword && negb (Nat.eqb (length (prioritized st)) 0) in
  negb foundFocused && (length (context query texts) <? 200)%nat.

End Passages.

(** The first occurrences of the texts of a list that are not in [seen]. *)
Fixpoint uniq (seen : list jsstring) (l : list jsstring) : list jsstring :=
  match l with
  | [] => []
  | t :: rest =>
      if existsb (jsstring_eqb t) seen then uniq seen rest
      else t :: uniq (t :: seen) rest
  end.

(** The passages that can be kept: trimmed, not blank, each once. *)
Definition passages (texts : list jsstring) : list jsstring :=
  uniq [] (filter (fun t => negb (is_empty t)) (map trim texts)).

(** ** The choice of the embedding provider *)

Module Embedder.

(** The variables of the environment that the choice reads; a variable
    is a string or [undefined]. *)
Record env : Type :=
  { GEMINI_API_KEY : value;
    ASTRA_DB_COLLECTION : value;
    EMBED_PROVIDER : value;
    EMBED_MODEL : value }.

(** [x || d] for a variable. *)
Definition or_else (x : value) (d : jsstring) : jsstring :=
  if truthy x then text_of x else d.

(** A destructuring default [x = d]: only [undefined] is replaced. *)
Definition default_to (x : value) (d : jsstring) : jsstring :=
  match x with
  | Some s => s
  | None => d
  end.

(** [`${x}`] for a variable. *)
Definition template (x : value) : jsstring :=
  match x with
  | Some s => s
  | None => js "undefined"
  end.

Section Lower.

(** [String.prototype.toLowerCase] of the engine, on any text. *)
Variable lower : jsstring -> jsstring.

(** The provider name, the same expression in both files. *)
Definition provider (e : env) : jsstring := lower (or_else (EMBED_PROVIDER e) (js "google")).

(** The test for the multimodal model, the same in both files. *)
Definition isMultimodal (e : env) : bool :=
  jsstring_eqb (provider e) (js "multimodal")
  || jsstring_eqb (provider e) (js "google-mm")
  || jsstring_eqb (provider e) (js "mm")
  || test (plain "multimodal") (or_else (EMBED_MODEL e) []).

(** [getEmbedder] of the route, lines 272-331: the dimension and the
    collection name, or [None] when it throws. *)
Definition getEmbedder (e : env) : option (Z * jsstring) :=
  let collection := default_to (ASTRA_DB_COLLECTION e) (js "experiment_docs") in
  let provider :=
    lower (or_else (Some (default_to (EMBED_PROVIDER e) (js "google"))) (js "google")) in
  if jsstring_eqb provider (js "multimodal")
     || jsstring_eqb provider (js "google-mm")
     || jsstring_eqb provider (js "mm")
     || test (plain "multimodal") (or_else (EMBED_MODEL e) [])
  then
    if negb (truthy (GEMINI_API_KEY e)) then None
    else Some (1408, collection ++ js "_mm")
  else if jsstring_eqb provider (js "xenova") then Some (384, collection ++ js "_xv")
  else if negb (truthy (GEMINI_API_KEY e)) then None
  else Some (768, collection).

(** The loading script, lines 171-183 of [loadDB.ts]: the dimension of
    the collection it creates and its name, or [None] when it throws. *)
Definition loadDB (e : env) : option (Z * jsstring) :=
  let useGoogle :=
    negb (isMultimodal e) && jsstring_eqb (provider e) (js "google")
    && truthy (GEMINI_API_KEY e) in
  let collectionName :=
    template (ASTRA_DB_COLLECTION e)
    ++ (if isMultimodal e then js "_mm" else if useGoogle then [] else js "_xv") in
  let embedDimension := if isMultimodal e then 1408 else if useGoogle then 768 else 384 in
  if isMultimodal e && negb (truthy (GEMINI_API_KEY e)) then None
  else Some (embedDimension, collectionName).

End Lower.

End Embedder.

(** ** The restricted web search, lines 426-465 *)

Definition ALLOWED_EDU_DOMAINS : list jsstring :=
  [js "vlab.co.in"; js "nptel.ac.in"; js "wikipedia.org"].

(** [s.endsWith(d)] *)
Definition endsWith (d s : jsstring) : bool := starts_with (rev d) (rev s).

(** [hostname.replace(/^www\./, "")] *)
Definition strip_www (hostname : jsstring) : jsstring :=
  if starts_with (js "www.") hostname then skipn 4 hostname else hostname.

(** The filter of line 448 on the host name of a result. *)
Definition hostAllowed (hostname : jsstring) : bool :=
  existsb (fun d => endsWith d (strip_www hostname)) ALLOWED_EDU_DOMAINS.


(** ** The greeting test, lines 618-620 *)

Section GreetingTest.

(** [String.prototype.toLowerCase] of the engine, on any text. *)
Variable lower : jsstring -> jsstring.

(** [question.trim().toLowerCase()], line 618. *)
Definition qNorm (question : jsstring) : jsstring := lower (trim question).

(** The test of line 620: the handler answers with the greeting. *)
Definition isGreeting (question : jsstring) : bool := greetRe_test (qNorm question).

End GreetingTest.


(** * Proofs *)

(** ** The number model on the samples *)

Lemma model_agrees_with_SpecFloat : forallb agree samples = true.
Proof. vm_compute. reflexivity. Qed.

(** 4.7 is the double 0x1.2cccccccccccdp+2, and 4.7 * 1000 is 4700. *)
Lemma literal_4_7 :
  to_spec (of_decimal 47 (-1)) = SpecFloat.S754_finite false 5291729562160333 (-50) /\
  (of_decimal 47 (-1) * of_Z 1000)%num = of_Z 4700.
Proof. split; vm_compute; reflexivity. Qed.

(** ** Arithmetic of the rounding *)

Section Rounding.

Lemma pow2_pos (s : Z) : 0 <= s -> 0 < 2 ^ s.
Proof. intros; apply Z.pow_pos_nonneg; lia. Qed.

Lemma pow2_divide (s t : Z) : 0 <= s <= t -> (2 ^ s | 2 ^ t).
Proof.
  intros H. exists (2 ^ (t - s)).
  rewrite <- Z.pow_add_r by lia. f_equal; lia.
Qed.

Lemma scale_nonneg (t : Z) : 0 <= scale t.
Proof. unfold scale; lia. Qed.

Lemma scale_mono (t u : Z) : t <= u -> scale t <= scale u.
Proof.
  intros H. unfold scale.
  pose proof (Z.log2_le_mono t u H). lia.
Qed.

Lemma scale_lt_pow (f s : Z) : 0 <= f -> scale f < s -> f < 2 ^ (s + 52).
Proof.
  intros Hf Hs. unfold scale in Hs.
  destruct (Z.eq_dec f 0) as [->|Hn].
  - apply pow2_pos; lia.
  - apply Z.log2_lt_pow2; lia.
Qed.

Lemma scale_pos_pow (t : Z) : 0 < scale t -> 2 ^ (scale t + 52) <= t.
Proof.
  intros Hs. unfold scale in *.
  assert (Ht : 0 < t).
  { destruct (Z_lt_le_dec 0 t) as [|Hle]; [assumption|].
    rewrite (Z.log2_nonpos t Hle) in Hs. lia. }
  replace (Z.max 0 (Z.log2 t - 52) + 52) with (Z.log2 t) by lia.
  apply Z.log2_spec; assumption.
Qed.

Lemma scale_upper (t : Z) : 0 <= t -> t < 2 ^ (scale t + 53).
Proof.
  intros Ht. apply scale_lt_pow with (s := scale t + 1) (f := t) in Ht; [|lia].
  replace (scale t + 53) with (scale t + 1 + 52) by lia. assumption.
Qed.

Lemma grid_dichotomy (f s : Z) :
  0 <= f -> on_grid f -> 0 <= s -> f mod 2 ^ s = 0 \/ f < 2 ^ (s + 52).
Proof.
  intros Hf Hg Hs.
  destruct (Z_le_gt_dec s (scale f)) as [Hle|Hgt].
  - left. apply Z.mod_divide; [pose proof (pow2_pos s Hs); lia|].
    apply Z.divide_trans with (2 ^ scale f).
    + apply pow2_divide; lia.
    + apply Z.mod_divide; [pose proof (pow2_pos (scale f) (scale_nonneg f)); lia|exact Hg].
  - right. apply scale_lt_pow; lia.
Qed.

Lemma nearest_bounds (m r c : Z) : m <= nearest m r c <= m + 1.
Proof.
  unfold nearest. destruct (2 * r ?= c); try destruct (Z.even m); lia.
Qed.

Lemma nearest_zero (m c : Z) : 0 < c -> nearest m 0 c = m.
Proof.
  intros Hc. unfold nearest.
  assert (E : (2 * 0 ?= c) = Lt) by (apply Z.compare_lt_iff; lia).
  rewrite E. reflexivity.
Qed.

Lemma nearest_mono (m r1 r2 c : Z) : r1 <= r2 -> nearest m r1 c <= nearest m r2 c.
Proof.
  intros H. unfold nearest.
  destruct (Z.compare_spec (2 * r1) c), (Z.compare_spec (2 * r2) c);
    destruct (Z.even m); lia.
Qed.

Lemma rne_bounds (a c : Z) : a / c <= rne a c <= a / c + 1.
Proof. apply nearest_bounds. Qed.

Lemma rne_exact (a c : Z) : 0 < c -> a mod c = 0 -> rne a c = a / c.
Proof. intros Hc H. unfold rne. rewrite H. apply nearest_zero; assumption. Qed.

Lemma rne_mono (a1 a2 c : Z) : 0 < c -> a1 <= a2 -> rne a1 c <= rne a2 c.
Proof.
  intros Hc H.
  assert (Hq : a1 / c <= a2 / c) by (apply Z.div_le_mono; lia).
  destruct (Z.eq_dec (a1 / c) (a2 / c)) as [E|N].
  - unfold rne. rewrite E. apply nearest_mono.
    pose proof (Z.div_mod a1 c ltac:(lia)). pose proof (Z.div_mod a2 c ltac:(lia)).
    rewrite E in *. nia.
  - pose proof (rne_bounds a1 c). pose proof (rne_bounds a2 c). lia.
Qed.

(** The quotient along the grid of spacing [2 ^ s]. *)
Lemma div_grid (a b s : Z) : 0 < b -> 0 <= s -> a / (b * 2 ^ s) = a / b / 2 ^ s.
Proof.
  intros Hb Hs. pose proof (pow2_pos s Hs).
  rewrite Z.div_div by lia. reflexivity.
Qed.

(** A point of the grid stays below the rounding of what is above it. *)
Lemma rnd_lower (a b f : Z) :
  0 < b -> 0 <= f -> on_grid f -> f * b <= a -> f <= rnd a b.
Proof.
  intros Hb Hf Hg Hle.
  assert (Ht : f <= a / b) by (apply Z.div_le_lower_bound; lia).
  unfold rnd. set (s := scale (a / b)).
  pose proof (scale_nonneg (a / b)) as Hs. fold s in Hs.
  pose proof (pow2_pos s Hs) as Hp.
  pose proof (rne_bounds a (b * 2 ^ s)) as [Hr _].
  rewrite div_grid in Hr by assumption.
  assert (Hm : f <= a / b / 2 ^ s * 2 ^ s); [|nia].
  destruct (grid_dichotomy f s Hf Hg Hs) as [Hd|Hlt].
  - apply Z.mod_divide in Hd; [|lia]. destruct Hd as [k ->].
    assert (k <= a / b / 2 ^ s) by (apply Z.div_le_lower_bound; lia).
    nia.
  - destruct (Z.eq_dec s 0) as [E|N].
    + rewrite E in *. rewrite Z.pow_0_r, Z.div_1_r. lia.
    + pose proof (scale_pos_pow (a / b) ltac:(fold s; lia)) as Hpow. fold s in Hpow.
      assert (2 ^ 52 <= a / b / 2 ^ s).
      { apply Z.div_le_lower_bound; [lia|]. rewrite <- Z.pow_add_r by lia. assumption. }
      rewrite Z.pow_add_r in Hlt by lia. nia.
Qed.

(** A point of the grid stays above the rounding of what is below it. *)
Lemma rnd_upper (a b f : Z) :
  0 < b -> 0 <= a -> on_grid f -> a <= f * b -> rnd a b <= f.
Proof.
  intros Hb Ha Hg Hle.
  assert (Hf : 0 <= f) by nia.
  unfold rnd. set (s := scale (a / b)).
  pose proof (scale_nonneg (a / b)) as Hs. fold s in Hs.
  pose proof (pow2_pos s Hs) as Hp.
  assert (Hc : 0 < b * 2 ^ s) by nia.
  pose proof (Z.div_mod a (b * 2 ^ s) ltac:(lia)) as Hdm.
  pose proof (Z.mod_pos_bound a (b * 2 ^ s) Hc) as Hmod.
  destruct (Z.eq_dec (a mod (b * 2 ^ s)) 0) as [E|N].
  - rewrite rne_exact by assumption. rewrite E in Hdm.
    assert (a / (b * 2 ^ s) * 2 ^ s * b <= f * b) by nia.
    nia.
  - pose proof (rne_bounds a (b * 2 ^ s)) as [_ Hr].
    set (m := a / (b * 2 ^ s)) in *.
    assert (Hgt : m * 2 ^ s < f) by nia.
    assert (Hm : (m + 1) * 2 ^ s <= f); [|nia].
    destruct (grid_dichotomy f s Hf Hg Hs) as [Hd|Hlt].
    + apply Z.mod_divide in Hd; [|lia]. destruct Hd as [k ->].
      assert (m < k) by (apply Z.mul_lt_mono_pos_r with (2 ^ s); lia).
      nia.
    + destruct (Z.eq_dec s 0) as [E0|N0].
      * rewrite E0 in *. rewrite Z.pow_0_r in *. lia.
      * exfalso.
        pose proof (scale_pos_pow (a / b) ltac:(fold s; lia)) as Hpow. fold s in Hpow.
        assert (2 ^ 52 <= m).
        { unfold m. rewrite div_grid by assumption.
          apply Z.div_le_lower_bound; [lia|]. rewrite <- Z.pow_add_r by lia. assumption. }
        rewrite Z.pow_add_r in Hlt by lia. nia.
Qed.

Lemma rnd_exact (b f : Z) : 0 < b -> 0 <= f -> on_grid f -> rnd (f * b) b = f.
Proof.
  intros Hb Hf Hg. apply Z.le_antisymm.
  - apply rnd_upper; try assumption; nia.
  - apply rnd_lower; try assumption; lia.
Qed.

Lemma rnd_nonneg (a b : Z) : 0 < b -> 0 <= a -> 0 <= rnd a b.
Proof.
  intros Hb Ha. apply rnd_lower; try assumption; try lia.
  reflexivity.
Qed.

(** A significand of at most 53 bits, shifted, is on the grid. *)
Lemma grid_mantissa (m s : Z) : 0 <= m <= 2 ^ 53 -> 0 <= s -> on_grid (m * 2 ^ s).
Proof.
  intros Hm Hs. unfold on_grid.
  pose proof (pow2_pos s Hs) as Hp.
  apply Z.mod_divide; [pose proof (pow2_pos _ (scale_nonneg (m * 2 ^ s))); lia|].
  destruct (Z.eq_dec m (2 ^ 53)) as [->|Hne].
  - rewrite <- Z.pow_add_r by lia.
    apply pow2_divide. split; [apply scale_nonneg|].
    unfold scale. rewrite Z.log2_pow2 by lia. lia.
  - apply Z.divide_trans with (2 ^ s); [|apply Z.divide_factor_r].
    apply pow2_divide. split; [apply scale_nonneg|].
    destruct (Z.eq_dec m 0) as [->|Hz].
    + rewrite Z.mul_0_l. unfold scale. simpl. lia.
    + unfold scale.
      assert (Z.log2 (m * 2 ^ s) < 53 + s); [|lia].
      apply Z.log2_lt_pow2; [nia|].
      rewrite Z.pow_add_r by lia. nia.
Qed.

Lemma rnd_grid (a b : Z) : 0 < b -> 0 <= a -> on_grid (rnd a b).
Proof.
  intros Hb Ha. unfold rnd. set (s := scale (a / b)).
  pose proof (scale_nonneg (a / b)) as Hs. fold s in Hs.
  pose proof (pow2_pos s Hs) as Hp.
  apply grid_mantissa; [|assumption].
  pose proof (rne_bounds a (b * 2 ^ s)) as [Hlo Hhi].
  rewrite div_grid in Hlo, Hhi by assumption.
  assert (Ht : 0 <= a / b) by (apply Z.div_pos; lia).
  assert (0 <= a / b / 2 ^ s) by (apply Z.div_pos; lia).
  assert (a / b / 2 ^ s < 2 ^ 53); [|lia].
  apply Z.div_lt_upper_bound; [lia|].
  rewrite <- Z.pow_add_r by lia. apply scale_upper; assumption.
Qed.

(** Rounding is monotone in the numerator. *)
Lemma rnd_mono (a1 a2 b : Z) : 0 < b -> 0 <= a1 <= a2 -> rnd a1 b <= rnd a2 b.
Proof.
  intros Hb [H1 H12].
  assert (Ht : a1 / b <= a2 / b) by (apply Z.div_le_mono; lia).
  pose proof (scale_mono _ _ Ht) as Hs.
  destruct (Z.eq_dec (scale (a1 / b)) (scale (a2 / b))) as [E|N].
  - unfold rnd. rewrite E. set (s := scale (a2 / b)).
    pose proof (pow2_pos s (scale_nonneg _)).
    apply Z.mul_le_mono_nonneg_r; [lia|]. apply rne_mono; [nia|lia].
  - set (P := 2 ^ (scale (a2 / b) + 52)).
    pose proof (scale_nonneg (a1 / b)) as Hs1.
    assert (HP : on_grid P).
    { unfold P. rewrite Z.add_comm, Z.pow_add_r by lia.
      apply grid_mantissa; [|lia]. split; [apply Z.pow_nonneg; lia|].
      apply Z.pow_le_mono_r; lia. }
    assert (HP0 : 0 < P) by (apply pow2_pos; lia).
    assert (Hlt : a1 / b < P).
    { apply scale_lt_pow; [apply Z.div_pos; lia|lia]. }
    assert (Hge : P <= a2 / b) by (apply scale_pos_pow; lia).
    apply Z.le_trans with P.
    + apply rnd_upper; try assumption.
      pose proof (Z.div_mod a1 b ltac:(lia)).
      pose proof (Z.mod_pos_bound a1 b Hb). nia.
    + apply rnd_lower; try assumption; try lia.
      pose proof (Z.div_mod a2 b ltac:(lia)).
      pose proof (Z.mod_pos_bound a2 b Hb). nia.
Qed.

Lemma nearest_scale (m r c k : Z) : 0 < k -> nearest m (r * k) (c * k) = nearest m r c.
Proof.
  intros Hk. unfold nearest.
  destruct (Z.compare_spec (2 * r) c), (Z.compare_spec (2 * (r * k)) (c * k));
    try reflexivity; nia.
Qed.

(** The rounding depends on the fraction, not on how it is written. *)
Lemma rnd_scale (a b k : Z) : 0 < b -> 0 < k -> rnd (a * k) (b * k) = rnd a b.
Proof.
  intros Hb Hk. unfold rnd.
  rewrite Z.div_mul_cancel_r by lia.
  set (s := scale (a / b)). pose proof (pow2_pos s (scale_nonneg _)) as Hp.
  f_equal. unfold rne.
  replace (b * k * 2 ^ s) with (b * 2 ^ s * k) by ring.
  rewrite Z.div_mul_cancel_r by nia.
  rewrite Z.mul_mod_distr_r by nia.
  apply nearest_scale; assumption.
Qed.

(** *** Trailing zeros *)

Lemma ctz_pos_nonneg (p : positive) : 0 <= ctz_pos p.
Proof. induction p; simpl; lia. Qed.

Lemma ctz_pos_divide (p : positive) : (2 ^ ctz_pos p | Z.pos p).
Proof.
  induction p as [p IH|p IH|]; simpl ctz_pos.
  - rewrite Z.pow_0_r. apply Z.divide_1_l.
  - rewrite Z.pow_succ_r by apply ctz_pos_nonneg.
    destruct IH as [k Hk]. exists k.
    rewrite Pos2Z.inj_xO, Hk. ring.
  - rewrite Z.pow_0_r. apply Z.divide_1_l.
Qed.

Lemma ctz_nonneg (n : Z) : 0 <= ctz n.
Proof. destruct n; simpl; try apply ctz_pos_nonneg; lia. Qed.

Lemma ctz_divide (n : Z) : (2 ^ ctz n | n).
Proof.
  destruct n as [|p|p]; simpl ctz.
  - apply Z.divide_0_r.
  - apply ctz_pos_divide.
  - rewrite <- Pos2Z.opp_pos. apply Z.divide_opp_r, ctz_pos_divide.
Qed.

Lemma shiftr_ctz (n g : Z) : 0 <= g <= ctz n -> n = Z.shiftr n g * 2 ^ g.
Proof.
  intros Hg. rewrite Z.shiftr_div_pow2 by lia.
  pose proof (pow2_pos g ltac:(lia)).
  assert (Hd : (2 ^ g | n)).
  { apply Z.divide_trans with (2 ^ ctz n); [apply pow2_divide; lia|apply ctz_divide]. }
  destruct Hd as [k ->]. rewrite Z.div_mul by lia. reflexivity.
Qed.

(** [round_pos] computes the rounding [rnd]. *)
Lemma round_pos_rnd (a b : Z) : 0 <= a -> 0 < b -> round_pos a b = finish (rnd a b).
Proof.
  intros Ha Hb. unfold round_pos, finish.
  set (g := Z.min (ctz a) (ctz b)).
  assert (Hg : 0 <= g) by (pose proof (ctz_nonneg a); pose proof (ctz_nonneg b); lia).
  pose proof (pow2_pos g Hg) as Hpg.
  pose proof (shiftr_ctz a g ltac:(lia)) as Ea.
  pose proof (shiftr_ctz b g ltac:(lia)) as Eb.
  set (a' := Z.shiftr a g) in *. set (b' := Z.shiftr b g) in *.
  assert (Hb' : 0 < b') by nia.
  assert (Hr : rnd a b = rnd a' b').
  { rewrite Ea, Eb at 1. apply rnd_scale; assumption. }
  rewrite Hr. unfold rnd, rne.
  set (s := scale (a' / b')). pose proof (scale_nonneg (a' / b')) as Hs. fold s in Hs.
  pose proof (pow2_pos s Hs) as Hp.
  rewrite Z.shiftr_div_pow2 by assumption.
  rewrite <- div_grid by assumption.
  replace (a' - a' / (b' * 2 ^ s) * 2 ^ s * b') with (a' mod (b' * 2 ^ s)); [reflexivity|].
  rewrite Z.mod_eq by nia. ring.
Qed.

(** No double lies strictly between a double and the one before it. *)
Lemma grid_lt_pred (n P : Z) :
  0 <= n -> on_grid n -> on_grid P -> n < P -> n <= P - 2 ^ scale (P - 1).
Proof.
  intros Hn Hg HP Hlt.
  set (s := scale (P - 1)). pose proof (scale_nonneg (P - 1)) as Hs. fold s in Hs.
  pose proof (pow2_pos s Hs) as Hp.
  assert (HPs : (2 ^ s | P)).
  { apply Z.divide_trans with (2 ^ scale P).
    - apply pow2_divide. split; [assumption|]. apply scale_mono; lia.
    - apply Z.mod_divide; [pose proof (pow2_pos _ (scale_nonneg P)); lia|exact HP]. }
  destruct HPs as [kP EP].
  destruct (grid_dichotomy n s Hn Hg Hs) as [Hd|Hsmall].
  - apply Z.mod_divide in Hd; [|lia]. destruct Hd as [k Ek].
    assert (k < kP) by nia. nia.
  - destruct (Z.eq_dec s 0) as [E|N].
    + rewrite E in *. rewrite Z.pow_0_r. lia.
    + pose proof (scale_pos_pow (P - 1) ltac:(fold s; lia)) as Hpow. fold s in Hpow.
      rewrite Z.pow_add_r in Hpow, Hsmall by lia.
      assert (2 ^ 52 < kP) by nia. nia.
Qed.

End Rounding.

Section Operations.

Lemma ONE_eq : ONE = 2 ^ 1074.
Proof. reflexivity. Qed.

Lemma TOP_eq : TOP = 2 ^ 1024 * ONE.
Proof. unfold TOP, ONE. rewrite <- Z.pow_add_r by lia. reflexivity. Qed.

Lemma TOP_pow : TOP = 2 ^ 2098.
Proof. reflexivity. Qed.

Lemma ONE_pos : 0 < ONE.
Proof. rewrite ONE_eq. apply pow2_pos; lia. Qed.

Local Opaque ONE TOP.

Lemma finish_fin (r : Z) : r < TOP -> finish r = Fin r.
Proof.
  intros H. unfold finish. destruct (Z.leb_spec TOP r); [lia|reflexivity].
Qed.

Lemma round_ratio_pos (a b : Z) : 0 <= a -> 0 < b -> round_ratio a b = finish (rnd a b).
Proof.
  intros Ha Hb. unfold round_ratio.
  destruct (Z.ltb_spec a 0); [lia|]. apply round_pos_rnd; assumption.
Qed.

Lemma round_ratio_neg (a b : Z) :
  a < 0 -> 0 < b -> round_ratio a b = opp (finish (rnd (- a) b)).
Proof.
  intros Ha Hb. unfold round_ratio.
  destruct (Z.ltb_spec a 0); [|lia]. rewrite round_pos_rnd by lia. reflexivity.
Qed.

(** Whole numbers up to 2^53 are doubles. *)
Lemma grid_integer (k : Z) : 0 <= k <= 2 ^ 53 -> on_grid (k * ONE).
Proof. intros H. rewrite ONE_eq. apply grid_mantissa; lia. Qed.

Lemma integer_below_TOP (k : Z) : k <= 2 ^ 53 -> k * ONE < TOP.
Proof.
  intros H. rewrite TOP_eq. pose proof ONE_pos.
  assert (2 ^ 53 < 2 ^ 1024) by (apply Z.pow_lt_mono_r; lia). nia.
Qed.

Lemma of_Z_exact (k : Z) : Z.abs k <= 2 ^ 53 -> of_Z k = Fin (k * ONE).
Proof.
  intros H. unfold of_Z. pose proof ONE_pos as H1.
  destruct (Z_lt_le_dec k 0) as [Hn|Hp].
  - rewrite round_ratio_neg by nia.
    replace (- (k * ONE)) with (- k * ONE * 1) by ring.
    rewrite rnd_exact; [|lia|nia|apply grid_integer; lia].
    rewrite finish_fin by (apply integer_below_TOP; lia).
    simpl. f_equal. ring.
  - rewrite round_ratio_pos by nia.
    replace (k * ONE) with (k * ONE * 1) at 1 by ring.
    rewrite rnd_exact; [|lia|nia|apply grid_integer; lia].
    apply finish_fin, integer_below_TOP; lia.
Qed.

Lemma add_of_Z (a b : Z) :
  Z.abs a <= 2 ^ 52 -> Z.abs b <= 2 ^ 52 -> (of_Z a + of_Z b)%num = of_Z (a + b).
Proof.
  intros Ha Hb.
  assert (2 ^ 53 = 2 * 2 ^ 52) by reflexivity.
  rewrite (of_Z_exact a), (of_Z_exact b) by lia.
  unfold add. replace (a * ONE + b * ONE) with ((a + b) * ONE) by ring. reflexivity.
Qed.

Lemma sub_of_Z (a b : Z) :
  Z.abs a <= 2 ^ 52 -> Z.abs b <= 2 ^ 52 -> (of_Z a - of_Z b)%num = of_Z (a - b).
Proof.
  intros Ha Hb.
  assert (2 ^ 53 = 2 * 2 ^ 52) by reflexivity.
  rewrite (of_Z_exact a), (of_Z_exact b) by lia.
  unfold sub, add, opp. replace (a * ONE + - (b * ONE)) with ((a - b) * ONE) by ring. reflexivity.
Qed.

(** Division and multiplication by a whole number, on the fraction. *)
Lemma div_whole (n k : Z) :
  0 <= n -> 0 < k <= 2 ^ 53 -> (Fin n / of_Z k)%num = finish (rnd n k).
Proof.
  intros Hn Hk. pose proof ONE_pos as H1.
  rewrite of_Z_exact by lia. unfold div.
  destruct (Z.eqb_spec (k * ONE) 0); [nia|].
  rewrite Z.sgn_pos, Z.abs_eq, Z.mul_1_r by nia.
  rewrite round_ratio_pos by nia.
  rewrite rnd_scale by lia. reflexivity.
Qed.

Lemma mul_whole (n k : Z) :
  0 <= n -> 0 <= k <= 2 ^ 53 -> (Fin n * of_Z k)%num = finish (rnd (k * n) 1).
Proof.
  intros Hn Hk. pose proof ONE_pos as H1.
  rewrite of_Z_exact by lia. unfold mul.
  rewrite round_ratio_pos by nia.
  replace (n * (k * ONE)) with (k * n * ONE) by ring.
  rewrite <- (rnd_scale (k * n) 1 ONE) by lia.
  rewrite Z.mul_1_l. reflexivity.
Qed.

End Operations.

Section Iterates.

Local Opaque ONE TOP.

Lemma pow2_grid (j : Z) : 0 <= j -> on_grid (2 ^ j).
Proof.
  intros Hj. rewrite <- (Z.mul_1_l (2 ^ j)). apply grid_mantissa; [|assumption].
  split; [lia|]. apply (Z.pow_le_mono_r 2 0 53); lia.
Qed.

Lemma pow53_big : 1000 < 2 ^ 53.
Proof. reflexivity. Qed.

Lemma log2_bounds (n : Z) : 0 < n -> 2 ^ Z.log2 n <= n < 2 * 2 ^ Z.log2 n.
Proof.
  intros Hn. pose proof (Z.log2_spec n Hn) as H.
  rewrite Z.pow_succ_r in H by apply Z.log2_nonneg. exact H.
Qed.

Lemma pow2_split (j d : Z) : 0 <= d <= j -> 2 ^ j = 2 ^ d * 2 ^ (j - d).
Proof. intros H. rewrite <- Z.pow_add_r by lia. f_equal; lia. Qed.

Lemma div10_upper (n : Z) : 4 <= n -> div10 n <= 2 ^ (Z.log2 n - 2).
Proof.
  intros Hn. unfold div10.
  assert (2 <= Z.log2 n) by (apply (Z.log2_le_pow2 n 2); simpl; lia).
  pose proof (log2_bounds n ltac:(lia)) as Hb.
  rewrite (pow2_split (Z.log2 n) 2) in Hb by lia.
  pose proof (pow2_pos (Z.log2 n - 2) ltac:(lia)).
  change (2 ^ 2) with 4 in Hb.
  apply rnd_upper; try lia. apply pow2_grid; lia.
Qed.

Lemma div10_lower (n : Z) : 16 <= n -> 2 ^ (Z.log2 n - 4) <= div10 n.
Proof.
  intros Hn. unfold div10.
  assert (4 <= Z.log2 n) by (apply (Z.log2_le_pow2 n 4); simpl; lia).
  pose proof (log2_bounds n ltac:(lia)) as Hb.
  rewrite (pow2_split (Z.log2 n) 4) in Hb by lia.
  pose proof (pow2_pos (Z.log2 n - 4) ltac:(lia)).
  change (2 ^ 4) with 16 in Hb.
  apply rnd_lower; try lia. apply pow2_grid; lia.
Qed.

Lemma div10_log2 (n : Z) : 4 <= n -> Z.log2 (div10 n) <= Z.log2 n - 2.
Proof.
  intros Hn. pose proof (div10_upper n Hn) as H.
  assert (2 <= Z.log2 n) by (apply (Z.log2_le_pow2 n 2); simpl; lia).
  apply Z.log2_le_mono in H. rewrite Z.log2_pow2 in H by lia. assumption.
Qed.

Lemma div10_lt (n : Z) : 4 <= n -> div10 n < n.
Proof.
  intros Hn. pose proof (div10_upper n Hn) as H.
  assert (2 <= Z.log2 n) by (apply (Z.log2_le_pow2 n 2); simpl; lia).
  pose proof (log2_bounds n ltac:(lia)) as Hb.
  rewrite (pow2_split (Z.log2 n) 2) in Hb by lia.
  pose proof (pow2_pos (Z.log2 n - 2) ltac:(lia)).
  change (2 ^ 2) with 4 in Hb. lia.
Qed.

Lemma div10_pos (n : Z) : 16 <= n -> 0 < div10 n.
Proof.
  intros Hn. pose proof (div10_lower n Hn).
  assert (4 <= Z.log2 n) by (apply (Z.log2_le_pow2 n 4); simpl; lia).
  pose proof (pow2_pos (Z.log2 n - 4) ltac:(lia)). lia.
Qed.

Lemma mul10_lower (n : Z) : 0 < n -> 2 ^ (Z.log2 n + 3) <= mul10 n.
Proof.
  intros Hn. unfold mul10.
  pose proof (Z.log2_nonneg n).
  pose proof (log2_bounds n Hn) as Hb.
  pose proof (pow2_pos (Z.log2 n + 3) ltac:(lia)).
  assert (E : 2 ^ (Z.log2 n + 3) = 2 ^ Z.log2 n * 8) by (rewrite Z.pow_add_r by lia; reflexivity).
  apply rnd_lower; try lia. apply pow2_grid; lia.
Qed.

Lemma mul10_upper (n : Z) : 0 < n -> mul10 n <= 2 ^ (Z.log2 n + 5).
Proof.
  intros Hn. unfold mul10.
  pose proof (Z.log2_nonneg n).
  pose proof (log2_bounds n Hn) as Hb.
  assert (E : 2 ^ (Z.log2 n + 5) = 2 ^ Z.log2 n * 32) by (rewrite Z.pow_add_r by lia; reflexivity).
  apply rnd_upper; try lia. apply pow2_grid; lia.
Qed.

Lemma mul10_gt (n : Z) : 0 < n -> n < mul10 n.
Proof.
  intros Hn. pose proof (mul10_lower n Hn) as H.
  pose proof (Z.log2_nonneg n).
  pose proof (log2_bounds n Hn) as Hb.
  rewrite Z.pow_add_r in H by lia. change (2 ^ 3) with 8 in H. lia.
Qed.

Lemma mul10_log2 (n : Z) : 0 < n -> Z.log2 n + 3 <= Z.log2 (mul10 n).
Proof.
  intros Hn. pose proof (mul10_lower n Hn) as H.
  pose proof (Z.log2_nonneg n).
  apply Z.log2_le_mono in H. rewrite Z.log2_pow2 in H by lia. assumption.
Qed.

Lemma mul10_bound (n : Z) : 0 < n -> mul10 n <= 32 * n.
Proof.
  intros Hn. pose proof (mul10_upper n Hn) as H.
  pose proof (Z.log2_nonneg n).
  pose proof (log2_bounds n Hn) as Hb.
  rewrite Z.pow_add_r in H by lia. change (2 ^ 5) with 32 in H. lia.
Qed.

(** *** The loops on numbers are the loops on integers *)

Lemma geb_Fin (n L : Z) : (Fin n >=? Fin L)%num = (L <=? n).
Proof.
  unfold geb, leb, ltb, eqb.
  destruct (Z.ltb_spec L n), (Z.eqb_spec L n), (Z.leb_spec L n); try reflexivity; lia.
Qed.

Lemma while_ge_eq (fuel : nat) (lim m p : number) :
  while_ge fuel lim m p =
  if (m >=? lim)%num then
    match fuel with
    | O => None
    | S fuel' => while_ge fuel' lim (m / of_Z 10)%num (p + of_Z 1)%num
    end
  else Some (m, p).
Proof. destruct fuel; reflexivity. Qed.

Lemma while_lt_eq (fuel : nat) (lim m p : number) :
  while_lt fuel lim m p =
  if (m <? lim)%num then
    match fuel with
    | O => None
    | S fuel' => while_lt fuel' lim (m * of_Z 10)%num (p - of_Z 1)%num
    end
  else Some (m, p).
Proof. destruct fuel; reflexivity. Qed.

Lemma down_eq (fuel : nat) (L n j : Z) :
  down fuel L n j =
  if L <=? n then
    match fuel with
    | O => None
    | S fuel' => down fuel' L (div10 n) (j + 1)
    end
  else Some (n, j).
Proof. destruct fuel; reflexivity. Qed.

Lemma up_eq (fuel : nat) (L n j : Z) :
  up fuel L n j =
  if n <? L then
    match fuel with
    | O => None
    | S fuel' => up fuel' L (mul10 n) (j - 1)
    end
  else Some (n, j).
Proof. destruct fuel; reflexivity. Qed.

Lemma while_ge_down (fuel : nat) (L : Z) :
  4 <= L ->
  forall n k,
    0 <= n < TOP -> Z.abs k + Z.log2 n <= 2 ^ 51 ->
    while_ge fuel (Fin L) (Fin n) (of_Z k) = lift (down fuel L n k).
Proof.
  intros HL. induction fuel as [|fuel IH]; intros n k Hn Hk;
    rewrite while_ge_eq, down_eq, geb_Fin.
  - destruct (L <=? n); reflexivity.
  - destruct (Z.leb_spec L n) as [Hge|Hlt]; [|reflexivity].
    pose proof (div10_lt n ltac:(lia)) as Hd.
    pose proof (div10_log2 n ltac:(lia)) as Hlog.
    assert (H0 : 0 <= div10 n) by (apply rnd_nonneg; lia).
    pose proof (Z.log2_nonneg n). pose proof (Z.log2_nonneg (div10 n)).
    pose proof pow53_big.
    rewrite div_whole by lia.
    fold (div10 n). rewrite finish_fin by lia.
    rewrite add_of_Z by (change (Z.abs 1) with 1; lia).
    apply IH; lia.
Qed.

Lemma while_lt_up (fuel : nat) (L : Z) :
  0 < L -> 32 * L <= TOP ->
  forall n k,
    0 < n < TOP -> Z.abs k + Z.log2 L - Z.log2 n <= 2 ^ 51 \/ L <= n ->
    while_lt fuel (Fin L) (Fin n) (of_Z k) = lift (up fuel L n k).
Proof.
  intros HL HT. induction fuel as [|fuel IH]; intros n k Hn Hk;
    rewrite while_lt_eq, up_eq; cbn [ltb].
  - destruct (n <? L); reflexivity.
  - destruct (Z.ltb_spec n L) as [Hlt|Hge]; [|reflexivity].
    destruct Hk as [Hk|Hk]; [|lia].
    pose proof (mul10_gt n ltac:(lia)) as Hd.
    pose proof (mul10_log2 n ltac:(lia)) as Hlog.
    pose proof (mul10_bound n ltac:(lia)) as Hb.
    pose proof (Z.log2_le_mono n L ltac:(lia)).
    pose proof pow53_big.
    rewrite mul_whole by lia.
    fold (mul10 n). rewrite finish_fin by lia.
    rewrite sub_of_Z by (change (Z.abs 1) with 1; lia).
    apply IH; [lia|].
    destruct (Z_lt_le_dec (mul10 n) L); [left|right]; lia.
Qed.

(** *** Termination of the loops *)

Lemma down_terminates (L : Z) :
  16 <= L ->
  forall (fuel : nat) n k,
    0 <= n -> Z.log2 n < 2 * Z.of_nat fuel ->
    exists n' j,
      down fuel L n k = Some (n', k + j) /\
      0 <= j /\ 2 * j <= Z.log2 n /\ n' < L /\ n' <= n /\
      (0 < n -> 0 < n') /\ (n < L -> n' = n /\ j = 0) /\ (L <= n -> 1 <= j).
Proof.
  intros HL. induction fuel as [|fuel IH]; intros n k Hn Hf; rewrite down_eq.
  - pose proof (Z.log2_nonneg n). lia.
  - destruct (Z.leb_spec L n) as [Hge|Hlt].
    + pose proof (div10_lt n ltac:(lia)) as Hd.
      pose proof (div10_log2 n ltac:(lia)) as Hlog.
      pose proof (div10_pos n ltac:(lia)) as Hp.
      destruct (IH (div10 n) (k + 1) ltac:(lia) ltac:(lia))
        as (n' & j & E & Hj & Hj2 & HnL & Hle & Hpos & _ & _).
      exists n', (j + 1). rewrite E. split; [f_equal; f_equal; lia|].
      repeat split; lia.
    + exists n, 0. rewrite Z.add_0_r. pose proof (Z.log2_nonneg n).
      repeat split; try lia.
Qed.

Lemma up_terminates (L : Z) :
  0 < L ->
  forall (fuel : nat) n k,
    0 < n -> Z.log2 L - Z.log2 n < 3 * Z.of_nat fuel ->
    exists n' j,
      up fuel L n k = Some (n', k - j) /\
      0 <= j /\ 3 * j <= Z.max 0 (Z.log2 L - Z.log2 n + 3) /\ L <= n' /\ n <= n' /\
      (n < L -> 1 <= j /\ n' < 32 * L) /\ (L <= n -> n' = n /\ j = 0).
Proof.
  intros HL. induction fuel as [|fuel IH]; intros n k Hn Hf; rewrite up_eq.
  - destruct (Z.ltb_spec n L) as [Hlt|Hge].
    + pose proof (Z.log2_le_mono n L ltac:(lia)). lia.
    + exists n, 0. rewrite Z.sub_0_r. repeat split; lia.
  - destruct (Z.ltb_spec n L) as [Hlt|Hge].
    + pose proof (mul10_gt n ltac:(lia)) as Hd.
      pose proof (mul10_log2 n ltac:(lia)) as Hlog.
      pose proof (mul10_bound n ltac:(lia)) as Hb.
      pose proof (Z.log2_le_mono n L ltac:(lia)) as HnL'.
      destruct (IH (mul10 n) (k - 1) ltac:(lia) ltac:(lia))
        as (n' & j & E & Hj & Hj3 & HnL & Hle & Hlt' & Hge').
      exists n', (j + 1). rewrite E. split; [f_equal; f_equal; lia|].
      repeat split; lia.
    + exists n, 0. rewrite Z.sub_0_r. repeat split; lia.
Qed.

End Iterates.

Section Decades.

Local Opaque ONE TOP.

(** What a run of a loop returns, whatever the fuel. *)
Lemma down_inv (L : Z) :
  16 <= L ->
  forall (fuel : nat) n k n' j,
    0 < n -> down fuel L n k = Some (n', j) ->
    0 < n' <= n /\ n' < L /\ k <= j /\ 2 * (j - k) <= Z.log2 n /\
    (n < L -> n' = n /\ j = k) /\ (L <= n -> k + 1 <= j).
Proof.
  intros HL. induction fuel as [|fuel IH]; intros n k n' j Hn; rewrite down_eq;
    destruct (Z.leb_spec L n) as [Hge|Hlt]; intros E; try discriminate.
  - injection E as <- <-. pose proof (Z.log2_nonneg n). repeat split; lia.
  - pose proof (div10_lt n ltac:(lia)) as Hd.
    pose proof (div10_log2 n ltac:(lia)) as Hlog.
    pose proof (div10_pos n ltac:(lia)) as Hp.
    apply IH in E; [|assumption]. repeat split; lia.
  - injection E as <- <-. pose proof (Z.log2_nonneg n). repeat split; lia.
Qed.

Lemma up_inv (L : Z) :
  0 < L ->
  forall (fuel : nat) n k n' j,
    0 < n -> up fuel L n k = Some (n', j) ->
    L <= n' /\ n <= n' /\ j <= k /\ 3 * (k - j) <= Z.max 0 (Z.log2 L - Z.log2 n + 3) /\
    (n < L -> j + 1 <= k /\ n' < 32 * L) /\ (L <= n -> n' = n /\ j = k).
Proof.
  intros HL. induction fuel as [|fuel IH]; intros n k n' j Hn; rewrite up_eq;
    destruct (Z.ltb_spec n L) as [Hlt|Hge]; intros E; try discriminate.
  - injection E as <- <-. repeat split; lia.
  - pose proof (mul10_gt n ltac:(lia)) as Hd.
    pose proof (mul10_log2 n ltac:(lia)) as Hlog.
    pose proof (mul10_bound n ltac:(lia)) as Hb.
    pose proof (Z.log2_le_mono n L ltac:(lia)) as HnL'.
    apply IH in E; [|lia]. repeat split; lia.
  - injection E as <- <-. repeat split; lia.
Qed.

Lemma down_total (L : Z) :
  16 <= L ->
  forall (fuel : nat) n k,
    0 <= n -> Z.log2 n < 2 * Z.of_nat fuel -> exists r, down fuel L n k = Some r.
Proof.
  intros HL fuel n k Hn Hf.
  destruct (down_terminates L HL fuel n k Hn Hf) as (n' & j & E & _).
  eauto.
Qed.

Lemma up_total (L : Z) :
  0 < L ->
  forall (fuel : nat) n k,
    0 < n -> Z.log2 L - Z.log2 n < 3 * Z.of_nat fuel -> exists r, up fuel L n k = Some r.
Proof.
  intros HL fuel n k Hn Hf.
  destruct (up_terminates L HL fuel n k Hn Hf) as (n' & j & E & _).
  eauto.
Qed.

(** More fuel does not change a result. *)
Lemma while_ge_fuel (fuel fuel' : nat) (lim m p : number) r :
  (fuel <= fuel')%nat -> while_ge fuel lim m p = Some r -> while_ge fuel' lim m p = Some r.
Proof.
  revert fuel' m p. induction fuel as [|fuel IH]; intros fuel' m p Hle;
    rewrite (while_ge_eq _ lim m p), (while_ge_eq fuel' lim m p);
    destruct (m >=? lim)%num; try discriminate; try tauto.
  destruct fuel' as [|fuel']; [lia|]. apply IH; lia.
Qed.

Lemma while_lt_fuel (fuel fuel' : nat) (lim m p : number) r :
  (fuel <= fuel')%nat -> while_lt fuel lim m p = Some r -> while_lt fuel' lim m p = Some r.
Proof.
  revert fuel' m p. induction fuel as [|fuel IH]; intros fuel' m p Hle;
    rewrite (while_lt_eq _ lim m p), (while_lt_eq fuel' lim m p);
    destruct (m <? lim)%num; try discriminate; try tauto.
  destruct fuel' as [|fuel']; [lia|]. apply IH; lia.
Qed.

Lemma normalize_fuel (fuel fuel' : nat) (hi lo ohms : number) r :
  (fuel <= fuel')%nat ->
  normalize fuel hi lo ohms = Some r -> normalize fuel' hi lo ohms = Some r.
Proof.
  intros Hle. unfold normalize.
  destruct (while_ge fuel hi ohms (of_Z 0)) as [[m p]|] eqn:E; [|discriminate].
  rewrite (while_ge_fuel _ _ _ _ _ _ Hle E). apply while_lt_fuel; assumption.
Qed.

Lemma fourBandOf_fuel (fuel fuel' : nat) (ohms : number) r :
  (fuel <= fuel')%nat -> fourBandOf fuel ohms = Some r -> fourBandOf fuel' ohms = Some r.
Proof.
  intros Hle. unfold fourBandOf.
  destruct (normalize fuel _ _ ohms) as [[m p]|] eqn:E; [|discriminate].
  rewrite (normalize_fuel _ _ _ _ _ _ Hle E). tauto.
Qed.

Lemma fiveBandOf_fuel (fuel fuel' : nat) (ohms : number) r :
  (fuel <= fuel')%nat -> fiveBandOf fuel ohms = Some r -> fiveBandOf fuel' ohms = Some r.
Proof.
  intros Hle. unfold fiveBandOf.
  destruct (normalize fuel _ _ ohms) as [[m p]|] eqn:E; [|discriminate].
  rewrite (normalize_fuel _ _ _ _ _ _ Hle E). tauto.
Qed.

Lemma computeResistorColorCode_fuel (fuel fuel' : nat) (ohms : number) r :
  (fuel <= fuel')%nat ->
  computeResistorColorCode fuel ohms = Some r ->
  computeResistorColorCode fuel' ohms = Some r.
Proof.
  intros Hle. unfold computeResistorColorCode.
  destruct (negb (isFinite ohms) || (ohms <=? of_Z 0)%num); [tauto|].
  destruct (fourBandOf fuel ohms) as [four|] eqn:E4; [|discriminate].
  rewrite (fourBandOf_fuel _ _ _ _ Hle E4).
  destruct four as [four|]; [|tauto].
  destruct (fiveBandOf fuel ohms) as [five|] eqn:E5; [|discriminate].
  rewrite (fiveBandOf_fuel _ _ _ _ Hle E5). tauto.
Qed.

(** *** Powers of ten *)

Lemma grid_ten_pow (e : Z) : 0 <= e <= 22 -> on_grid (10 ^ e * ONE).
Proof.
  intros He. rewrite ONE_eq.
  change 10 with (5 * 2). rewrite Z.pow_mul_l, <- Z.mul_assoc, <- Z.pow_add_r by lia.
  apply grid_mantissa; [|lia].
  split; [apply Z.pow_nonneg; lia|].
  apply Z.le_trans with (5 ^ 22); [apply Z.pow_le_mono_r; lia|].
  apply Z.leb_le. reflexivity.
Qed.

Lemma ten_pow_pos (e : Z) : 0 <= e -> 0 < 10 ^ e * ONE.
Proof.
  intros He. pose proof ONE_pos. pose proof (Z.pow_pos_nonneg 10 e ltac:(lia) He). nia.
Qed.

Lemma ten_pow_succ (e : Z) : 0 <= e -> 10 ^ (e + 1) * ONE = 10 * (10 ^ e * ONE).
Proof. intros He. rewrite Z.pow_add_r by lia. ring. Qed.

Lemma decade_checks : forallb decade_check [1; 2; 3; 4; 5; 6; 7; 8; 9; 10] = true.
Proof. vm_compute. reflexivity. Qed.

(** Dividing a double of the decade [10^e, 10^(e+1)) by ten lands in the
    decade below: the rounding cannot reach the next power of ten. *)
Lemma decade_step (e n : Z) :
  1 <= e <= 10 -> on_grid n ->
  10 ^ e * ONE <= n < 10 ^ (e + 1) * ONE ->
  10 ^ (e - 1) * ONE <= div10 n < 10 ^ e * ONE /\ on_grid (div10 n).
Proof.
  intros He Hg [Hlo Hhi].
  pose proof (ten_pow_pos (e - 1) ltac:(lia)) as Hpos.
  pose proof (ten_pow_succ (e - 1) ltac:(lia)) as Hs.
  replace (e - 1 + 1) with e in Hs by lia.
  split; [split|].
  - apply rnd_lower; try lia. apply grid_ten_pow; lia.
  - apply Z.le_lt_trans with (div10 (before (10 ^ (e + 1) * ONE))).
    + apply rnd_mono; [lia|]. split; [lia|].
      apply grid_lt_pred; try lia; try assumption. apply grid_ten_pow; lia.
    + pose proof decade_checks as Hc. rewrite forallb_forall in Hc.
      apply Z.ltb_lt. apply (Hc e).
      simpl. lia.
  - apply rnd_grid; lia.
Qed.

End Decades.

Section Normalize.

Local Opaque ONE TOP.

Lemma log2_below_TOP (n : Z) : 0 < n < TOP -> Z.log2 n < 2098.
Proof. intros H. apply Z.log2_lt_pow2; [lia|]. rewrite <- TOP_pow. lia. Qed.

Lemma small_below_TOP (k : Z) : k <= 2 ^ 53 -> 32 * (k * ONE) <= TOP.
Proof.
  intros H. rewrite TOP_eq. pose proof ONE_pos.
  assert (32 * 2 ^ 53 <= 2 ^ 1024).
  { change 32 with (2 ^ 5). rewrite <- Z.pow_add_r by lia. apply Z.pow_le_mono_r; lia. }
  nia.
Qed.

Lemma normalize_norm (fuel : nat) (hi lo n : Z) :
  16 <= hi <= 1000 -> 1 <= lo <= 1000 -> 0 < n < TOP ->
  normalize fuel (of_Z hi) (of_Z lo) (Fin n) = lift (norm fuel (hi * ONE) (lo * ONE) n).
Proof.
  intros Hhi Hlo Hn. pose proof ONE_pos. pose proof pow53_big.
  pose proof (log2_below_TOP n Hn) as Hlog.
  assert (H51 : 2 ^ 12 <= 2 ^ 51) by (apply Z.pow_le_mono_r; lia).
  change (2 ^ 12) with 4096 in H51.
  unfold normalize, norm.
  rewrite (of_Z_exact hi), (of_Z_exact lo) by lia.
  rewrite while_ge_down by (change (Z.abs 0) with 0; nia).
  destruct (down fuel (hi * ONE) n 0) as [[m p]|] eqn:E; cbn [lift]; [|reflexivity].
  apply down_inv in E; [|nia|lia].
  destruct E as (Hm & _ & Hp0 & Hp & _).
  pose proof (small_below_TOP lo ltac:(lia)).
  apply while_lt_up; try nia.
  destruct (Z_lt_le_dec m (lo * ONE)) as [Hlt|Hge]; [left|right; assumption].
  assert (Z.log2 (lo * ONE) < 2098) by (apply log2_below_TOP; nia).
  pose proof (Z.log2_nonneg m). lia.
Qed.

(** A run of the first loop does not fall through a double [f] whose
    tenfold is within the limit. *)
Lemma down_lower (L f : Z) :
  0 < f -> on_grid f -> 10 * f <= L ->
  forall (fuel : nat) n k n' j,
    f <= n -> down fuel L n k = Some (n', j) -> f <= n'.
Proof.
  intros Hf Hg HL. induction fuel as [|fuel IH]; intros n k n' j Hn; rewrite down_eq;
    destruct (Z.leb_spec L n) as [Hge|Hlt]; intros E; try discriminate.
  - injection E as <- <-. assumption.
  - apply IH in E; [assumption|]. apply rnd_lower; first [assumption|lia].
  - injection E as <- <-. assumption.
Qed.

(** From a decade at or above the limit [10^q], the first loop needs one
    division per decade and stops in the decade below the limit. *)
Lemma down_decades (q : Z) :
  1 <= q ->
  forall (d fuel : nat) n k,
    on_grid n ->
    10 ^ (q + Z.of_nat d) * ONE <= n < 10 ^ (q + Z.of_nat d + 1) * ONE ->
    q + Z.of_nat d <= 10 -> (d < fuel)%nat ->
    exists n',
      down fuel (10 ^ q * ONE) n k = Some (n', k + Z.of_nat d + 1) /\
      10 ^ (q - 1) * ONE <= n' < 10 ^ q * ONE /\ on_grid n'.
Proof.
  intros Hq. induction d as [|d IH]; intros fuel n k Hg Hn Hle Hf;
    (destruct fuel as [|fuel]; [lia|]); rewrite down_eq.
  - rewrite Z.add_0_r in *.
    destruct (Z.leb_spec (10 ^ q * ONE) n) as [_|]; [|lia].
    destruct (decade_step q n ltac:(lia) Hg Hn) as [Hd Hg'].
    exists (div10 n). rewrite down_eq.
    destruct (Z.leb_spec (10 ^ q * ONE) (div10 n)) as [|_]; [lia|].
    split; [f_equal; f_equal; lia|]. split; assumption.
  - assert (10 ^ q * ONE <= 10 ^ (q + Z.of_nat (S d)) * ONE).
    { pose proof ONE_pos. apply Z.mul_le_mono_nonneg_r; [lia|].
      apply Z.pow_le_mono_r; lia. }
    destruct (Z.leb_spec (10 ^ q * ONE) n) as [_|]; [|lia].
    destruct (decade_step (q + Z.of_nat (S d)) n ltac:(lia) Hg Hn) as [Hd Hg'].
    replace (q + Z.of_nat (S d) - 1) with (q + Z.of_nat d) in Hd by lia.
    replace (q + Z.of_nat (S d)) with (q + Z.of_nat d + 1) in Hd by lia.
    destruct (IH fuel (div10 n) (k + 1) Hg' Hd ltac:(lia) ltac:(lia)) as (n' & E & Hn' & Hgn').
    exists n'. rewrite E. split; [f_equal; f_equal; lia|]. split; assumption.
Qed.

(** From [10^(2+d)] on, the 4-band loop divides more than [d] times. *)
Lemma down_large (d : nat) :
  forall (fuel : nat) n k n' j,
    (d <= 20)%nat -> 10 ^ (2 + Z.of_nat d) * ONE <= n ->
    down fuel (100 * ONE) n k = Some (n', j) -> k + Z.of_nat d + 1 <= j.
Proof.
  pose proof ONE_pos as H1.
  induction d as [|d IH]; intros fuel n k n' j Hd Hn;
    rewrite down_eq; (destruct fuel as [|fuel]).
  - rewrite Z.add_0_r in Hn. change (10 ^ 2) with 100 in Hn.
    destruct (Z.leb_spec (100 * ONE) n); [discriminate|lia].
  - rewrite Z.add_0_r in Hn. change (10 ^ 2) with 100 in Hn.
    destruct (Z.leb_spec (100 * ONE) n); [|lia].
    intros E. apply down_inv in E; [lia|lia|]. apply div10_pos. lia.
  - assert (100 * ONE <= n).
    { apply Z.le_trans with (10 ^ (2 + Z.of_nat (S d)) * ONE); [|assumption].
      change 100 with (10 ^ 2). apply Z.mul_le_mono_nonneg_r; [lia|].
      apply Z.pow_le_mono_r; lia. }
    destruct (Z.leb_spec (100 * ONE) n); [discriminate|lia].
  - assert (100 * ONE <= n).
    { apply Z.le_trans with (10 ^ (2 + Z.of_nat (S d)) * ONE); [|assumption].
      change 100 with (10 ^ 2). apply Z.mul_le_mono_nonneg_r; [lia|].
      apply Z.pow_le_mono_r; lia. }
    destruct (Z.leb_spec (100 * ONE) n); [|lia].
    intros E. apply IH in E; [lia|lia|].
    replace (2 + Z.of_nat (S d)) with (2 + Z.of_nat d + 1) in Hn by lia.
    rewrite ten_pow_succ in Hn by lia.
    pose proof (ten_pow_pos (2 + Z.of_nat d) ltac:(lia)).
    apply rnd_lower; try lia. apply grid_ten_pow; lia.
Qed.

(** *** Digits *)

Lemma floor_Fin (n : Z) : floor (Fin n) = Fin (n / ONE * ONE).
Proof.
  unfold floor. rewrite Z.shiftl_mul_pow2, Z.shiftr_div_pow2 by lia.
  rewrite <- ONE_eq. reflexivity.
Qed.

Lemma rem_Fin (a b : Z) : b <> 0 -> (Fin a %% Fin b)%num = Fin (Z.rem a b).
Proof.
  intros Hb. unfold rem. destruct (Z.eqb_spec b 0); [contradiction|].
  set (g := Z.min (ctz a) (ctz b)).
  assert (Hg : 0 <= g) by (pose proof (ctz_nonneg a); pose proof (ctz_nonneg b); lia).
  pose proof (pow2_pos g Hg) as Hpg.
  pose proof (shiftr_ctz a g ltac:(lia)) as Ea.
  pose proof (shiftr_ctz b g ltac:(lia)) as Eb.
  rewrite Z.shiftl_mul_pow2 by assumption.
  rewrite Ea, Eb at 2. rewrite Z.mul_rem_distr_r by nia. reflexivity.
Qed.

Lemma is_integer_whole (k : Z) : is_integer (k * ONE) = true.
Proof.
  unfold is_integer. rewrite Z.shiftl_mul_pow2, Z.shiftr_div_pow2 by lia.
  rewrite <- ONE_eq. pose proof ONE_pos. rewrite Z.div_mul by lia. apply Z.eqb_refl.
Qed.

Lemma get_whole (arr : list jsstring) (k : Z) :
  0 <= k -> get arr (Fin (k * ONE)) = nth_error arr (Z.to_nat k).
Proof.
  intros Hk. unfold get, toIndex. pose proof ONE_pos.
  rewrite is_integer_whole. destruct (Z.leb_spec 0 (k * ONE)); [|nia].
  cbn [andb]. rewrite Z.shiftr_div_pow2, <- ONE_eq, Z.div_mul by lia. reflexivity.
Qed.

Lemma out_of_digit_whole (k : Z) :
  out_of_digit (Fin (k * ONE)) = negb ((0 <=? k) && (k <=? 9)).
Proof.
  unfold out_of_digit, gtb. pose proof pow53_big. pose proof ONE_pos.
  rewrite (of_Z_exact 0), (of_Z_exact 9) by (cbn [Z.abs]; lia).
  cbn [ltb].
  destruct (Z.ltb_spec (k * ONE) (0 * ONE)), (Z.ltb_spec (9 * ONE) (k * ONE)),
    (Z.leb_spec 0 k), (Z.leb_spec k 9); try reflexivity; nia.
Qed.

Lemma out_of_digit_of_Z (k : Z) :
  Z.abs k <= 2 ^ 53 -> out_of_digit (of_Z k) = negb ((0 <=? k) && (k <=? 9)).
Proof. intros H. rewrite of_Z_exact by assumption. apply out_of_digit_whole. Qed.

Lemma whole_part (n lo hi : Z) :
  lo * ONE <= n < hi * ONE -> lo <= n / ONE < hi.
Proof.
  intros [H1 H2]. pose proof ONE_pos. split.
  - apply Z.div_le_lower_bound; lia.
  - apply Z.div_lt_upper_bound; lia.
Qed.

End Normalize.

Section Bands.

Local Opaque ONE TOP.

Lemma check_hundred : (rnd (before (1000 * ONE)) 100 <? 10 * ONE) = true.
Proof. vm_compute. reflexivity. Qed.

Lemma rem_ten_whole (m : Z) :
  0 <= m -> 0 <= Z.rem m (10 * ONE) / ONE <= 9.
Proof.
  intros Hm. pose proof ONE_pos.
  rewrite Z.rem_mod_nonneg by lia.
  pose proof (Z.mod_pos_bound m (10 * ONE) ltac:(lia)) as Hb.
  pose proof (whole_part (m mod (10 * ONE)) 0 10 ltac:(lia)). lia.
Qed.

Lemma rem_whole_ten (k : Z) :
  0 <= k ->
  (Fin (k * ONE) %% of_Z 10)%num = Fin (k mod 10 * ONE).
Proof.
  intros Hk. pose proof pow53_big. pose proof ONE_pos.
  rewrite (of_Z_exact 10) by (cbn [Z.abs]; lia).
  rewrite rem_Fin by lia. rewrite Z.mul_rem_distr_r by lia.
  rewrite Z.rem_mod_nonneg by lia. reflexivity.
Qed.

Lemma fourBandOf_null (fuel : nat) (n m p : Z) :
  0 < n < TOP ->
  norm fuel (100 * ONE) (10 * ONE) n = Some (m, p) ->
  p < 0 \/ 9 < p -> Z.abs p <= 2 ^ 53 ->
  fourBandOf fuel (Fin n) = Some None.
Proof.
  intros Hn E Hp Hb. unfold fourBandOf.
  rewrite normalize_norm, E by lia. cbn [lift]. cbv zeta.
  rewrite (out_of_digit_of_Z p Hb).
  destruct (Z.leb_spec 0 p), (Z.leb_spec p 9); try lia;
    cbn [andb negb]; rewrite orb_true_r; reflexivity.
Qed.

Lemma fiveBandOf_null (fuel : nat) (n m p : Z) :
  0 < n < TOP ->
  norm fuel (1000 * ONE) (100 * ONE) n = Some (m, p) ->
  p < 0 \/ 9 < p -> Z.abs p <= 2 ^ 53 ->
  fiveBandOf fuel (Fin n) = Some None.
Proof.
  intros Hn E Hp Hb. unfold fiveBandOf.
  rewrite normalize_norm, E by lia. cbn [lift]. cbv zeta.
  rewrite (out_of_digit_of_Z p Hb).
  destruct (Z.leb_spec 0 p), (Z.leb_spec p 9); try lia;
    cbn [andb negb]; rewrite orb_true_r; reflexivity.
Qed.

Lemma fourBandOf_bands (fuel : nat) (n m p : Z) :
  0 < n < TOP ->
  norm fuel (100 * ONE) (10 * ONE) n = Some (m, p) ->
  on_grid m -> 10 * ONE <= m < 100 * ONE -> 0 <= p <= 9 ->
  exists i1 i2,
    0 <= i1 <= 9 /\ 0 <= i2 <= 9 /\
    fourBandOf fuel (Fin n) =
    Some (Some [nth_error digitColor (Z.to_nat i1); nth_error digitColor (Z.to_nat i2);
                nth_error multiplierColor (Z.to_nat p); Some gold]).
Proof.
  intros Hn E Hg Hm Hp. pose proof pow53_big. pose proof ONE_pos.
  destruct (decade_step 1 m ltac:(lia) Hg) as [Hd _].
  { change (10 ^ 1) with 10. change (10 ^ (1 + 1)) with 100. lia. }
  change (10 ^ (1 - 1)) with 1 in Hd. change (10 ^ 1) with 10 in Hd.
  pose proof (whole_part (div10 m) 1 10 ltac:(lia)) as H1.
  pose proof (rem_ten_whole m ltac:(lia)) as H2.
  exists (div10 m / ONE), (Z.rem m (10 * ONE) / ONE).
  split; [lia|]. split; [lia|].
  unfold fourBandOf.
  rewrite normalize_norm, E by lia. cbn [lift]. cbv zeta.
  rewrite div_whole by lia. fold (div10 m).
  rewrite finish_fin by (pose proof (integer_below_TOP 10 ltac:(lia)); lia).
  rewrite (of_Z_exact 10) by (cbn [Z.abs]; lia).
  rewrite rem_Fin by lia. rewrite !floor_Fin.
  rewrite !out_of_digit_whole, out_of_digit_of_Z by lia.
  rewrite of_Z_exact by lia. rewrite !get_whole by lia.
  destruct (Z.leb_spec 0 (div10 m / ONE)), (Z.leb_spec (div10 m / ONE) 9),
    (Z.leb_spec 0 (Z.rem m (10 * ONE) / ONE)), (Z.leb_spec (Z.rem m (10 * ONE) / ONE) 9),
    (Z.leb_spec 0 p), (Z.leb_spec p 9); try lia.
  reflexivity.
Qed.

Lemma fiveBandOf_bands (fuel : nat) (n m p : Z) :
  0 < n < TOP ->
  norm fuel (1000 * ONE) (100 * ONE) n = Some (m, p) ->
  on_grid m -> 100 * ONE <= m < 1000 * ONE -> 0 <= p <= 9 ->
  exists i1 i2 i3,
    0 <= i1 <= 9 /\ 0 <= i2 <= 9 /\ 0 <= i3 <= 9 /\
    fiveBandOf fuel (Fin n) =
    Some (Some [nth_error digitColor (Z.to_nat i1); nth_error digitColor (Z.to_nat i2);
                nth_error digitColor (Z.to_nat i3);
                nth_error multiplierColor (Z.to_nat p); Some gold]).
Proof.
  intros Hn E Hg Hm Hp. pose proof pow53_big. pose proof ONE_pos.
  destruct (decade_step 2 m ltac:(lia) Hg) as [Hd _].
  { change (10 ^ 2) with 100. change (10 ^ (2 + 1)) with 1000. lia. }
  change (10 ^ (2 - 1)) with 10 in Hd. change (10 ^ 2) with 100 in Hd.
  assert (Hh : 1 * ONE <= rnd m 100 < 10 * ONE).
  { split.
    - apply rnd_lower; try lia. apply (grid_integer 1). lia.
    - apply Z.le_lt_trans with (rnd (before (1000 * ONE)) 100).
      + apply rnd_mono; [lia|]. split; [lia|].
        apply grid_lt_pred; try lia; try assumption. apply (grid_ten_pow 3). lia.
      + apply Z.ltb_lt, check_hundred. }
  pose proof (whole_part (rnd m 100) 1 10 Hh) as H1.
  pose proof (whole_part (div10 m) 10 100 Hd) as H2.
  pose proof (rem_ten_whole m ltac:(lia)) as H3.
  pose proof (Z.mod_pos_bound (rnd m 100 / ONE) 10 ltac:(lia)) as H1'.
  pose proof (Z.mod_pos_bound (div10 m / ONE) 10 ltac:(lia)) as H2'.
  exists ((rnd m 100 / ONE) mod 10), ((div10 m / ONE) mod 10), (Z.rem m (10 * ONE) / ONE).
  split; [lia|]. split; [lia|]. split; [lia|].
  unfold fiveBandOf.
  rewrite normalize_norm, E by lia. cbn [lift]. cbv zeta.
  rewrite !div_whole by lia. fold (div10 m).
  rewrite !finish_fin by (pose proof (integer_below_TOP 100 ltac:(lia)); lia).
  rewrite !floor_Fin. rewrite !rem_whole_ten by lia.
  rewrite (of_Z_exact 10) by (cbn [Z.abs]; lia).
  rewrite rem_Fin by lia. rewrite !floor_Fin.
  cbn [existsb].
  rewrite !out_of_digit_whole, out_of_digit_of_Z by lia.
  rewrite of_Z_exact by lia. rewrite !get_whole by lia.
  destruct (Z.leb_spec 0 ((rnd m 100 / ONE) mod 10)), (Z.leb_spec ((rnd m 100 / ONE) mod 10) 9),
    (Z.leb_spec 0 ((div10 m / ONE) mod 10)), (Z.leb_spec ((div10 m / ONE) mod 10) 9),
    (Z.leb_spec 0 (Z.rem m (10 * ONE) / ONE)), (Z.leb_spec (Z.rem m (10 * ONE) / ONE) 9),
    (Z.leb_spec 0 p), (Z.leb_spec p 9); try lia.
  reflexivity.
Qed.

End Bands.

Section Ranges.

Local Opaque ONE TOP.

Lemma find_decade (c : nat) (a n : Z) :
  0 <= a ->
  10 ^ a * ONE <= n < 10 ^ (a + Z.of_nat c + 1) * ONE ->
  exists d : nat,
    (d <= c)%nat /\ 10 ^ (a + Z.of_nat d) * ONE <= n < 10 ^ (a + Z.of_nat d + 1) * ONE.
Proof.
  intros Ha. induction c as [|c IH]; intros Hn.
  - exists O. split; [lia|]. rewrite Z.add_0_r in *. exact Hn.
  - destruct (Z_lt_le_dec n (10 ^ (a + Z.of_nat c + 1) * ONE)) as [Hlt|Hge].
    + destruct IH as (d & Hd & Hr); [lia|]. exists d. split; [lia|assumption].
    + exists (S c). split; [lia|].
      assert (E : a + Z.of_nat (S c) = a + Z.of_nat c + 1) by lia.
      rewrite E in *. lia.
Qed.

Lemma limit_log2 (k : Z) : 1 <= k <= 1000 -> Z.log2 (k * ONE) < 2098.
Proof.
  intros Hk. pose proof ONE_pos. pose proof pow53_big.
  apply log2_below_TOP. pose proof (integer_below_TOP k ltac:(lia)). nia.
Qed.

Lemma guard_positive (n : Z) :
  0 < n -> negb (isFinite (Fin n)) || (Fin n <=? of_Z 0)%num = false.
Proof.
  intros Hn. pose proof pow53_big.
  rewrite (of_Z_exact 0) by (cbn [Z.abs]; lia).
  cbn [isFinite negb orb]. unfold leb, ltb, eqb. rewrite Z.mul_0_l.
  destruct (Z.ltb_spec n 0), (Z.eqb_spec n 0); try lia; reflexivity.
Qed.

Variable fuel : nat.
Hypothesis Hfuel : (enough <= fuel)%nat.

Lemma fuel_big : 1100 <= Z.of_nat fuel.
Proof. unfold enough in Hfuel. lia. Qed.

(** Below the lower limit only the second loop runs, and the exponent
    ends negative. *)
Lemma norm_tiny (hi lo n : Z) :
  1 <= lo <= 1000 -> lo <= hi ->
  0 < n < lo * ONE ->
  exists m p, norm fuel (hi * ONE) (lo * ONE) n = Some (m, p) /\ - 2 ^ 53 <= p < 0.
Proof using Hfuel.
  intros Hlo Hhi Hn. pose proof ONE_pos. pose proof fuel_big. pose proof pow53_big.
  pose proof (limit_log2 lo Hlo). pose proof (Z.log2_nonneg n).
  unfold norm. rewrite down_eq.
  destruct (Z.leb_spec (hi * ONE) n); [nia|].
  destruct (up_total (lo * ONE) ltac:(lia) fuel n 0 ltac:(lia) ltac:(lia)) as [[m p] E].
  exists m, p. split; [assumption|].
  apply up_inv in E; [|lia|lia].
  assert (2101 < 2 ^ 53) by reflexivity. lia.
Qed.

(** Between the limits no loop runs. *)
Lemma norm_small (hi lo n : Z) :
  lo * ONE <= n < hi * ONE -> norm fuel (hi * ONE) (lo * ONE) n = Some (n, 0).
Proof using Hfuel.
  intros Hn. unfold norm. rewrite down_eq.
  destruct (Z.leb_spec (hi * ONE) n); [lia|]. rewrite up_eq.
  destruct (Z.ltb_spec n (lo * ONE)); [lia|]. reflexivity.
Qed.

(** From the upper limit [10^q] to 10^11 only the first loop runs, once
    per decade. *)
Lemma norm_decade (q n : Z) :
  2 <= q <= 3 -> on_grid n ->
  10 ^ q * ONE <= n < 10 ^ 11 * ONE ->
  exists m p,
    norm fuel (10 ^ q * ONE) (10 ^ (q - 1) * ONE) n = Some (m, p) /\
    on_grid m /\ 10 ^ (q - 1) * ONE <= m < 10 ^ q * ONE /\ 1 <= p <= 11 - q.
Proof using Hfuel.
  intros Hq Hg Hn. pose proof fuel_big.
  destruct (find_decade (Z.to_nat (10 - q)) q n ltac:(lia)) as (d & Hd & Hr).
  { replace (q + Z.of_nat (Z.to_nat (10 - q)) + 1) with 11 by lia. assumption. }
  destruct (down_decades q ltac:(lia) d fuel n 0 Hg Hr ltac:(lia) ltac:(lia))
    as (m & E & Hm & Hgm).
  exists m, (0 + Z.of_nat d + 1). unfold norm. rewrite E, up_eq.
  destruct (Z.ltb_spec m (10 ^ (q - 1) * ONE)); [lia|].
  repeat split; try assumption; lia.
Qed.

(** From 10^11 on the 4-band exponent has two digits. *)
Lemma norm_huge (n : Z) :
  10 ^ 11 * ONE <= n < TOP ->
  exists m p,
    norm fuel (100 * ONE) (10 * ONE) n = Some (m, p) /\ 10 <= p <= 2 ^ 53.
Proof using Hfuel.
  intros Hn. pose proof ONE_pos. pose proof fuel_big. pose proof pow53_big.
  assert (Hpos : 0 < n) by (pose proof (ten_pow_pos 11 ltac:(lia)); lia).
  pose proof (log2_below_TOP n ltac:(lia)).
  destruct (down_total (100 * ONE) ltac:(lia) fuel n 0 ltac:(lia) ltac:(lia)) as [[m p] E].
  pose proof (down_large 9 fuel n 0 m p ltac:(lia) (proj1 Hn) E) as Hp.
  pose proof (down_inv (100 * ONE) ltac:(lia) fuel n 0 m p Hpos E) as Hi.
  assert (Hten : 10 * ONE <= n).
  { apply Z.le_trans with (10 ^ 11 * ONE); [|lia].
    apply Z.mul_le_mono_nonneg_r; [lia|]. apply (Z.pow_le_mono_r 10 1 11); lia. }
  pose proof (down_lower (100 * ONE) (10 * ONE) ltac:(lia) (grid_integer 10 ltac:(lia))
                ltac:(lia) fuel n 0 m p Hten E) as Hm.
  exists m, p. unfold norm. rewrite E, up_eq.
  destruct (Z.ltb_spec m (10 * ONE)); [lia|].
  split; [reflexivity|]. change (Z.of_nat 9) with 9 in Hp. lia.
Qed.

(** Below 100 the result is [null]. *)
Lemma code_low (n : Z) :
  on_grid n -> 0 < n < 100 * ONE -> computeResistorColorCode fuel (Fin n) = Some None.
Proof using Hfuel.
  intros Hg Hn. pose proof ONE_pos. pose proof pow53_big.
  pose proof (integer_below_TOP 100 ltac:(lia)) as HT.
  unfold computeResistorColorCode. rewrite guard_positive by lia.
  destruct (Z_lt_le_dec n (10 * ONE)) as [Hlt|Hge].
  - destruct (norm_tiny 100 10 n ltac:(lia) ltac:(lia) ltac:(lia)) as (m & p & E & Hp).
    rewrite (fourBandOf_null fuel n m p); try assumption; try lia. reflexivity.
  - pose proof (norm_small 100 10 n ltac:(lia)) as E4.
    destruct (fourBandOf_bands fuel n n 0 ltac:(lia) E4 Hg ltac:(lia) ltac:(lia))
      as (i1 & i2 & _ & _ & ->).
    destruct (norm_tiny 1000 100 n ltac:(lia) ltac:(lia) ltac:(lia)) as (m & p & E & Hp).
    rewrite (fiveBandOf_null fuel n m p); try assumption; try lia. reflexivity.
Qed.

(** From 10^11 on the result is [null]. *)
Lemma code_high (n : Z) :
  10 ^ 11 * ONE <= n < TOP -> computeResistorColorCode fuel (Fin n) = Some None.
Proof using Hfuel.
  intros Hn. pose proof (ten_pow_pos 11 ltac:(lia)).
  unfold computeResistorColorCode. rewrite guard_positive by lia.
  destruct (norm_huge n Hn) as (m & p & E & Hp).
  rewrite (fourBandOf_null fuel n m p); try assumption; try lia. reflexivity.
Qed.

(** In between, both sequences exist, with every index a digit. *)
Lemma code_mid (n : Z) :
  on_grid n -> 100 * ONE <= n < 10 ^ 11 * ONE ->
  exists i1 i2 p4 j1 j2 j3 p5,
    (0 <= i1 <= 9 /\ 0 <= i2 <= 9 /\ 0 <= p4 <= 9) /\
    (0 <= j1 <= 9 /\ 0 <= j2 <= 9 /\ 0 <= j3 <= 9 /\ 0 <= p5 <= 9) /\
    computeResistorColorCode fuel (Fin n) =
    Some (Some {|
      fourBand := [nth_error digitColor (Z.to_nat i1); nth_error digitColor (Z.to_nat i2);
                   nth_error multiplierColor (Z.to_nat p4); Some gold];
      fiveBand := [nth_error digitColor (Z.to_nat j1); nth_error digitColor (Z.to_nat j2);
                   nth_error digitColor (Z.to_nat j3);
                   nth_error multiplierColor (Z.to_nat p5); Some gold] |}).
Proof using Hfuel.
  intros Hg Hn. pose proof ONE_pos. pose proof pow53_big.
  assert (HT : 10 ^ 11 * ONE < TOP).
  { rewrite TOP_eq. apply Z.mul_lt_mono_pos_r; [assumption|]. reflexivity. }
  unfold computeResistorColorCode. rewrite guard_positive by lia.
  destruct (norm_decade 2 n ltac:(lia) Hg Hn) as (m4 & p4 & E4 & Hg4 & Hm4 & Hp4).
  change (10 ^ 2) with 100 in *. change (10 ^ (2 - 1)) with 10 in *.
  destruct (fourBandOf_bands fuel n m4 p4 ltac:(lia) E4 Hg4 Hm4 ltac:(lia))
    as (i1 & i2 & Hi1 & Hi2 & ->).
  assert (exists m5 p5, norm fuel (1000 * ONE) (100 * ONE) n = Some (m5, p5) /\
                        on_grid m5 /\ 100 * ONE <= m5 < 1000 * ONE /\ 0 <= p5 <= 9)
    as (m5 & p5 & E5 & Hg5 & Hm5 & Hp5).
  { destruct (Z_lt_le_dec n (1000 * ONE)) as [Hlt|Hge].
    - exists n, 0. split; [apply norm_small; lia|]. repeat split; try assumption; lia.
    - destruct (norm_decade 3 n ltac:(lia) Hg ltac:(change (10 ^ 3) with 1000; lia))
        as (m5 & p5 & E5 & Hg5 & Hm5 & Hp5).
      change (10 ^ 3) with 1000 in *. change (10 ^ (3 - 1)) with 100 in *.
      exists m5, p5. repeat split; try assumption; lia. }
  destruct (fiveBandOf_bands fuel n m5 p5 ltac:(lia) E5 Hg5 Hm5 Hp5)
    as (j1 & j2 & j3 & Hj1 & Hj2 & Hj3 & ->).
  exists i1, i2, p4, j1, j2, j3, p5. repeat split; lia.
Qed.

End Ranges.

Section Matching.

Context {A : Type}.

Lemma span_app (p : N -> bool) (s : jsstring) : fst (span p s) ++ snd (span p s) = s.
Proof.
  induction s as [|c s IH]; [reflexivity|]. simpl.
  destruct (p c); [|reflexivity].
  destruct (span p s) as [a b]. simpl in *. f_equal. exact IH.
Qed.

(** With a continuation that cannot fail, the greedy star takes the
    longest run and never backtracks. *)
Lemma star_total (p : N -> bool) (k : @continuation A) :
  (forall i c, k i c <> None) ->
  forall inp caps, star p inp caps k = k (snd (span p inp)) caps.
Proof.
  intros Hk. induction inp as [|c inp IH]; intros caps; [reflexivity|].
  simpl. destruct (p c) eqn:E; [|reflexivity].
  rewrite IH. destruct (span p inp) as [a b]. simpl.
  destruct (k b caps) eqn:Ek; [reflexivity|]. exfalso. exact (Hk _ _ Ek).
Qed.

Lemma mtch_Chr (c : N) (inp : jsstring) (caps : captures) (k : @continuation A) :
  mtch (Chr c) inp caps k =
  match inp with
  | x :: rest => if (c =? x)%N then k rest caps else None
  | [] => None
  end.
Proof. reflexivity. Qed.

(** A literal matches exactly when it is a prefix of the input. *)
Lemma mtch_Lit (s : jsstring) (c : N) (inp : jsstring) (caps : captures)
      (k : @continuation A) :
  mtch (Lit c s) inp caps k =
  if starts_with (c :: s) inp then k (skipn (length (c :: s)) inp) caps else None.
Proof.
  revert c inp. induction s as [|d s IH]; intros c inp.
  - simpl. destruct inp as [|x rest]; [reflexivity|].
    rewrite N.eqb_sym. destruct (x =? c)%N; reflexivity.
  - cbn [Lit mtch]. destruct inp as [|x rest]; [reflexivity|].
    change (Chr c) with (Cls (N.eqb c)). cbn [mtch].
    rewrite IH. cbn [starts_with length skipn].
    rewrite (N.eqb_sym c x). destruct (x =? c)%N; reflexivity.
Qed.

End Matching.

Section Tokens.

Lemma firstn_prefix (a r : jsstring) :
  firstn (length (a ++ r) - length r) (a ++ r) = a.
Proof.
  rewrite length_app. replace (length a + length r - length r)%nat with (length a) by lia.
  rewrite firstn_app, Nat.sub_diag, firstn_all. simpl. apply app_nil_r.
Qed.

Lemma starts_with_skipn (w s : jsstring) :
  starts_with w s = true -> s = w ++ skipn (length w) s.
Proof.
  revert s. induction w as [|a w IH]; intros s H; [reflexivity|].
  destruct s as [|b s]; [discriminate|]. simpl in H.
  apply andb_prop in H as [E H]. apply N.eqb_eq in E. subst b.
  simpl. f_equal. apply IH. assumption.
Qed.

Lemma take_fraction_app (s : jsstring) :
  fst (take_fraction s) ++ snd (take_fraction s) = s.
Proof.
  unfold take_fraction. destruct s as [|c r]; [reflexivity|].
  destruct (c =? 46)%N; [|reflexivity].
  pose proof (span_app is_digit r) as H.
  destruct (span is_digit r) as [[|y fp] r']; [reflexivity|].
  simpl in *. f_equal. exact H.
Qed.

Lemma suffixes_eq :
  suffixes =
  [([107%N], 3); ([75%N], 3); ([77%N], 6); ([109%N; 101%N; 103%N; 97%N], 6);
   ([71%N], 9); ([103%N], 9)].
Proof. reflexivity. Qed.

Lemma Opt_total {A : Type} (r : regex) (k : @continuation A) :
  total k -> total (fun i c => mtch (Opt r) i c k).
Proof.
  intros Hk i c. cbn [mtch]. destruct (mtch r i c k); [discriminate|apply Hk].
Qed.

(** [(?:\.\d+)?] takes a fraction part when there is one. *)
Lemma mtch_fraction {A : Type} (k : @continuation A) (s : jsstring) (caps : captures) :
  total k ->
  mtch (Opt (Seq (Chr 46) (Plus is_digit))) s caps k = k (snd (take_fraction s)) caps.
Proof.
  intros Hk. unfold Plus. cbn [mtch]. rewrite mtch_Chr. unfold take_fraction.
  destruct s as [|c r]; [reflexivity|].
  rewrite (N.eqb_sym 46 c). destruct (c =? 46)%N; [|reflexivity].
  destruct r as [|y r']; [reflexivity|]. cbn [span].
  destruct (is_digit y); [|reflexivity].
  rewrite star_total by assumption.
  destruct (span is_digit r') as [a b]. cbn [snd].
  destruct (k b caps) eqn:E; [reflexivity|]. exfalso. exact (Hk _ _ E).
Qed.

(** [(k|K|M|mega|G|g)?] takes the first suffix of the table that the
    input starts with. *)
Lemma mtch_suffix {A : Type} (k : @continuation A) (s : jsstring) (caps : captures) :
  total k ->
  mtch (Opt (Group 2
         (Alt (Lit 107 []) (Alt (Lit 75 []) (Alt (Lit 77 [])
         (Alt (Lit 109 [101; 103; 97]%N) (Alt (Lit 71 []) (Lit 103 [])))))))) s caps k =
  match take_suffix s with
  | Some (w, _) => k (skipn (length w) s) ((2%nat, w) :: caps)
  | None => k s caps
  end.
Proof.
  intros Hk. cbn [mtch]. rewrite !mtch_Lit.
  unfold take_suffix. rewrite suffixes_eq. cbn [find fst].
  assert (Hcap : forall w, starts_with w s = true ->
            firstn (length s - length (skipn (length w) s)) s = w).
  { intros w Hw. rewrite (starts_with_skipn w s Hw) at 1 3. apply firstn_prefix. }
  pose (try_word := fun w : jsstring => starts_with w s).
  assert (Hstep : forall w (rest : option A),
            try_word w = true ->
            match k (skipn (length w) s) ((2%nat, w) :: caps) with
            | Some a => Some a
            | None => rest
            end = k (skipn (length w) s) ((2%nat, w) :: caps)).
  { intros w rest _. destruct (k (skipn (length w) s) ((2%nat, w) :: caps)) eqn:Ek;
      [reflexivity|exfalso; exact (Hk _ _ Ek)]. }
  unfold try_word in Hstep.
  destruct (starts_with [107%N] s) eqn:E1; [rewrite (Hcap _ E1), !Hstep by assumption; reflexivity|].
  destruct (starts_with [75%N] s) eqn:E2; [rewrite (Hcap _ E2), !Hstep by assumption; reflexivity|].
  destruct (starts_with [77%N] s) eqn:E3; [rewrite (Hcap _ E3), !Hstep by assumption; reflexivity|].
  destruct (starts_with [109%N; 101%N; 103%N; 97%N] s) eqn:E4;
    [rewrite (Hcap _ E4), !Hstep by assumption; reflexivity|].
  destruct (starts_with [71%N] s) eqn:E5; [rewrite (Hcap _ E5), !Hstep by assumption; reflexivity|].
  destruct (starts_with [103%N] s) eqn:E6; [rewrite (Hcap _ E6), !Hstep by assumption; reflexivity|].
  reflexivity.
Qed.

Lemma Star_total {A : Type} (p : N -> bool) (k : @continuation A) :
  total k -> total (fun i c => mtch (Star p) i c k).
Proof. intros Hk i c. cbn [mtch]. rewrite star_total by assumption. apply Hk. Qed.

(** A match attempt of the pattern finds the token at that place. *)
Lemma exec_re (inp : jsstring) : exec re inp = option_map to_rmatch (scan inp).
Proof.
  unfold exec, re.
  set (k0 := fun (rest : jsstring) (caps : captures) =>
               Some {| matched := firstn (length inp - length rest) inp; groups := caps |}).
  assert (H0 : total k0) by (intros i c; discriminate).
  remember (Opt (Seq (Chr 46) (Plus is_digit))) as F eqn:EF.
  remember (Opt (Group 2 _)) as G eqn:EG.
  unfold Plus. cbn [mtch].
  assert (HG : total (fun i c => mtch G i c k0)) by (subst G; apply Opt_total, H0).
  assert (HS : forall cap, total (fun i c => star is_space i (cap :: c)
                                      (fun i' c' => mtch G i' c' k0))).
  { intros cap i c. rewrite star_total by assumption. apply HG. }
  unfold scan. destruct inp as [|x rest]; [reflexivity|]. cbn [span].
  destruct (is_digit x) eqn:Ex; [|reflexivity].
  rewrite star_total.
  2:{ subst F. apply Opt_total. intros i c. apply HS. }
  pose proof (span_app is_digit rest) as E1.
  destruct (span is_digit rest) as [ip r1]. cbn [fst snd] in *.
  subst F. rewrite mtch_fraction by (intros i c; apply HS).
  pose proof (take_fraction_app r1) as E2.
  destruct (take_fraction r1) as [fp r2]. cbn [fst snd] in *.
  rewrite star_total by assumption.
  pose proof (span_app is_space r2) as E3.
  destruct (span is_space r2) as [ws r3]. cbn [fst snd] in *.
  subst G. rewrite mtch_suffix by assumption.
  assert (Ecap : firstn (length (x :: rest) - length r2) (x :: rest) = (x :: ip) ++ fp).
  { rewrite <- E1, <- E2. rewrite app_comm_cons, app_assoc. apply firstn_prefix. }
  rewrite Ecap. unfold k0, to_rmatch, token_text. cbn [option_map numeral gap magnitude].
  destruct (take_suffix r3) as [[w e]|] eqn:Es.
  - assert (Hw : starts_with w r3 = true).
    { unfold take_suffix in Es. apply find_some in Es. exact (proj2 Es). }
    set (r4 := skipn (length w) r3).
    assert (E4 : x :: rest = ((x :: ip ++ fp) ++ ws ++ w) ++ r4).
    { rewrite <- E1, <- E2, <- E3. unfold r4. rewrite (starts_with_skipn w r3 Hw) at 1.
      cbn [app]. rewrite <- !app_assoc. reflexivity. }
    rewrite E4 at 1 2. rewrite firstn_prefix. reflexivity.
  - assert (E4 : x :: rest = ((x :: ip ++ fp) ++ ws ++ []) ++ r3).
    { rewrite <- E1, <- E2, <- E3. cbn [app]. rewrite <- !app_assoc. reflexivity. }
    rewrite E4 at 1 2. rewrite firstn_prefix. reflexivity.
Qed.

Lemma token_text_nonempty (inp : jsstring) (t : token) :
  scan inp = Some t -> token_text t <> [].
Proof.
  unfold scan. destruct (span is_digit inp) as [[|c ip] r1]; [discriminate|].
  destruct (take_fraction r1) as [fp r2]. destruct (span is_space r2) as [ws r3].
  intros E. injection E as <-. discriminate.
Qed.

(** The matches of the pattern are the tokens of the text. *)
Lemma matchAll_from_tokens (text : jsstring) :
  forall skip, matchAll_from re skip text = map to_rmatch (tokens_from skip text).
Proof.
  induction text as [|c text IH]; intros skip.
  - destruct skip; [|reflexivity]. cbn [matchAll_from tokens_from].
    rewrite exec_re. reflexivity.
  - destruct skip as [|skip]; cbn [matchAll_from tokens_from]; [|apply IH].
    rewrite exec_re. destruct (scan (c :: text)) as [t|]; cbn [option_map map].
    + f_equal. apply IH.
    + apply IH.
Qed.

Lemma matchAll_tokens (text : jsstring) : matchAll re text = map to_rmatch (tokens text).
Proof. apply matchAll_from_tokens. Qed.

End Tokens.

Section Values.

Local Opaque ONE TOP.

Lemma sameValueZero_eq (x y : number) : sameValueZero x y = true <-> x = y.
Proof.
  destruct x as [|s|a], y as [|t|b]; cbn; split; intros H;
    try reflexivity; try discriminate.
  - apply Bool.eqb_prop in H. congruence.
  - injection H as ->. apply Bool.eqb_reflx.
  - apply Z.eqb_eq in H. congruence.
  - injection H as ->. apply Z.eqb_refl.
Qed.

Lemma eqb_sameValueZero (x y : number) : x <> NaN -> eqb x y = sameValueZero y x.
Proof.
  intros Hx. destruct x as [|s|a], y as [|t|b]; cbn; try reflexivity; try contradiction.
  - destruct s, t; reflexivity.
  - apply Z.eqb_sym.
Qed.

Lemma has_app (l1 l2 : list number) (v : number) : has (l1 ++ l2) v = has l1 v || has l2 v.
Proof. apply existsb_app. Qed.

Lemma has_eq (l : list number) (v w : number) :
  sameValueZero v w = true -> has l v = has l w.
Proof. intros H. apply sameValueZero_eq in H. congruence. Qed.

Lemma filter_absorb {X : Type} (f g : X -> bool) (l : list X) :
  (forall y, f y = true -> g y = true) -> filter f (filter g l) = filter f l.
Proof.
  intros H. induction l as [|x l IH]; [reflexivity|]. cbn.
  destruct (g x) eqn:Eg; cbn.
  - rewrite IH. reflexivity.
  - destruct (f x) eqn:Ef; [|assumption]. apply H in Ef. congruence.
Qed.

Lemma filter_both {X : Type} (f g : X -> bool) (l : list X) :
  filter f (filter g l) = filter (fun y => f y && g y) l.
Proof.
  induction l as [|x l IH]; [reflexivity|]. cbn.
  destruct (g x); cbn; rewrite ?andb_true_r, ?andb_false_r; [|assumption].
  destruct (f x); rewrite IH; reflexivity.
Qed.

(** The loop with its [seen] set yields the distinct values. *)
Lemma push_distinct (vals : list number) :
  forall out seen,
    (forall v, has seen v = has out v) ->
    Forall (fun v => v <> NaN) vals ->
    fst (fold_left push vals (out, seen)) =
    out ++ filter (fun y => negb (has out y)) (distinct vals).
Proof.
  induction vals as [|v vals IH]; intros out seen Hs Hn.
  - cbn. rewrite app_nil_r. reflexivity.
  - inversion Hn as [|? ? Hv Hn']; subst.
    cbn [fold_left push distinct filter].
    rewrite (Hs v). destruct (has out v) eqn:Ev; cbn [negb].
    + rewrite IH by assumption. f_equal.
      symmetry. apply filter_absorb. intros y Hy.
      rewrite eqb_sameValueZero by assumption.
      destruct (sameValueZero y v) eqn:E; [|reflexivity].
      rewrite (has_eq out y v E), Ev in Hy. discriminate.
    + rewrite IH; [|intros w; cbn [has existsb]; rewrite has_app; cbn [has existsb];
                     fold (has seen w); rewrite Hs, orb_false_r; apply orb_comm|assumption].
      rewrite <- app_assoc. cbn [app]. f_equal. f_equal.
      rewrite filter_both. apply filter_ext. intros y.
      rewrite has_app. cbn [has existsb]. rewrite orb_false_r.
      rewrite eqb_sameValueZero by assumption.
      fold (has out y). rewrite negb_orb. reflexivity.
Qed.

Lemma distinct_incl (xs : list number) (v : number) : In v (distinct xs) -> In v xs.
Proof.
  induction xs as [|x xs IH]; [tauto|]. cbn. intros [H|H]; [tauto|].
  apply filter_In in H. right. apply IH. tauto.
Qed.

(** *** Values of tokens *)

Lemma finish_nonneg (r : Z) : 0 <= r -> nonneg (finish r).
Proof. intros H. unfold finish. destruct (TOP <=? r); cbn; [reflexivity|assumption]. Qed.

Lemma round_ratio_nonneg (a b : Z) : 0 <= a -> 0 < b -> nonneg (round_ratio a b).
Proof.
  intros Ha Hb. rewrite round_ratio_pos by assumption.
  apply finish_nonneg, rnd_nonneg; assumption.
Qed.

Lemma digits_value_nonneg (ds : jsstring) : 0 <= digits_value ds.
Proof.
  unfold digits_value.
  assert (H : forall acc, 0 <= acc ->
            0 <= fold_left (fun acc c => 10 * acc + Z.of_N (c - 48)) ds acc).
  { induction ds as [|c ds IH]; intros acc Hacc; cbn [fold_left]; [assumption|].
    apply IH. lia. }
  apply H. lia.
Qed.

Lemma of_decimal_nonneg (d e : Z) : 0 <= d -> nonneg (of_decimal d e).
Proof.
  intros Hd. unfold of_decimal. pose proof ONE_pos.
  destruct (Z.leb_spec 0 e).
  - apply round_ratio_nonneg; [|lia].
    pose proof (Z.pow_nonneg 10 e ltac:(lia)). nia.
  - apply round_ratio_nonneg; [nia|]. apply Z.pow_pos_nonneg; lia.
Qed.

Lemma parse_unsigned_nonneg (s : jsstring) :
  parse_unsigned s = NaN \/ nonneg (parse_unsigned s).
Proof.
  unfold parse_unsigned. destruct (starts_with (js "Infinity") s); [right; reflexivity|].
  destruct (span is_digit s) as [ip r1].
  destruct (match r1 with
            | [] => ([], r1)
            | c :: r => if (c =? 46)%N then span is_digit r else ([], r1)
            end) as [fp r2].
  destruct (ip ++ fp) as [|c ds]; [left; reflexivity|].
  right. apply of_decimal_nonneg, digits_value_nonneg.
Qed.

Lemma digit_not_space (c : N) : is_digit c = true -> is_space c = false.
Proof.
  unfold is_digit, is_space. intros H. apply andb_prop in H as [H1 H2].
  apply N.leb_le in H1. apply N.leb_le in H2.
  cbn [existsb].
  repeat match goal with
  | |- context [(c =? ?k)%N] => destruct (N.eqb_spec c k); [lia|]
  end.
  cbn [orb]. destruct (N.leb_spec 8192 c); [lia|reflexivity].
Qed.

(** The numeral of a token parses to a number that is not negative. *)
Lemma parseFloat_numeral (t : token) :
  wf_token t ->
  parseFloat (Some (numeral t)) = NaN \/ nonneg (parseFloat (Some (numeral t))).
Proof.
  intros [(c & s & E & Hc) _]. rewrite E. unfold parseFloat. cbn [span].
  rewrite (digit_not_space c Hc). cbn [snd].
  unfold is_digit in Hc. apply andb_prop in Hc as [H1 H2].
  apply N.leb_le in H1. apply N.leb_le in H2.
  destruct (N.eqb_spec c 45); [lia|]. destruct (N.eqb_spec c 43); [lia|].
  apply parse_unsigned_nonneg.
Qed.

Lemma magnitude_cases (t : token) :
  wf_token t ->
  exists e, 0 <= e <= 9 /\
    e = match magnitude t with Some (_, e) => e | None => 0 end.
Proof.
  intros [_ H]. destruct (magnitude t) as [[w e]|].
  - rewrite suffixes_eq in H. cbn [In] in H.
    exists e. split; [|reflexivity].
    repeat (destruct H as [H|H]; [injection H as _ <-; lia|]). contradiction.
  - exists 0. split; [lia|reflexivity].
Qed.

Lemma mul_nonneg (x y : number) :
  nonneg x -> nonneg y -> isFinite x = true -> isFinite y = true -> nonneg (x * y)%num.
Proof.
  destruct x as [|s|a], y as [|t|b]; cbn [isFinite]; try discriminate.
  intros Ha Hb _ _. cbn [nonneg] in *. unfold mul. pose proof ONE_pos.
  apply round_ratio_nonneg; nia.
Qed.

Lemma factor_whole (e : Z) : 0 <= e <= 9 -> of_Z (10 ^ e) = Fin (10 ^ e * ONE).
Proof.
  intros He. apply of_Z_exact.
  pose proof (Z.pow_pos_nonneg 10 e ltac:(lia) ltac:(lia)).
  rewrite Z.abs_eq by lia.
  apply Z.le_trans with (10 ^ 9); [apply Z.pow_le_mono_r; lia|].
  apply Z.leb_le. reflexivity.
Qed.

Lemma token_value_nonneg (t : token) :
  wf_token t -> token_finite t = true -> nonneg (token_value t).
Proof.
  intros Hw Hf. unfold token_value, token_finite in *.
  destruct (magnitude_cases t Hw) as (e & He & <-).
  rewrite factor_whole by assumption.
  destruct (parseFloat_numeral t Hw) as [E|Hn]; [rewrite E in Hf; discriminate|].
  apply mul_nonneg; try assumption; try reflexivity.
  cbn. pose proof (ten_pow_pos e ltac:(lia)). lia.
Qed.

Lemma nonneg_not_NaN (x : number) : nonneg x -> x <> NaN.
Proof. destruct x; cbn; congruence. Qed.


End Values.

Section Extract.

Local Opaque ONE TOP.

Lemma scan_wf (inp : jsstring) (t : token) : scan inp = Some t -> wf_token t.
Proof.
  unfold scan. destruct inp as [|c inp]; [discriminate|]. cbn [span].
  destruct (is_digit c) eqn:Ec; [|discriminate].
  destruct (span is_digit inp) as [ip r1].
  destruct (take_fraction r1) as [fp r2]. destruct (span is_space r2) as [ws r3].
  intros E. injection E as <-. split; cbn [numeral magnitude].
  - exists c, (ip ++ fp). split; [reflexivity|assumption].
  - destruct (take_suffix r3) as [we|] eqn:Es; [|exact I].
    unfold take_suffix in Es. apply find_some in Es. tauto.
Qed.

Lemma tokens_from_wf (text : jsstring) :
  forall skip, Forall wf_token (tokens_from skip text).
Proof.
  induction text as [|c text IH]; intros skip.
  - destruct skip; constructor.
  - destruct skip as [|skip]; cbn [tokens_from]; [|apply IH].
    destruct (scan (c :: text)) as [t|] eqn:E; [|apply IH].
    constructor; [exact (scan_wf _ _ E)|apply IH].
Qed.

Lemma tokens_wf (text : jsstring) : Forall wf_token (tokens text).
Proof. apply tokens_from_wf. Qed.

Lemma group_one (t : token) : group 1 (to_rmatch t) = Some (numeral t).
Proof. unfold group, to_rmatch. destruct (magnitude t) as [[w e]|]; reflexivity. Qed.

(** The loop body on a token: the suffix chain of the source computes
    the power of ten of the table. *)
Lemma extract_step_token (st : list number * list number) (t : token) :
  wf_token t ->
  extract_step st (to_rmatch t) =
  if token_finite t then push st (token_value t) else st.
Proof.
  intros [_ Hm]. destruct st as [out seen].
  unfold extract_step, token_finite, token_value, push. rewrite group_one.
  destruct (isFinite (parseFloat (Some (numeral t)))); [|reflexivity].
  cbn [negb]. unfold group, to_rmatch.
  destruct (magnitude t) as [[w e]|]; [|reflexivity].
  rewrite suffixes_eq in Hm. cbn [In] in Hm.
  repeat (destruct Hm as [Hm|Hm]; [injection Hm as <- <-; reflexivity|]).
  contradiction.
Qed.

Lemma fold_tokens (toks : list token) :
  Forall wf_token toks ->
  forall st,
    fold_left extract_step (map to_rmatch toks) st =
    fold_left push (map token_value (filter token_finite toks)) st.
Proof.
  induction 1 as [|t toks Ht _ IH]; intros st; [reflexivity|].
  cbn [map fold_left filter]. rewrite extract_step_token by assumption.
  destruct (token_finite t); cbn [map fold_left]; apply IH.
Qed.

Lemma finite_values (toks : list token) :
  Forall wf_token toks ->
  Forall nonneg (map token_value (filter token_finite toks)).
Proof.
  induction 1 as [|t toks Ht _ IH]; [constructor|].
  cbn [filter]. destruct (token_finite t) eqn:E; [|assumption].
  constructor; [apply token_value_nonneg; assumption|assumption].
Qed.

(** [extractOhmValues] returns the distinct values of the tokens whose
    numeral parses to a finite number, in order of first appearance. *)
Lemma extractOhmValues_tokens (text : jsstring) :
  extractOhmValues text =
  distinct (map token_value (filter token_finite (tokens text))).
Proof.
  unfold extractOhmValues. rewrite matchAll_tokens.
  rewrite fold_tokens by apply tokens_wf.
  rewrite push_distinct.
  - cbn [app]. rewrite filter_ext with (g := fun _ => true) by reflexivity.
    clear. induction (distinct _) as [|x l IH]; [reflexivity|]. cbn. f_equal. exact IH.
  - reflexivity.
  - eapply Forall_impl; [|apply finite_values, tokens_wf].
    intros v. apply nonneg_not_NaN.
Qed.

End Extract.

Section Handler.

Local Opaque ONE TOP.

Lemma guard_rejects (fuel : nat) (x : number) :
  isFinite x = false \/ (x >? of_Z 0)%num = false ->
  computeResistorColorCode fuel x = Some None.
Proof.
  intros H. unfold computeResistorColorCode.
  assert (E : negb (isFinite x) || (x <=? of_Z 0)%num = true); [|rewrite E; reflexivity].
  pose proof pow53_big.
  rewrite (of_Z_exact 0) in * by (cbn [Z.abs]; lia). rewrite Z.mul_0_l in *.
  destruct x as [|s|n]; try reflexivity.
  destruct H as [H|H]; [discriminate|].
  cbn [isFinite negb orb]. unfold gtb, ltb in H. unfold leb, ltb, eqb.
  destruct (Z.ltb_spec 0 n), (Z.ltb_spec n 0), (Z.eqb_spec n 0);
    try reflexivity; try discriminate; lia.
Qed.

(** A non-null result determines the range of the input and the shape
    of both sequences. *)
Lemma code_shape (fuel : nat) (x : number) (m : mapping) :
  representable x -> computeResistorColorCode fuel x = Some (Some m) ->
  exists n i1 i2 p4 j1 j2 j3 p5,
    x = Fin n /\ 100 * ONE <= n < 10 ^ 11 * ONE /\
    (0 <= i1 <= 9 /\ 0 <= i2 <= 9 /\ 0 <= p4 <= 9) /\
    (0 <= j1 <= 9 /\ 0 <= j2 <= 9 /\ 0 <= j3 <= 9 /\ 0 <= p5 <= 9) /\
    m = {|
      fourBand := [nth_error digitColor (Z.to_nat i1); nth_error digitColor (Z.to_nat i2);
                   nth_error multiplierColor (Z.to_nat p4); Some gold];
      fiveBand := [nth_error digitColor (Z.to_nat j1); nth_error digitColor (Z.to_nat j2);
                   nth_error digitColor (Z.to_nat j3);
                   nth_error multiplierColor (Z.to_nat p5); Some gold] |}.
Proof.
  intros Hr E.
  assert (Hmax : (enough <= Nat.max fuel enough)%nat) by lia.
  apply (computeResistorColorCode_fuel fuel (Nat.max fuel enough)) in E; [|lia].
  destruct x as [|s|n].
  - rewrite guard_rejects in E by (left; reflexivity). discriminate.
  - rewrite guard_rejects in E by (left; reflexivity). discriminate.
  - destruct (Z_lt_le_dec 0 n) as [Hpos|Hneg].
    2:{ rewrite guard_rejects in E; [discriminate|]. right.
        pose proof pow53_big.
        rewrite (of_Z_exact 0) by (cbn [Z.abs]; lia). rewrite Z.mul_0_l.
        unfold gtb, ltb. destruct (Z.ltb_spec 0 n); [lia|reflexivity]. }
    cbn [representable] in Hr. rewrite Z.abs_eq in Hr by lia. destruct Hr as [Hg HT].
    destruct (Z_lt_le_dec n (100 * ONE)) as [Hlow|H100].
    { rewrite (code_low _ Hmax n Hg) in E by lia. discriminate. }
    destruct (Z_lt_le_dec n (10 ^ 11 * ONE)) as [Hmid|Hhigh].
    2:{ rewrite (code_high _ Hmax n) in E by lia. discriminate. }
    destruct (code_mid _ Hmax n Hg ltac:(lia))
      as (i1 & i2 & p4 & j1 & j2 & j3 & p5 & H4 & H5 & E').
    rewrite E' in E. injection E as <-.
    exists n, i1, i2, p4, j1, j2, j3, p5. repeat split; lia.
Qed.

Lemma table_entry (i : Z) :
  0 <= i <= 9 -> exists c, nth_error digitColor (Z.to_nat i) = Some c /\ In c digitColor.
Proof.
  intros Hi.
  destruct (nth_error digitColor (Z.to_nat i)) as [c|] eqn:E.
  - exists c. split; [reflexivity|]. eapply nth_error_In; eassumption.
  - apply nth_error_None in E. change (length digitColor) with 10%nat in E. lia.
Qed.

Lemma round_Fin (n : Z) : round (Fin n) = Fin ((2 * n + ONE) / (2 * ONE) * ONE).
Proof.
  unfold round. rewrite Z.shiftl_mul_pow2, Z.shiftr_div_pow2 by lia.
  rewrite <- ONE_eq. replace (2 ^ 1075) with (2 * ONE); [reflexivity|].
  rewrite ONE_eq. change 1075 with (1 + 1074). rewrite Z.pow_add_r by lia. reflexivity.
Qed.

Lemma toString_whole (r : Z) :
  Z.abs r < 10 ^ 21 -> toString (Fin (r * ONE)) = Some (decimal r).
Proof.
  intros Hr. pose proof ONE_pos. unfold toString.
  rewrite is_integer_whole. cbn [andb].
  rewrite Z.abs_mul, (Z.abs_eq ONE) by lia.
  destruct (Z.ltb_spec (Z.abs r * ONE) (10 ^ 21 * ONE)); [|nia].
  rewrite Z.shiftr_div_pow2, <- ONE_eq, Z.div_mul by lia. reflexivity.
Qed.

Lemma round_range (n : Z) :
  100 * ONE <= n < 10 ^ 11 * ONE ->
  100 <= (2 * n + ONE) / (2 * ONE) <= 10 ^ 11.
Proof.
  intros Hn. pose proof ONE_pos. split.
  - apply Z.div_le_lower_bound; lia.
  - assert ((2 * n + ONE) / (2 * ONE) < 10 ^ 11 + 1); [|lia].
    apply Z.div_lt_upper_bound; lia.
Qed.

Lemma colorParts_total (fuel : nat) (qVals : list number) :
  (enough <= fuel)%nat -> Forall representable qVals ->
  exists parts, colorParts fuel qVals = Some parts.
Proof.
  intros Hf. induction 1 as [|val qVals Hr _ IH]; cbn [colorParts]; [eauto|].
  destruct IH as [parts IH]. rewrite IH.
  destruct (computeResistorColorCode fuel val) as [[m|]|] eqn:E.
  - destruct (code_shape fuel val m Hr E) as (n & _ & _ & _ & _ & _ & _ & _ & -> & Hn & _).
    unfold format_part. rewrite round_Fin, toString_whole; [eauto|].
    pose proof (round_range n Hn). rewrite Z.abs_eq by lia.
    assert (10 ^ 11 < 10 ^ 21) by reflexivity. lia.
  - eauto.
  - exfalso. destruct val as [|s|n];
      try (rewrite guard_rejects in E by (left; reflexivity); discriminate).
    destruct (Z_lt_le_dec 0 n) as [Hpos|Hneg].
    2:{ rewrite guard_rejects in E; [discriminate|]. right.
        pose proof pow53_big.
        rewrite (of_Z_exact 0) by (cbn [Z.abs]; lia). rewrite Z.mul_0_l.
        unfold gtb, ltb. destruct (Z.ltb_spec 0 n); [lia|reflexivity]. }
    cbn [representable] in Hr. rewrite Z.abs_eq in Hr by lia. destruct Hr as [Hg HT].
    destruct (Z_lt_le_dec n (100 * ONE)) as [Hlow|H100].
    { rewrite (code_low _ Hf n Hg) in E by lia. discriminate. }
    destruct (Z_lt_le_dec n (10 ^ 11 * ONE)) as [Hmid|Hhigh].
    2:{ rewrite (code_high _ Hf n) in E by lia. discriminate. }
    destruct (code_mid _ Hf n Hg ltac:(lia))
      as (i1 & i2 & p4 & j1 & j2 & j3 & p5 & H4 & H5 & E').
    rewrite E' in E. discriminate.
Qed.

Lemma colorParts_In (fuel : nat) (qVals : list number) (parts : list jsstring) :
  colorParts fuel qVals = Some parts ->
  forall val m part,
    In val qVals -> computeResistorColorCode fuel val = Some (Some m) ->
    format_part val m = Some part -> In part parts.
Proof.
  revert parts. induction qVals as [|v qVals IH]; intros parts E val m part Hin Hc Hp;
    [contradiction|].
  cbn [colorParts] in E. destruct Hin as [->|Hin].
  - rewrite Hc, Hp in E. destruct (colorParts fuel qVals); [|discriminate].
    injection E as <-. left. reflexivity.
  - destruct (computeResistorColorCode fuel v) as [[m'|]|]; try discriminate.
    + destruct (format_part v m'); [|discriminate].
      destruct (colorParts fuel qVals) as [ps|]; [|discriminate].
      injection E as <-. right. eapply IH; eauto.
    + eapply IH; eauto.
Qed.

Lemma round_ratio_repr (a b : Z) : 0 < b -> representable (round_ratio a b).
Proof.
  intros Hb. destruct (Z_lt_le_dec a 0) as [Hn|Hp].
  - rewrite round_ratio_neg by assumption. unfold finish.
    destruct (Z.leb_spec TOP (rnd (- a) b)); cbn; [exact I|].
    rewrite Z.abs_opp, Z.abs_eq by (apply rnd_nonneg; lia).
    split; [apply rnd_grid; lia|assumption].
  - rewrite round_ratio_pos by assumption. unfold finish.
    destruct (Z.leb_spec TOP (rnd a b)); cbn; [exact I|].
    rewrite Z.abs_eq by (apply rnd_nonneg; lia).
    split; [apply rnd_grid; lia|assumption].
Qed.

Lemma mul_repr (x y : number) : representable x -> representable (x * y)%num.
Proof.
  intros Hx. destruct x as [|s|a], y as [|t|b]; cbn [mul]; try exact I.
  - destruct (b =? 0); exact I.
  - destruct (a =? 0); exact I.
  - apply round_ratio_repr, ONE_pos.
Qed.

Lemma of_decimal_repr (d e : Z) : representable (of_decimal d e).
Proof.
  unfold of_decimal. destruct (0 <=? e) eqn:E.
  - apply round_ratio_repr. lia.
  - apply round_ratio_repr. apply Z.leb_gt in E. apply Z.pow_pos_nonneg; lia.
Qed.

Lemma opp_repr (x : number) : representable x -> representable (opp x).
Proof. destruct x; cbn; try tauto. rewrite Z.abs_opp. tauto. Qed.

Lemma parse_unsigned_repr (s : jsstring) : representable (parse_unsigned s).
Proof.
  unfold parse_unsigned. destruct (starts_with (js "Infinity") s); [exact I|].
  destruct (span is_digit s) as [ip r1].
  destruct (match r1 with
            | [] => ([], r1)
            | c :: r => if (c =? 46)%N then span is_digit r else ([], r1)
            end) as [fp r2].
  destruct (ip ++ fp) as [|c ds]; [exact I|]. apply of_decimal_repr.
Qed.

Lemma parseFloat_repr (v : value) : representable (parseFloat v).
Proof.
  destruct v as [s|]; [|exact I]. unfold parseFloat.
  destruct (snd (span is_space s)) as [|c rest]; [exact I|].
  destruct (c =? 45)%N; [apply opp_repr, parse_unsigned_repr|].
  destruct (c =? 43)%N; apply parse_unsigned_repr.
Qed.

(** Every value returned by [extractOhmValues] is a double. *)
Lemma extractOhmValues_repr (text : jsstring) : Forall representable (extractOhmValues text).
Proof.
  rewrite extractOhmValues_tokens. apply Forall_forall. intros v Hv.
  apply distinct_incl in Hv. apply in_map_iff in Hv as (t & <- & _).
  unfold token_value. apply mul_repr, parseFloat_repr.
Qed.

End Handler.

Lemma returns_enough (ohms : number) (r : option mapping) :
  computeResistorColorCode enough ohms = Some r -> returns ohms r.
Proof. intros H fuel Hf. exact (computeResistorColorCode_fuel _ _ _ _ Hf H). Qed.

Lemma returns_unique (ohms : number) (r r' : option mapping) :
  returns ohms r -> returns ohms r' -> r = r'.
Proof.
  intros H H'. specialize (H enough (le_n _)). specialize (H' enough (le_n _)). congruence.
Qed.

Section PerRange.

Local Opaque ONE TOP.

Lemma positive_Fin (ohms : number) :
  representable ohms -> isFinite ohms = true -> (ohms >? of_Z 0)%num = true ->
  exists n, ohms = Fin n /\ on_grid n /\ 0 < n < TOP.
Proof.
  intros Hr Hf Hp. destruct ohms as [|s|n]; [discriminate Hf|discriminate Hf|].
  pose proof pow53_big.
  rewrite (of_Z_exact 0) in Hp by (cbn [Z.abs]; lia). rewrite Z.mul_0_l in Hp.
  unfold gtb, ltb in Hp. apply Z.ltb_lt in Hp.
  cbn [representable] in Hr. rewrite Z.abs_eq in Hr by lia.
  exists n. repeat split; tauto || lia.
Qed.


Variable fuel : nat.
Hypothesis Hfuel : (enough <= fuel)%nat.

Lemma norm_total (hi lo n : Z) :
  16 <= hi <= 1000 -> 1 <= lo <= 1000 -> 0 < n < TOP ->
  exists m p, norm fuel (hi * ONE) (lo * ONE) n = Some (m, p).
Proof using Hfuel.
  intros Hhi Hlo Hn. pose proof ONE_pos. pose proof (fuel_big fuel Hfuel).
  pose proof (log2_below_TOP n Hn).
  destruct (down_total (hi * ONE) ltac:(nia) fuel n 0 ltac:(lia) ltac:(lia)) as [[m p] E].
  pose proof (down_inv (hi * ONE) ltac:(nia) fuel n 0 m p ltac:(lia) E) as Hi.
  pose proof (limit_log2 lo Hlo). pose proof (Z.log2_nonneg m).
  destruct (up_total (lo * ONE) ltac:(nia) fuel m p ltac:(lia) ltac:(lia)) as [[m' p'] E'].
  exists m', p'. unfold norm. rewrite E. exact E'.
Qed.



Lemma four_high (n : Z) :
  10 ^ 11 * ONE <= n < TOP -> fourBandOf fuel (Fin n) = Some None.
Proof using Hfuel.
  intros Hn. pose proof (ten_pow_pos 11 ltac:(lia)).
  destruct (norm_huge fuel Hfuel n Hn) as (m & p & E & Hp).
  apply (fourBandOf_null fuel n m p); try assumption; lia.
Qed.


Lemma five_mid (n : Z) :
  on_grid n -> 100 * ONE <= n < 10 ^ 11 * ONE ->
  exists five, fiveBandOf fuel (Fin n) = Some (Some five).
Proof using Hfuel.
  intros Hg Hn.
  destruct (code_mid fuel Hfuel n Hg Hn) as (i1 & i2 & p4 & j1 & j2 & j3 & p5 & _ & _ & E).
  unfold computeResistorColorCode in E.
  destruct (negb (isFinite (Fin n)) || (Fin n <=? of_Z 0)%num); [discriminate|].
  destruct (fourBandOf fuel (Fin n)) as [[four|]|]; try discriminate.
  destruct (fiveBandOf fuel (Fin n)) as [[five|]|]; try discriminate. eauto.
Qed.

End PerRange.

Section Comparisons.

Local Opaque ONE TOP.

Lemma geb_whole (n k : Z) :
  Z.abs k <= 2 ^ 53 -> (Fin n >=? of_Z k)%num = (k * ONE <=? n).
Proof. intros H. rewrite of_Z_exact by assumption. apply geb_Fin. Qed.

Lemma ltb_whole (n k : Z) :
  Z.abs k <= 2 ^ 53 -> (Fin n <? of_Z k)%num = (n <? k * ONE).
Proof. intros H. rewrite of_Z_exact by assumption. reflexivity. Qed.


Lemma code_both (fuel : nat) (n : Z) (four five : list value) :
  0 < n ->
  fourBandOf fuel (Fin n) = Some (Some four) ->
  fiveBandOf fuel (Fin n) = Some (Some five) ->
  computeResistorColorCode fuel (Fin n) =
  Some (Some {| fourBand := four; fiveBand := five |}).
Proof.
  intros Hn E4 E5. unfold computeResistorColorCode.
  rewrite guard_positive, E4, E5 by assumption. reflexivity.
Qed.

Lemma range_cases (n : Z) :
  0 < n < TOP ->
  n < 10 * ONE \/ 10 * ONE <= n < 100 * ONE \/
  100 * ONE <= n < 10 ^ 11 * ONE \/ 10 ^ 11 * ONE <= n < TOP.
Proof. intros H. lia. Qed.


End Comparisons.

(** * The claims *)

Section Examples.

Lemma code_220 : computeResistorColorCode enough (of_Z 220) = Some (Some mapping_220).
Proof. vm_compute. reflexivity. Qed.

Lemma code_1 : computeResistorColorCode enough (of_Z 1) = Some None.
Proof. vm_compute. reflexivity. Qed.

Lemma code_1e10 :
  computeResistorColorCode enough (of_Z (10 ^ 10)) = Some (Some mapping_1e10).
Proof. vm_compute. reflexivity. Qed.

Lemma representable_whole (k : Z) : Z.abs k <= 2 ^ 53 -> representable (of_Z k).
Proof. intros H. unfold of_Z. apply round_ratio_repr. lia. Qed.

End Examples.

(** C1 (as amended).  For the input 220 the function returns a non-null
    result whose 4-band sequence is Red, Red, Brown, Gold and whose 5-band
    sequence is Red, Red, Black, Black, Gold: 220 is 220 x 10^0, and the
    multiplier band of exponent 0 is Black. *)
Theorem colorCode_220 :
  returns (of_Z 220)
    (Some {| fourBand := colors ["Red"; "Red"; "Brown"; "Gold (±5%)"]%string;
             fiveBand := colors ["Red"; "Red"; "Black"; "Black"; "Gold (±5%)"]%string |}).
Proof. apply returns_enough. exact code_220. Qed.

(** C1, as stated: no result for 220 has the 5-band sequence Red, Red,
    Black, Brown, Gold. *)
Lemma colorCode_220_counterexample :
  ~ (exists m,
       returns (of_Z 220) (Some m) /\
       fourBand m = colors ["Red"; "Red"; "Brown"; "Gold (±5%)"]%string /\
       fiveBand m = colors ["Red"; "Red"; "Black"; "Brown"; "Gold (±5%)"]%string).
Proof.
  intros (m & H & _ & H5).
  pose proof (returns_unique _ _ _ H (returns_enough _ _ code_220)) as E.
  injection E as ->. vm_compute in H5. discriminate.
Qed.

(** C2 (as amended).  For every ohms in 220, 330, 1000, 2200, 4700, 10000,
    100000, 1000000 the function returns a non-null result, and both
    sequences decode (digits reassembled, times ten to the multiplier)
    to the input, exactly.  For 1, 10 and 47 it returns null. *)
Theorem colorCode_table :
  Forall (fun z => exists m, returns (of_Z z) (Some m) /\
                     decode (fourBand m) = Some z /\ decode (fiveBand m) = Some z)
         [220; 330; 1000; 2200; 4700; 10000; 100000; 1000000] /\
  Forall (fun z => returns (of_Z z) None) [1; 10; 47].
Proof.
  split.
  - repeat constructor;
      (eexists; split; [apply returns_enough; vm_compute; reflexivity|];
       split; vm_compute; reflexivity).
  - repeat constructor; apply returns_enough; vm_compute; reflexivity.
Qed.

(** C2, as stated: 1 is in the list, and the result for 1 is null. *)
Lemma colorCode_table_counterexample :
  In 1 [1; 10; 47; 220; 330; 1000; 2200; 4700; 10000; 100000; 1000000] /\
  returns (of_Z 1) None /\ ~ (exists m, returns (of_Z 1) (Some m)).
Proof.
  split; [left; reflexivity|]. split; [exact (returns_enough _ _ code_1)|].
  intros [m H]. pose proof (returns_unique _ _ _ H (returns_enough _ _ code_1)).
  discriminate.
Qed.

Section Claims.

Local Opaque ONE TOP.


(** C4 (as amended).  The result is null for every finite, strictly
    positive double whose 4-band or 5-band exponent ends outside 0..9; in
    particular for 0.001 and for 10^11.  For 10^10 it is not null: the
    multipliers are 9 and 8. *)
Theorem colorCode_out_of_range :
  (forall ohms,
     representable ohms -> isFinite ohms = true -> (ohms >? of_Z 0)%num = true ->
     (exists m p, normalize enough (of_Z 100) (of_Z 10) ohms = Some (m, p) /\
                  out_of_digit p = true) \/
     (exists m p, normalize enough (of_Z 1000) (of_Z 100) ohms = Some (m, p) /\
                  out_of_digit p = true) ->
     returns ohms None) /\
  returns (parseFloat (Some (js "0.001"))) None /\
  returns (of_Z (10 ^ 11)) None /\
  returns (of_Z (10 ^ 10)) (Some mapping_1e10).
Proof.
  split; [|split; [|split]]; try (apply returns_enough; vm_compute; reflexivity).
  intros ohms Hr Hf Hp Hout. destruct (positive_Fin ohms Hr Hf Hp) as (n & -> & Hg & Hn).
  pose proof ONE_pos as H1. pose proof pow53_big as H53.
  apply returns_enough.
  destruct (range_cases n Hn) as [Hc|[Hc|[Hc|Hc]]].
  - apply code_low; [apply le_n|assumption|lia].
  - apply code_low; [apply le_n|assumption|lia].
  - exfalso. destruct Hout as [(m & p & E & Ho)|(m & p & E & Ho)].
    + destruct (norm_decade enough (le_n _) 2 n ltac:(lia) Hg
                  ltac:(change (10 ^ 2) with 100; lia)) as (m4 & p4 & E4 & _ & _ & Hp4).
      change (10 ^ 2) with 100 in E4. change (10 ^ (2 - 1)) with 10 in E4.
      rewrite normalize_norm, E4 in E by lia. cbn [lift] in E. injection E as <- <-.
      rewrite out_of_digit_of_Z in Ho by lia.
      destruct (Z.leb_spec 0 p4), (Z.leb_spec p4 9); try lia; discriminate.
    + assert (exists m5 p5, norm enough (1000 * ONE) (100 * ONE) n = Some (m5, p5) /\
                            0 <= p5 <= 9) as (m5 & p5 & E5 & Hp5).
      { destruct (Z_lt_le_dec n (1000 * ONE)) as [Hlt|Hge].
        - exists n, 0. split; [apply norm_small; [apply le_n|lia]|lia].
        - destruct (norm_decade enough (le_n _) 3 n ltac:(lia) Hg
                      ltac:(change (10 ^ 3) with 1000; lia)) as (m5 & p5 & E5 & _ & _ & Hp5).
          change (10 ^ 3) with 1000 in E5. change (10 ^ (3 - 1)) with 100 in E5.
          exists m5, p5. split; [assumption|lia]. }
      rewrite normalize_norm, E5 in E by lia. cbn [lift] in E. injection E as <- <-.
      rewrite out_of_digit_of_Z in Ho by lia.
      destruct (Z.leb_spec 0 p5), (Z.leb_spec p5 9); try lia; discriminate.
  - apply code_high; [apply le_n|assumption].
Qed.

(** C5.  For every input that is not finite or not strictly positive the
    function returns null, with any fuel; in particular for 0, -5 and
    NaN. *)
Theorem colorCode_invalid_input :
  (forall ohms fuel,
     isFinite ohms = false \/ (ohms >? of_Z 0)%num = false ->
     computeResistorColorCode fuel ohms = Some None) /\
  returns (of_Z 0) None /\ returns (of_Z (-5)) None /\ returns NaN None.
Proof.
  split; [|split; [|split]]; try (apply returns_enough; vm_compute; reflexivity).
  intros ohms fuel H. apply guard_rejects. assumption.
Qed.

(** C7.  Whenever the result is non-null, the 4-band sequence has 4
    entries and the 5-band sequence 5; every digit and multiplier index
    of the table lookups is at most 9, so that every entry but the last
    is one of the ten colour names, and the last entry of each sequence
    is the tolerance string. *)
Theorem colorCode_bands (fuel : nat) (ohms : number) (m : mapping) :
  representable ohms ->
  computeResistorColorCode fuel ohms = Some (Some m) ->
  length (fourBand m) = 4%nat /\ length (fiveBand m) = 5%nat /\
  (exists i1 i2 i3 : nat,
     (i1 <= 9 /\ i2 <= 9 /\ i3 <= 9)%nat /\
     fourBand m = [nth_error digitColor i1; nth_error digitColor i2;
                   nth_error multiplierColor i3; Some gold]) /\
  (exists j1 j2 j3 j4 : nat,
     (j1 <= 9 /\ j2 <= 9 /\ j3 <= 9 /\ j4 <= 9)%nat /\
     fiveBand m = [nth_error digitColor j1; nth_error digitColor j2;
                   nth_error digitColor j3; nth_error multiplierColor j4; Some gold]) /\
  Forall is_color (removelast (fourBand m)) /\
  Forall is_color (removelast (fiveBand m)) /\
  last (fourBand m) None = Some gold /\ last (fiveBand m) None = Some gold /\
  digitColor = map js ["Black"; "Brown"; "Red"; "Orange"; "Yellow";
                       "Green"; "Blue"; "Violet"; "Grey"; "White"]%string.
Proof.
  intros Hr E.
  destruct (code_shape fuel ohms m Hr E)
    as (n & i1 & i2 & p4 & j1 & j2 & j3 & p5 & _ & _ & H4 & H5 & ->).
  cbn [fourBand fiveBand length removelast last].
  assert (Hc : forall i, 0 <= i <= 9 -> is_color (nth_error digitColor (Z.to_nat i))).
  { intros i Hi. destruct (table_entry i Hi) as (c & Ec & Hin). exists c. tauto. }
  split; [reflexivity|]. split; [reflexivity|].
  split.
  { exists (Z.to_nat i1), (Z.to_nat i2), (Z.to_nat p4). split; [lia|reflexivity]. }
  split.
  { exists (Z.to_nat j1), (Z.to_nat j2), (Z.to_nat j3), (Z.to_nat p5).
    split; [lia|reflexivity]. }
  split; [repeat constructor; apply Hc; lia|].
  split; [repeat constructor; apply Hc; lia|].
  split; [reflexivity|]. split; reflexivity.
Qed.

(** C9.  A division by 10 strictly decreases a double that is at least
    100, a multiplication by 10 strictly increases a positive double
    below 100; both normalizations of a finite, strictly positive double
    return with the fuel [enough], and so does the function. *)
Theorem normalization_terminates :
  (forall m, representable m -> isFinite m = true ->
             (m >=? of_Z 100)%num = true -> (m / of_Z 10 <? m)%num = true) /\
  (forall m, isFinite m = true -> (m >? of_Z 0)%num = true ->
             (m <? of_Z 100)%num = true -> (m <? m * of_Z 10)%num = true) /\
  (forall ohms fuel,
     representable ohms -> isFinite ohms = true -> (ohms >? of_Z 0)%num = true ->
     (enough <= fuel)%nat ->
     exists r4 r5 r,
       normalize fuel (of_Z 100) (of_Z 10) ohms = Some r4 /\
       normalize fuel (of_Z 1000) (of_Z 100) ohms = Some r5 /\
       computeResistorColorCode fuel ohms = Some r).
Proof.
  pose proof ONE_pos as H1. pose proof pow53_big as H53.
  split; [|split].
  - intros m Hr Hf Hge. destruct m as [|s|n]; [discriminate Hf|discriminate Hf|].
    rewrite geb_whole in Hge by lia. apply Z.leb_le in Hge.
    cbn [representable] in Hr. rewrite Z.abs_eq in Hr by lia.
    pose proof (div10_lt n ltac:(lia)) as Hlt.
    rewrite div_whole by lia. fold (div10 n). rewrite finish_fin by lia.
    apply Z.ltb_lt. assumption.
  - intros m Hf Hp Hlt. destruct m as [|s|n]; [discriminate Hf|discriminate Hf|].
    rewrite ltb_whole in Hlt by lia. apply Z.ltb_lt in Hlt.
    rewrite (of_Z_exact 0) in Hp by (cbn [Z.abs]; lia). rewrite Z.mul_0_l in Hp.
    unfold gtb, ltb in Hp. apply Z.ltb_lt in Hp.
    pose proof (mul10_gt n Hp) as Hgt. pose proof (mul10_bound n Hp) as Hb.
    pose proof (small_below_TOP 100 ltac:(lia)) as HT.
    rewrite mul_whole by lia. fold (mul10 n). rewrite finish_fin by lia.
    apply Z.ltb_lt. assumption.
  - intros ohms fuel Hr Hf Hp Hfuel.
    destruct (positive_Fin ohms Hr Hf Hp) as (n & -> & Hg & Hn).
    destruct (norm_total fuel Hfuel 100 10 n ltac:(lia) ltac:(lia) Hn) as (m4 & p4 & E4).
    destruct (norm_total fuel Hfuel 1000 100 n ltac:(lia) ltac:(lia) Hn) as (m5 & p5 & E5).
    exists (Fin m4, of_Z p4), (Fin m5, of_Z p5).
    rewrite !normalize_norm, E4, E5 by lia. cbn [lift].
    destruct (range_cases n Hn) as [Hc|[Hc|[Hc|Hc]]].
    + exists None. split; [reflexivity|]. split; [reflexivity|].
      apply code_low; [assumption|assumption|lia].
    + exists None. split; [reflexivity|]. split; [reflexivity|].
      apply code_low; [assumption|assumption|lia].
    + destruct (code_mid fuel Hfuel n Hg Hc)
        as (i1 & i2 & q4 & j1 & j2 & j3 & q5 & _ & _ & E).
      eexists. split; [reflexivity|]. split; [reflexivity|]. exact E.
    + exists None. split; [reflexivity|]. split; [reflexivity|].
      apply code_high; assumption.
Qed.

End Claims.



(** C4, as stated: the result for 10^10 is not null. *)
Lemma colorCode_1e10_counterexample : ~ returns (of_Z (10 ^ 10)) None.
Proof.
  intros H. pose proof (returns_unique _ _ _ H (returns_enough _ _ code_1e10)).
  discriminate.
Qed.

(** [colorCode_out_of_range] at 0.001 ohm. *)
Lemma colorCode_out_of_range_witness :
  representable (of_decimal 1 (-3)) /\ isFinite (of_decimal 1 (-3)) = true /\
  (of_decimal 1 (-3) >? of_Z 0)%num = true /\
  returns (of_decimal 1 (-3)) None.
Proof.
  assert (H1 : representable (of_decimal 1 (-3))) by (vm_compute; split; reflexivity).
  assert (H2 : isFinite (of_decimal 1 (-3)) = true) by (vm_compute; reflexivity).
  assert (H3 : (of_decimal 1 (-3) >? of_Z 0)%num = true) by (vm_compute; reflexivity).
  split; [exact H1|]. split; [exact H2|]. split; [exact H3|].
  apply (proj1 colorCode_out_of_range (of_decimal 1 (-3)) H1 H2 H3).
  left. eexists. eexists. split; vm_compute; reflexivity.
Defined.

(** [colorCode_invalid_input] at -5 ohms, without fuel. *)
Lemma colorCode_invalid_input_witness :
  (of_Z (-5) >? of_Z 0)%num = false /\
  computeResistorColorCode 0 (of_Z (-5)) = Some None.
Proof.
  assert (H : (of_Z (-5) >? of_Z 0)%num = false) by (vm_compute; reflexivity).
  split; [exact H|].
  exact (proj1 colorCode_invalid_input (of_Z (-5)) O (or_intror H)).
Defined.

(** [colorCode_bands] at 220 ohms. *)
Lemma colorCode_bands_witness :
  representable (of_Z 220) /\
  computeResistorColorCode enough (of_Z 220) = Some (Some mapping_220) /\
  length (fourBand mapping_220) = 4%nat /\ length (fiveBand mapping_220) = 5%nat.
Proof.
  assert (H1 : representable (of_Z 220)) by (vm_compute; split; reflexivity).
  assert (H2 : computeResistorColorCode enough (of_Z 220) = Some (Some mapping_220))
    by (vm_compute; reflexivity).
  split; [exact H1|]. split; [exact H2|].
  pose proof (colorCode_bands enough (of_Z 220) mapping_220 H1 H2) as H.
  split; [exact (proj1 H)|exact (proj1 (proj2 H))].
Defined.

(** [normalization_terminates] at 220 ohms. *)
Lemma normalization_terminates_witness :
  representable (of_Z 220) /\ isFinite (of_Z 220) = true /\
  (of_Z 220 >? of_Z 0)%num = true /\ (enough <= enough)%nat /\
  exists r4 r5 r,
    normalize enough (of_Z 100) (of_Z 10) (of_Z 220) = Some r4 /\
    normalize enough (of_Z 1000) (of_Z 100) (of_Z 220) = Some r5 /\
    computeResistorColorCode enough (of_Z 220) = Some r.
Proof.
  assert (H1 : representable (of_Z 220)) by (vm_compute; split; reflexivity).
  assert (H2 : isFinite (of_Z 220) = true) by (vm_compute; reflexivity).
  assert (H3 : (of_Z 220 >? of_Z 0)%num = true) by (vm_compute; reflexivity).
  split; [exact H1|]. split; [exact H2|]. split; [exact H3|]. split; [apply le_n|].
  exact (proj2 (proj2 normalization_terminates) (of_Z 220) enough H1 H2 H3 (le_n _)).
Defined.

(** C6.  The matches of the pattern are the tokens of the text, and
    [extractOhmValues] returns the values of the tokens whose numeral
    parses to a finite number, each scaled by its suffix (k, K: 10^3; M,
    mega: 10^6; G, g: 10^9; none: 1), without the duplicates and in order
    of first appearance. *)
Theorem extractOhmValues_spec :
  (forall text,
     matchAll re text = map to_rmatch (tokens text) /\
     extractOhmValues text =
     distinct (map token_value (filter token_finite (tokens text)))) /\
  suffixes = [(js "k", 3); (js "K", 3); (js "M", 6); (js "mega", 6);
              (js "G", 9); (js "g", 9)] /\
  extractOhmValues (js "resistor of 4.7k and 220 ohm") = [of_Z 4700; of_Z 220] /\
  extractOhmValues (js "220 220 ohm") = [of_Z 220].
Proof.
  split; [|split; [|split]].
  - intros text. split; [apply matchAll_tokens|apply extractOhmValues_tokens].
  - reflexivity.
  - vm_compute. reflexivity.
  - vm_compute. reflexivity.
Qed.

Section Format.

Local Opaque ONE TOP.

(** C8 (as amended).  For a value on which the result is non-null the
    handler pushes a bullet of three lines: "- <rounded ohms> Ω:", then
    "  - 4‑band: " and the four colours joined by " - ", then
    "  - 5‑band: " and the five colours joined by " - ". *)
Theorem format_part_lines (fuel : nat) (val : number) (m : mapping) :
  representable val ->
  computeResistorColorCode fuel val = Some (Some m) ->
  exists r c1 c2 c3 d1 d2 d3 d4,
    round val = of_Z r /\
    fourBand m = [Some c1; Some c2; Some c3; Some gold] /\
    fiveBand m = [Some d1; Some d2; Some d3; Some d4; Some gold] /\
    format_part val m =
    Some (js "- " ++ decimal r ++ js " Ω:" ++ [LF]
          ++ js "  - 4‑band: "
          ++ c1 ++ js " - " ++ c2 ++ js " - " ++ c3 ++ js " - " ++ gold ++ [LF]
          ++ js "  - 5‑band: "
          ++ d1 ++ js " - " ++ d2 ++ js " - " ++ d3 ++ js " - " ++ d4 ++ js " - " ++ gold) /\
    (forall question,
       (enough <= fuel)%nat -> In val (extractOhmValues question) ->
       exists parts part,
         colorParts fuel (extractOhmValues question) = Some parts /\
         format_part val m = Some part /\ In part parts).
Proof.
  intros Hr E.
  destruct (code_shape fuel val m Hr E)
    as (n & i1 & i2 & p4 & j1 & j2 & j3 & p5 & -> & Hn & H4 & H5 & Em).
  destruct (table_entry i1 ltac:(lia)) as (c1 & E1 & _).
  destruct (table_entry i2 ltac:(lia)) as (c2 & E2 & _).
  destruct (table_entry p4 ltac:(lia)) as (c3 & E3 & _).
  destruct (table_entry j1 ltac:(lia)) as (d1 & F1 & _).
  destruct (table_entry j2 ltac:(lia)) as (d2 & F2 & _).
  destruct (table_entry j3 ltac:(lia)) as (d3 & F3 & _).
  destruct (table_entry p5 ltac:(lia)) as (d4 & F4 & _).
  change multiplierColor with digitColor in Em.
  rewrite E1, E2, E3, F1, F2, F3, F4 in Em.
  pose proof (round_range n Hn) as Hround.
  set (r := (2 * n + ONE) / (2 * ONE)) in *.
  assert (Hr21 : Z.abs r < 10 ^ 21).
  { rewrite Z.abs_eq by lia. assert (10 ^ 11 < 10 ^ 21) by reflexivity. lia. }
  assert (Hfmt : format_part (Fin n) m =
    Some (js "- " ++ decimal r ++ js " Ω:" ++ [LF]
          ++ js "  - 4‑band: "
          ++ c1 ++ js " - " ++ c2 ++ js " - " ++ c3 ++ js " - " ++ gold ++ [LF]
          ++ js "  - 5‑band: "
          ++ d1 ++ js " - " ++ d2 ++ js " - " ++ d3 ++ js " - " ++ d4 ++ js " - " ++ gold)).
  { unfold format_part. rewrite round_Fin. fold r. rewrite toString_whole by assumption.
    rewrite Em. cbn [fourBand fiveBand join]. rewrite <- !app_assoc. reflexivity. }
  exists r, c1, c2, c3, d1, d2, d3, d4.
  split.
  { rewrite round_Fin. fold r. symmetry. apply of_Z_exact.
    rewrite Z.abs_eq by lia. assert (10 ^ 11 <= 2 ^ 53) by (apply Z.leb_le; reflexivity). lia. }
  split; [rewrite Em; reflexivity|]. split; [rewrite Em; reflexivity|].
  split; [exact Hfmt|].
  intros question Hfuel Hin.
  destruct (colorParts_total fuel (extractOhmValues question) Hfuel
              (extractOhmValues_repr question)) as [parts Hparts].
  eexists parts, _. split; [exact Hparts|]. split; [exact Hfmt|].
  exact (colorParts_In fuel _ parts Hparts (Fin n) m _ Hin E Hfmt).
Qed.

End Format.

(** C8, as stated: the text pushed for 220 ohms holds line feeds, and it
    is not the one-line text of the specification. *)
Lemma format_part_counterexample :
  computeResistorColorCode enough (of_Z 220) = Some (Some mapping_220) /\
  exists text,
    format_part (of_Z 220) mapping_220 = Some text /\
    existsb (N.eqb LF) text = true /\
    spec_line (of_Z 220) mapping_220 <> Some text.
Proof.
  split; [exact code_220|]. eexists. split; [vm_compute; reflexivity|].
  split; [vm_compute; reflexivity|].
  intros H. vm_compute in H. discriminate.
Qed.

(** [format_part_lines] at 220 ohms. *)
Lemma format_part_lines_witness :
  representable (of_Z 220) /\
  computeResistorColorCode enough (of_Z 220) = Some (Some mapping_220) /\
  exists r c1 c2 c3 d1 d2 d3 d4,
    round (of_Z 220) = of_Z r /\
    fourBand mapping_220 = [Some c1; Some c2; Some c3; Some gold] /\
    fiveBand mapping_220 = [Some d1; Some d2; Some d3; Some d4; Some gold].
Proof.
  assert (H1 : representable (of_Z 220)) by (vm_compute; split; reflexivity).
  assert (H2 : computeResistorColorCode enough (of_Z 220) = Some (Some mapping_220))
    by (vm_compute; reflexivity).
  split; [exact H1|]. split; [exact H2|].
  destruct (format_part_lines enough (of_Z 220) mapping_220 H1 H2)
    as (r & c1 & c2 & c3 & d1 & d2 & d3 & d4 & Hr & H4 & H5 & _).
  exists r, c1, c2, c3, d1, d2, d3, d4. split; [exact Hr|]. split; [exact H4|exact H5].
Defined.

(** * Further properties of the route *)

(** ** The digits that the colour code shows *)

Section Fences.

Local Opaque ONE TOP.

(** A quotient strictly below the middle of the last gap before the
    double [V] is not rounded up to [V]. *)
Lemma rnd_below_half (a b V : Z) :
  0 < b -> 0 <= a -> 0 < V -> on_grid V ->
  2 * a < (2 * V - 2 ^ scale (V - 1)) * b -> rnd a b < V.
Proof.
  intros Hb Ha HV Hg Hlt.
  set (h := 2 ^ scale (V - 1)) in *.
  pose proof (scale_nonneg (V - 1)) as Hs'.
  pose proof (pow2_pos _ Hs') as Hh. fold h in Hh.
  assert (Hdiv : (h | V)).
  { apply Z.divide_trans with (2 ^ scale V).
    - apply pow2_divide. split; [assumption|]. apply scale_mono; lia.
    - apply Z.mod_divide; [pose proof (pow2_pos _ (scale_nonneg V)); lia|exact Hg]. }
  assert (Hh2 : h <= V).
  { destruct Hdiv as [k Ek]. assert (0 < k) by nia. nia. }
  assert (Hab : a / b <= V - 1).
  { assert (a / b < V); [|lia]. apply Z.div_lt_upper_bound; [lia|]. nia. }
  assert (Hab0 : 0 <= a / b) by (apply Z.div_pos; lia).
  unfold rnd. set (s := scale (a / b)).
  pose proof (scale_nonneg (a / b)) as Hs. fold s in Hs.
  pose proof (scale_mono _ _ Hab) as Hss. fold s in Hss.
  pose proof (pow2_pos s Hs) as Hp.
  assert (Hsh : (2 ^ s | h)) by (apply pow2_divide; lia).
  assert (Hle : 2 ^ s <= h) by (apply Z.pow_le_mono_r; lia).
  destruct (Z.divide_trans _ _ _ Hsh Hdiv) as [W EW].
  set (c := b * 2 ^ s). assert (Hc : 0 < c) by (unfold c; nia).
  pose proof (Z.div_mod a c ltac:(lia)) as Hdm.
  pose proof (Z.mod_pos_bound a c Hc) as Hmod.
  pose proof (rne_bounds a c) as [Hr1 Hr2].
  assert (Hm : a / c * 2 ^ s <= a / b).
  { unfold c. rewrite div_grid by lia.
    pose proof (Z.mul_div_le (a / b) (2 ^ s) Hp). lia. }
  assert (HmW : a / c < W) by nia.
  destruct (Z_lt_le_dec (a / c + 1) W) as [Hfar|Hnear]; [nia|].
  assert (EWm : W = a / c + 1) by lia.
  assert (Hhalf : 2 * (a mod c) < c).
  { assert ((2 * V - h) * b <= (2 * V - 2 ^ s) * b) by nia.
    assert ((2 * V - 2 ^ s) * b = (2 * (a / c) + 1) * c).
    { rewrite EW, EWm. unfold c. ring. }
    nia. }
  unfold rne, nearest.
  assert (E : (2 * (a mod c) ?= c) = Lt) by (apply Z.compare_lt_iff; assumption).
  rewrite E. nia.
Qed.

(** The spacing of the doubles grows by [2 ^ q] from [V] to [b * V]
    when [2 ^ q <= b]. *)
Lemma scale_times (b q V : Z) :
  0 <= q -> 2 ^ q <= b -> 2 ^ 53 <= V ->
  scale (V - 1) + q <= scale (b * V - 1).
Proof.
  intros Hq Hb HV. unfold scale.
  assert (H52 : 52 <= Z.log2 (V - 1)).
  { apply Z.log2_le_pow2; [|]; [|assert (2 ^ 52 < 2 ^ 53) by (apply Z.pow_lt_mono_r; lia)]; lia. }
  pose proof (pow2_pos q Hq) as Hp.
  assert (Hl : Z.log2 (V - 1) + q <= Z.log2 (b * V - 1)).
  { replace (Z.log2 (V - 1) + q) with (Z.log2 ((V - 1) * 2 ^ q))
      by (rewrite Z.log2_mul_pow2; lia).
    apply Z.log2_le_mono. assert (0 < 2 ^ 53) by (apply pow2_pos; lia). nia. }
  lia.
Qed.

(** Dividing a double below [b * V] by [b] stays below the double [V]:
    the rounding cannot reach [V]. *)
Lemma rnd_below (b q V n : Z) :
  0 <= q -> 2 ^ q <= b < 2 * 2 ^ q ->
  2 ^ 53 <= V -> on_grid V -> on_grid (b * V) ->
  on_grid n -> 0 <= n < b * V -> rnd n b < V.
Proof.
  intros Hq Hb HV Hg HgbV Hgn Hn.
  assert (0 < 2 ^ 53) by (apply pow2_pos; lia).
  pose proof (pow2_pos q Hq) as Hpq.
  apply rnd_below_half; try lia; try assumption.
  pose proof (grid_lt_pred n (b * V) ltac:(lia) Hgn HgbV ltac:(lia)) as Hpred.
  pose proof (scale_times b q V Hq ltac:(lia) HV) as Hsc.
  pose proof (scale_nonneg (V - 1)) as Hs.
  assert (Hpow : 2 ^ q * 2 ^ scale (V - 1) <= 2 ^ scale (b * V - 1)).
  { rewrite <- Z.pow_add_r by lia. apply Z.pow_le_mono_r; lia. }
  pose proof (pow2_pos _ Hs). nia.
Qed.

Lemma whole_big (k : Z) : 1 <= k -> 2 ^ 53 <= k * ONE.
Proof.
  intros Hk. rewrite ONE_eq.
  assert (2 ^ 53 <= 2 ^ 1074) by (apply Z.pow_le_mono_r; lia).
  assert (0 < 2 ^ 53) by (apply pow2_pos; lia). nia.
Qed.

(** One division by ten between two fences: a double of
    [[10 * lo, 10 * hi)] lands in [[lo, hi)]. *)
Lemma fence_step (lo hi n : Z) :
  0 <= lo <= 2 ^ 53 -> 1 <= hi -> 10 * hi <= 2 ^ 53 -> on_grid n ->
  10 * lo * ONE <= n < 10 * hi * ONE ->
  lo * ONE <= div10 n < hi * ONE /\ on_grid (div10 n).
Proof.
  intros Hlo Hhi Hhi' Hg Hn. pose proof ONE_pos.
  assert (0 <= n) by nia.
  split; [split|].
  - apply rnd_lower; first [lia|nia|apply grid_integer; lia].
  - apply (rnd_below 10 3); try assumption; try lia.
    + apply whole_big; lia.
    + apply grid_integer; lia.
    + replace (10 * (hi * ONE)) with (10 * hi * ONE) by ring. apply grid_integer; lia.
  - apply rnd_grid; lia.
Qed.

(** The first loop on a double whose leading digits are [D], [e] decades
    above the mantissa range: [e] divisions, and the leading digits stay. *)
Lemma down_fence (q D : Z) :
  1 <= q -> 10 ^ (q - 1) <= D < 10 ^ q ->
  forall (e fuel : nat) n k,
    on_grid n -> (D + 1) * 10 ^ Z.of_nat e <= 2 ^ 53 ->
    D * 10 ^ Z.of_nat e * ONE <= n < (D + 1) * 10 ^ Z.of_nat e * ONE ->
    (e <= fuel)%nat ->
    exists n',
      down fuel (10 ^ q * ONE) n k = Some (n', k + Z.of_nat e) /\
      D * ONE <= n' < (D + 1) * ONE /\ on_grid n'.
Proof.
  intros Hq HD. pose proof ONE_pos as H1.
  assert (HD0 : 1 <= D).
  { pose proof (Z.pow_pos_nonneg 10 (q - 1) ltac:(lia) ltac:(lia)). lia. }
  induction e as [|e IH]; intros fuel n k Hg Hb Hn Hf; rewrite down_eq.
  - change (Z.of_nat 0) with 0 in *. rewrite Z.pow_0_r, !Z.mul_1_r in Hn.
    destruct (Z.leb_spec (10 ^ q * ONE) n) as [Hge|_]; [nia|].
    exists n. split; [f_equal; f_equal; lia|]. split; assumption.
  - rewrite Nat2Z.inj_succ, Z.pow_succ_r in * by lia.
    pose proof (Z.pow_pos_nonneg 10 (Z.of_nat e) ltac:(lia) ltac:(lia)) as Hp.
    assert (Hq' : 10 ^ q = 10 * 10 ^ (q - 1)).
    { rewrite <- Z.pow_succ_r by lia. f_equal. lia. }
    destruct (Z.leb_spec (10 ^ q * ONE) n) as [_|Hlt]; [|nia].
    destruct fuel as [|fuel]; [lia|].
    destruct (fence_step (D * 10 ^ Z.of_nat e) ((D + 1) * 10 ^ Z.of_nat e) n)
      as [Hd Hg']; try assumption; try nia.
    destruct (IH fuel (div10 n) (k + 1) Hg' ltac:(nia) Hd ltac:(lia))
      as (n' & E & Hn' & Hgn').
    exists n'. rewrite E. split; [f_equal; f_equal; lia|]. split; assumption.
Qed.

(** Both loops: the second one does not run. *)
Lemma norm_fence (q D : Z) (e fuel : nat) (n : Z) :
  1 <= q -> 10 ^ (q - 1) <= D < 10 ^ q ->
  on_grid n -> (D + 1) * 10 ^ Z.of_nat e <= 2 ^ 53 ->
  D * 10 ^ Z.of_nat e * ONE <= n < (D + 1) * 10 ^ Z.of_nat e * ONE ->
  (e <= fuel)%nat ->
  exists m,
    norm fuel (10 ^ q * ONE) (10 ^ (q - 1) * ONE) n = Some (m, Z.of_nat e) /\
    D * ONE <= m < (D + 1) * ONE /\ on_grid m.
Proof.
  intros Hq HD Hg Hb Hn Hf. pose proof ONE_pos.
  destruct (down_fence q D Hq HD e fuel n 0 Hg Hb Hn Hf) as (m & E & Hm & Hgm).
  exists m. unfold norm. rewrite E, up_eq.
  destruct (Z.ltb_spec m (10 ^ (q - 1) * ONE)) as [Hlt|_]; [nia|].
  split; [reflexivity|]. split; assumption.
Qed.

(** The whole part of a tenth of a double with whole part [D]. *)
Lemma tenth_whole (D m : Z) :
  1 <= D <= 2 ^ 50 -> on_grid m -> D * ONE <= m < (D + 1) * ONE ->
  div10 m / ONE = D / 10.
Proof.
  intros HD Hg Hm. pose proof ONE_pos.
  assert (H50 : 2 ^ 50 * 16 = 2 ^ 54) by reflexivity.
  assert (H53 : 2 ^ 53 * 2 = 2 ^ 54) by reflexivity.
  pose proof (Z.div_mod D 10 ltac:(lia)) as Hdm.
  pose proof (Z.mod_pos_bound D 10 ltac:(lia)) as Hmod.
  assert (0 <= D / 10) by (apply Z.div_pos; lia).
  destruct (fence_step (D / 10) (D / 10 + 1) m) as [Hd _]; try assumption; try nia.
  pose proof (whole_part (div10 m) (D / 10) (D / 10 + 1) Hd). lia.
Qed.

(** The last digit of the whole part. *)
Lemma units_whole (D m : Z) :
  0 <= D -> D * ONE <= m < (D + 1) * ONE ->
  Z.rem m (10 * ONE) / ONE = D mod 10.
Proof.
  intros HD Hm. pose proof ONE_pos.
  assert (Hq : m / ONE = D).
  { pose proof (whole_part m D (D + 1) Hm). lia. }
  rewrite Z.rem_mod_nonneg by nia.
  rewrite (Z.mul_comm 10 ONE), Z.rem_mul_r by lia.
  rewrite Hq, (Z.mul_comm ONE), Z.div_add by lia.
  rewrite Z.div_small by (apply Z.mod_pos_bound; lia). reflexivity.
Qed.

(** The whole part of a hundredth. *)
Lemma hundredth_whole (D m : Z) :
  1 <= D <= 2 ^ 46 -> on_grid m -> D * ONE <= m < (D + 1) * ONE ->
  rnd m 100 / ONE = D / 100.
Proof.
  intros HD Hg Hm. pose proof ONE_pos.
  assert (H46 : 2 ^ 46 * 128 = 2 ^ 53) by reflexivity.
  pose proof (Z.div_mod D 100 ltac:(lia)) as Hdm.
  pose proof (Z.mod_pos_bound D 100 ltac:(lia)) as Hmod.
  assert (0 <= D / 100) by (apply Z.div_pos; lia).
  assert (Hd : D / 100 * ONE <= rnd m 100 < (D / 100 + 1) * ONE).
  { split.
    - apply rnd_lower; first [lia|nia|apply grid_integer; lia].
    - apply (rnd_below 100 6); try assumption; try lia.
      + apply whole_big; lia.
      + apply grid_integer; lia.
      + replace (100 * ((D / 100 + 1) * ONE)) with (100 * (D / 100 + 1) * ONE) by ring.
        apply grid_integer; lia.
      + nia. }
  pose proof (whole_part (rnd m 100) (D / 100) (D / 100 + 1) Hd). lia.
Qed.

Lemma fourBandOf_digits (fuel : nat) (n m p D : Z) :
  0 < n < TOP ->
  norm fuel (100 * ONE) (10 * ONE) n = Some (m, p) ->
  on_grid m -> 10 <= D <= 99 -> D * ONE <= m < (D + 1) * ONE -> 0 <= p <= 9 ->
  fourBandOf fuel (Fin n) = Some (Some (four_bands D p)).
Proof.
  intros Hn E Hg HD Hm Hp. pose proof pow53_big. pose proof ONE_pos.
  assert (H50 : 99 <= 2 ^ 50) by (apply Z.leb_le; reflexivity).
  pose proof (tenth_whole D m ltac:(lia) Hg Hm) as E1.
  pose proof (units_whole D m ltac:(lia) Hm) as E2.
  pose proof (Z.mod_pos_bound D 10 ltac:(lia)) as Hmod.
  pose proof (Z.div_mod D 10 ltac:(lia)) as Hdm.
  assert (Hdiv : 1 <= D / 10 <= 9) by lia.
  unfold fourBandOf, four_bands.
  rewrite normalize_norm, E by lia. cbn [lift]. cbv zeta.
  rewrite div_whole by lia. fold (div10 m).
  assert (Hd : div10 m < 100 * ONE).
  { apply Z.le_lt_trans with m; [|nia].
    destruct (Z.eq_dec m 0); [nia|]. pose proof (div10_lt m). nia. }
  rewrite finish_fin by (pose proof (integer_below_TOP 100 ltac:(lia)); lia).
  rewrite (of_Z_exact 10) by (cbn [Z.abs]; lia).
  rewrite rem_Fin by lia. rewrite !floor_Fin.
  rewrite !out_of_digit_whole, out_of_digit_of_Z by lia.
  rewrite of_Z_exact by lia. rewrite !get_whole by lia.
  rewrite E1, E2.
  destruct (Z.leb_spec 0 (D / 10)), (Z.leb_spec (D / 10) 9),
    (Z.leb_spec 0 (D mod 10)), (Z.leb_spec (D mod 10) 9),
    (Z.leb_spec 0 p), (Z.leb_spec p 9); try lia.
  reflexivity.
Qed.

Lemma fiveBandOf_digits (fuel : nat) (n m p D : Z) :
  0 < n < TOP ->
  norm fuel (1000 * ONE) (100 * ONE) n = Some (m, p) ->
  on_grid m -> 100 <= D <= 999 -> D * ONE <= m < (D + 1) * ONE -> 0 <= p <= 9 ->
  fiveBandOf fuel (Fin n) = Some (Some (five_bands D p)).
Proof.
  intros Hn E Hg HD Hm Hp. pose proof pow53_big. pose proof ONE_pos.
  assert (H50 : 999 <= 2 ^ 46) by (apply Z.leb_le; reflexivity).
  assert (H46 : 2 ^ 46 <= 2 ^ 50) by (apply Z.pow_le_mono_r; lia).
  pose proof (hundredth_whole D m ltac:(lia) Hg Hm) as E1.
  pose proof (tenth_whole D m ltac:(lia) Hg Hm) as E2.
  pose proof (units_whole D m ltac:(lia) Hm) as E3.
  pose proof (Z.mod_pos_bound D 10 ltac:(lia)) as Hmod.
  pose proof (Z.mod_pos_bound (D / 10) 10 ltac:(lia)) as Hmod2.
  pose proof (Z.div_mod D 100 ltac:(lia)) as Hdm.
  pose proof (Z.mod_pos_bound D 100 ltac:(lia)) as Hmod3.
  assert (Hdiv : 1 <= D / 100 <= 9) by lia.
  assert (Hd : m < 1000 * ONE) by nia.
  assert (Hd10 : div10 m < 1000 * ONE).
  { pose proof (div10_lt m). nia. }
  assert (Hd100 : rnd m 100 < 1000 * ONE).
  { assert (rnd m 100 <= 10 * ONE); [|nia].
    apply rnd_upper; first [lia|nia|apply (grid_integer 10); lia]. }
  unfold fiveBandOf, five_bands.
  rewrite normalize_norm, E by lia. cbn [lift]. cbv zeta.
  rewrite !div_whole by lia. fold (div10 m).
  rewrite !finish_fin by (pose proof (integer_below_TOP 1000 ltac:(lia)); lia).
  rewrite !floor_Fin. rewrite !rem_whole_ten by (apply Z.div_pos; [|lia];
    first [apply rnd_nonneg; lia|unfold div10; apply rnd_nonneg; lia]).
  rewrite (of_Z_exact 10) by (cbn [Z.abs]; lia).
  rewrite rem_Fin by lia. rewrite !floor_Fin.
  cbn [existsb].
  rewrite E1, E2, E3.
  rewrite (Z.mod_small (D / 100) 10) by lia.
  rewrite !out_of_digit_whole, out_of_digit_of_Z by lia.
  rewrite of_Z_exact by lia. rewrite !get_whole by lia.
  destruct (Z.leb_spec 0 (D / 100)), (Z.leb_spec (D / 100) 9),
    (Z.leb_spec 0 (D / 10 mod 10)), (Z.leb_spec (D / 10 mod 10) 9),
    (Z.leb_spec 0 (D mod 10)), (Z.leb_spec (D mod 10) 9),
    (Z.leb_spec 0 p), (Z.leb_spec p 9); try lia.
  reflexivity.
Qed.

Lemma ten_pow_le (e : Z) : 0 <= e <= 9 -> 1 <= 10 ^ e <= 10 ^ 9.
Proof.
  intros He. split.
  - pose proof (Z.pow_pos_nonneg 10 e ltac:(lia) ltac:(lia)). lia.
  - apply Z.pow_le_mono_r; lia.
Qed.

(** The result on a double between two consecutive three-digit fences. *)
Lemma code_digits (fuel : nat) (n D : Z) (e : nat) :
  (enough <= fuel)%nat -> on_grid n -> 100 <= D <= 999 -> (e <= 8)%nat ->
  D * 10 ^ Z.of_nat e * ONE <= n < (D + 1) * 10 ^ Z.of_nat e * ONE ->
  computeResistorColorCode fuel (Fin n) =
  Some (Some {| fourBand := four_bands (D / 10) (Z.of_nat e + 1);
                fiveBand := five_bands D (Z.of_nat e) |}).
Proof.
  intros Hf Hg HD He Hn. pose proof ONE_pos as H1. unfold enough in Hf.
  pose proof (ten_pow_le (Z.of_nat e) ltac:(lia)) as Hp.
  change (10 ^ 9) with 1000000000 in Hp.
  assert (H53 : 10 ^ 12 <= 2 ^ 53) by (apply Z.leb_le; reflexivity).
  change (10 ^ 12) with 1000000000000 in H53.
  pose proof (Z.div_mod D 10 ltac:(lia)) as Hdm.
  pose proof (Z.mod_pos_bound D 10 ltac:(lia)) as Hmod.
  assert (HDe : 100 <= D * 10 ^ Z.of_nat e /\ (D + 1) * 10 ^ Z.of_nat e <= 1000000000000) by nia.
  assert (Hn0 : 0 < n < TOP).
  { split; [nia|]. apply Z.lt_le_trans with (2 ^ 53 * ONE).
    { apply Z.lt_le_trans with ((D + 1) * 10 ^ Z.of_nat e * ONE); [lia|].
      apply Z.mul_le_mono_nonneg_r; lia. }
    pose proof (small_below_TOP (2 ^ 53) ltac:(lia)). lia. }
  assert (HD4 : 10 <= D / 10 <= 99) by lia.
  assert (HD4e : (D / 10 + 1) * 10 ^ Z.of_nat e <= 100 * 1000000000)
    by (apply Z.mul_le_mono_nonneg; lia).
  apply code_both; [lia| |].
  - assert (Hq : 10 ^ (2 - 1) <= D / 10 < 10 ^ 2).
    { change (10 ^ (2 - 1)) with 10. change (10 ^ 2) with 100. lia. }
    assert (Hb : (D / 10 + 1) * 10 ^ Z.of_nat (S e) <= 2 ^ 53).
    { rewrite Nat2Z.inj_succ, Z.pow_succ_r by lia. lia. }
    assert (Hr : D / 10 * 10 ^ Z.of_nat (S e) * ONE <= n
                 < (D / 10 + 1) * 10 ^ Z.of_nat (S e) * ONE).
    { rewrite Nat2Z.inj_succ, Z.pow_succ_r by lia.
      assert (D / 10 * (10 * 10 ^ Z.of_nat e) * ONE <= D * 10 ^ Z.of_nat e * ONE)
        by (apply Z.mul_le_mono_nonneg_r; nia).
      assert ((D + 1) * 10 ^ Z.of_nat e * ONE
              <= (D / 10 + 1) * (10 * 10 ^ Z.of_nat e) * ONE)
        by (apply Z.mul_le_mono_nonneg_r; nia).
      lia. }
    destruct (norm_fence 2 (D / 10) (S e) fuel n ltac:(lia) Hq Hg Hb Hr ltac:(lia))
      as (m & E & Hm & Hgm).
    change (10 ^ 2) with 100 in E. change (10 ^ (2 - 1)) with 10 in E.
    rewrite Nat2Z.inj_succ in E.
    apply (fourBandOf_digits fuel n m); try assumption; lia.
  - assert (Hq : 10 ^ (3 - 1) <= D < 10 ^ 3).
    { change (10 ^ (3 - 1)) with 100. change (10 ^ 3) with 1000. lia. }
    destruct (norm_fence 3 D e fuel n ltac:(lia) Hq Hg ltac:(lia) Hn ltac:(lia))
      as (m & E & Hm & Hgm).
    change (10 ^ 3) with 1000 in E. change (10 ^ (3 - 1)) with 100 in E.
    apply (fiveBandOf_digits fuel n m); try assumption; lia.
Qed.

End Fences.

Section Truncation.

Local Opaque ONE TOP.

(** X1. For every double between [D * 10^e] and [(D + 1) * 10^e], with
    three digits [D] and an exponent [e] from 0 to 8, the function
    returns the bands of the digits of [D] with the multiplier [e] as the
    5-band sequence, and the bands of the first two digits of [D] with the
    multiplier [e + 1] as the 4-band sequence: it truncates the value to
    three and to two significant digits, and the roundings of the
    divisions never change a digit. *)
Theorem colorCode_truncates (ohms : number) (D e : Z) :
  representable ohms -> 100 <= D <= 999 -> 0 <= e <= 8 ->
  (ohms >=? of_Z (D * 10 ^ e))%num = true ->
  (ohms <? of_Z ((D + 1) * 10 ^ e))%num = true ->
  returns ohms (Some {| fourBand := four_bands (D / 10) (e + 1);
                        fiveBand := five_bands D e |}).
Proof.
  intros Hr HD He Hge Hlt fuel Hf.
  pose proof (ten_pow_le e ltac:(lia)) as Hp.
  change (10 ^ 9) with 1000000000 in Hp.
  assert (H53 : 10 ^ 12 <= 2 ^ 53) by (apply Z.leb_le; reflexivity).
  change (10 ^ 12) with 1000000000000 in H53.
  rewrite of_Z_exact in Hge, Hlt by (rewrite Z.abs_eq; nia).
  destruct ohms as [|s|n];
    [discriminate Hge|destruct s; [discriminate Hge|discriminate Hlt]|].
  rewrite geb_Fin in Hge. cbn [ltb] in Hlt.
  apply Z.leb_le in Hge. apply Z.ltb_lt in Hlt.
  pose proof ONE_pos.
  assert (Hn : 0 <= n) by nia.
  destruct Hr as [Hg _]. rewrite Z.abs_eq in Hg by assumption.
  rewrite <- (Z2Nat.id e) in Hge, Hlt |- * by lia.
  apply code_digits; try assumption; try lia.
Qed.

(** A double of the range of the table lies between two consecutive
    three-digit fences. *)
Lemma cell_exists (n : Z) :
  100 * ONE <= n < 10 ^ 11 * ONE ->
  exists (D : Z) (e : nat),
    100 <= D <= 999 /\ (e <= 8)%nat /\
    D * 10 ^ Z.of_nat e * ONE <= n < (D + 1) * 10 ^ Z.of_nat e * ONE.
Proof.
  intros Hn. pose proof ONE_pos as H1.
  destruct (find_decade 8 2 n ltac:(lia)) as (d & Hd & Hlo & Hhi).
  { change (10 ^ 2) with 100. change (2 + Z.of_nat 8 + 1) with 11. assumption. }
  set (P := 10 ^ Z.of_nat d * ONE).
  assert (HP : 0 < P) by (apply ten_pow_pos; lia).
  assert (E2 : 10 ^ (2 + Z.of_nat d) * ONE = 100 * P).
  { unfold P. rewrite Z.pow_add_r by lia. change (10 ^ 2) with 100. ring. }
  assert (E3 : 10 ^ (2 + Z.of_nat d + 1) * ONE = 1000 * P).
  { unfold P. rewrite !Z.pow_add_r by lia. change (10 ^ 2) with 100.
    change (10 ^ 1) with 10. ring. }
  rewrite E2 in Hlo. rewrite E3 in Hhi.
  pose proof (Z.div_mod n P ltac:(lia)) as Hdm.
  pose proof (Z.mod_pos_bound n P HP) as Hmod.
  exists (n / P), d.
  assert (100 <= n / P) by (apply Z.div_le_lower_bound; lia).
  assert (n / P < 1000) by (apply Z.div_lt_upper_bound; lia).
  split; [lia|]. split; [assumption|].
  replace (n / P * 10 ^ Z.of_nat d * ONE) with (P * (n / P)) by (unfold P; ring).
  replace ((n / P + 1) * 10 ^ Z.of_nat d * ONE) with (P * (n / P) + P) by (unfold P; ring).
  lia.
Qed.

(** X2. Every result that is not null comes from such a pair of fences:
    the value lies between [D * 10^e] and [(D + 1) * 10^e] for three
    digits [D] and an exponent [e] from 0 to 8, the 5-band sequence shows
    the digits of [D] and the multiplier [e], and the 4-band sequence shows
    the first two of these digits and the multiplier [e + 1]. *)
Theorem colorCode_cell (fuel : nat) (ohms : number) (m : mapping) :
  representable ohms ->
  computeResistorColorCode fuel ohms = Some (Some m) ->
  exists D e,
    100 <= D <= 999 /\ 0 <= e <= 8 /\
    (ohms >=? of_Z (D * 10 ^ e))%num = true /\
    (ohms <? of_Z ((D + 1) * 10 ^ e))%num = true /\
    fourBand m = four_bands (D / 10) (e + 1) /\
    fiveBand m = five_bands D e.
Proof.
  intros Hr E.
  destruct (code_shape fuel ohms m Hr E) as (n & _ & _ & _ & _ & _ & _ & _ & -> & Hn & _).
  destruct (cell_exists n Hn) as (D & e & HD & He & Hc).
  pose proof ONE_pos.
  destruct Hr as [Hg _]. rewrite Z.abs_eq in Hg by nia.
  pose proof (computeResistorColorCode_fuel fuel (Nat.max fuel enough) _ _
                (Nat.le_max_l _ _) E) as E'.
  rewrite (code_digits _ n D e (Nat.le_max_r _ _) Hg HD He Hc) in E'.
  injection E' as <-.
  pose proof (ten_pow_le (Z.of_nat e) ltac:(lia)) as Hp.
  change (10 ^ 9) with 1000000000 in Hp.
  assert (H53 : 10 ^ 12 <= 2 ^ 53) by (apply Z.leb_le; reflexivity).
  change (10 ^ 12) with 1000000000000 in H53.
  exists D, (Z.of_nat e).
  split; [assumption|]. split; [lia|].
  rewrite geb_whole, ltb_whole by (rewrite Z.abs_eq; nia).
  split; [apply Z.leb_le; lia|]. split; [apply Z.ltb_lt; lia|].
  split; reflexivity.
Qed.

Lemma digit_cases (i : Z) :
  0 <= i <= 9 ->
  i = 0 \/ i = 1 \/ i = 2 \/ i = 3 \/ i = 4 \/ i = 5 \/ i = 6 \/ i = 7 \/ i = 8 \/ i = 9.
Proof. lia. Qed.

(** A band of the table denotes its index. *)
Lemma color_value_nth (i : Z) :
  0 <= i <= 9 ->
  color_value digitColor (nth_error digitColor (Z.to_nat i)) = Some i /\
  color_value multiplierColor (nth_error multiplierColor (Z.to_nat i)) = Some i.
Proof.
  intros Hi.
  destruct (digit_cases i Hi) as [->|[->|[->|[->|[->|[->|[->|[->|[->| ->]]]]]]]]];
    split; vm_compute; reflexivity.
Qed.

Lemma decode_five_bands (D e : Z) :
  100 <= D <= 999 -> 0 <= e <= 9 -> decode (five_bands D e) = Some (D * 10 ^ e).
Proof.
  intros HD He.
  pose proof (Z.div_mod D 100 ltac:(lia)) as H100.
  pose proof (Z.mod_pos_bound D 100 ltac:(lia)) as M100.
  pose proof (Z.div_mod D 10 ltac:(lia)) as H10.
  pose proof (Z.mod_pos_bound D 10 ltac:(lia)) as M10.
  pose proof (Z.div_mod (D / 10) 10 ltac:(lia)) as H1010.
  pose proof (Z.mod_pos_bound (D / 10) 10 ltac:(lia)) as M1010.
  assert (E100 : D / 10 / 10 = D / 100) by (rewrite Z.div_div by lia; reflexivity).
  unfold decode, five_bands.
  rewrite (proj1 (color_value_nth (D / 100) ltac:(lia))).
  rewrite (proj1 (color_value_nth (D / 10 mod 10) ltac:(lia))).
  rewrite (proj1 (color_value_nth (D mod 10) ltac:(lia))).
  rewrite (proj2 (color_value_nth e He)).
  f_equal. f_equal. lia.
Qed.

Lemma decode_four_bands (D e : Z) :
  10 <= D <= 99 -> 0 <= e <= 9 -> decode (four_bands D e) = Some (D * 10 ^ e).
Proof.
  intros HD He.
  pose proof (Z.div_mod D 10 ltac:(lia)) as H10.
  pose proof (Z.mod_pos_bound D 10 ltac:(lia)) as M10.
  unfold decode, four_bands.
  rewrite (proj1 (color_value_nth (D / 10) ltac:(lia))).
  rewrite (proj1 (color_value_nth (D mod 10) ltac:(lia))).
  rewrite (proj2 (color_value_nth e He)).
  f_equal. f_equal. lia.
Qed.

(** X3. Round trip.  A 5-band sequence with a first band other than
    Black and a multiplier up to Grey decodes to [D * 10^e], and the
    function gives this sequence back for that value; its 4-band sequence
    decodes to the value with the third digit cleared. *)
Theorem colorCode_round_trip (D e : Z) :
  100 <= D <= 999 -> 0 <= e <= 8 ->
  decode (five_bands D e) = Some (D * 10 ^ e) /\
  exists m,
    returns (of_Z (D * 10 ^ e)) (Some m) /\
    fiveBand m = five_bands D e /\
    decode (fourBand m) = Some (D / 10 * 10 * 10 ^ e).
Proof.
  intros HD He.
  pose proof (ten_pow_le e ltac:(lia)) as Hp.
  change (10 ^ 9) with 1000000000 in Hp.
  assert (H53 : 10 ^ 12 <= 2 ^ 53) by (apply Z.leb_le; reflexivity).
  change (10 ^ 12) with 1000000000000 in H53.
  pose proof (Z.div_mod D 10 ltac:(lia)) as H10.
  pose proof (Z.mod_pos_bound D 10 ltac:(lia)) as M10.
  split; [apply decode_five_bands; lia|].
  exists {| fourBand := four_bands (D / 10) (e + 1); fiveBand := five_bands D e |}.
  split; [|split; [reflexivity|]].
  - intros fuel Hf. pose proof ONE_pos.
    assert (HDe : 0 <= D * 10 ^ e <= 1000000000000) by nia.
    rewrite of_Z_exact by (rewrite Z.abs_eq; lia).
    rewrite <- (Z2Nat.id e) by lia.
    apply code_digits; try assumption; try lia.
    all: rewrite Z2Nat.id by lia.
    all: first [apply grid_integer; lia|nia].
  - cbn [fourBand]. rewrite decode_four_bands by lia.
    rewrite Z.pow_add_r by lia. change (10 ^ 1) with 10. f_equal. ring.
Qed.

(** X4. The decoded values bound the input from below: the 5-band
    sequence of a result decodes to a whole number [v5] with
    [v5 <= ohms < 1.01 * v5], the 4-band sequence to [v4 <= v5] with
    [ohms < 1.1 * v4]. *)
Theorem colorCode_decode_error (fuel : nat) (ohms : number) (m : mapping) :
  representable ohms ->
  computeResistorColorCode fuel ohms = Some (Some m) ->
  exists n v4 v5,
    ohms = Fin n /\
    decode (fourBand m) = Some v4 /\ decode (fiveBand m) = Some v5 /\
    v4 <= v5 /\ v5 * ONE <= n /\
    100 * n < 101 * (v5 * ONE) /\ 10 * n < 11 * (v4 * ONE).
Proof.
  intros Hr E.
  destruct (code_shape fuel ohms m Hr E) as (n & _ & _ & _ & _ & _ & _ & _ & -> & Hn & _).
  destruct (cell_exists n Hn) as (D & e & HD & He & Hc).
  pose proof ONE_pos.
  destruct Hr as [Hg _]. rewrite Z.abs_eq in Hg by nia.
  pose proof (computeResistorColorCode_fuel fuel (Nat.max fuel enough) _ _
                (Nat.le_max_l _ _) E) as E'.
  rewrite (code_digits _ n D e (Nat.le_max_r _ _) Hg HD He Hc) in E'.
  injection E' as <-.
  pose proof (ten_pow_le (Z.of_nat e) ltac:(lia)) as Hp.
  pose proof (Z.div_mod D 10 ltac:(lia)) as H10.
  pose proof (Z.mod_pos_bound D 10 ltac:(lia)) as M10.
  set (X := 10 ^ Z.of_nat e) in *.
  exists n, (D / 10 * 10 ^ (Z.of_nat e + 1)), (D * X).
  cbn [fourBand fiveBand].
  rewrite decode_four_bands, decode_five_bands by lia.
  assert (EX : 10 ^ (Z.of_nat e + 1) = 10 * X).
  { unfold X. rewrite Z.pow_add_r by lia. change (10 ^ 1) with 10. ring. }
  rewrite EX.
  split; [reflexivity|]. split; [reflexivity|]. split; [reflexivity|].
  assert (H4 : D / 10 * (10 * X) <= D * X).
  { replace (D / 10 * (10 * X)) with (D / 10 * 10 * X) by ring.
    apply Z.mul_le_mono_nonneg_r; lia. }
  split; [assumption|]. split; [lia|].
  assert (H5 : 100 * ((D + 1) * X) <= 101 * (D * X)).
  { replace (100 * ((D + 1) * X)) with (100 * (D + 1) * X) by ring.
    replace (101 * (D * X)) with (101 * D * X) by ring.
    apply Z.mul_le_mono_nonneg_r; lia. }
  assert (H6 : 10 * ((D + 1) * X) <= 11 * (D / 10 * (10 * X))).
  { replace (10 * ((D + 1) * X)) with (10 * (D + 1) * X) by ring.
    replace (11 * (D / 10 * (10 * X))) with (110 * (D / 10) * X) by ring.
    apply Z.mul_le_mono_nonneg_r; lia. }
  split.
  - apply Z.lt_le_trans with (100 * ((D + 1) * X * ONE)); [lia|].
    replace (100 * ((D + 1) * X * ONE)) with (100 * ((D + 1) * X) * ONE) by ring.
    replace (101 * (D * X * ONE)) with (101 * (D * X) * ONE) by ring.
    apply Z.mul_le_mono_nonneg_r; lia.
  - apply Z.lt_le_trans with (10 * ((D + 1) * X * ONE)); [lia|].
    replace (10 * ((D + 1) * X * ONE)) with (10 * ((D + 1) * X) * ONE) by ring.
    replace (11 * (D / 10 * (10 * X) * ONE)) with (11 * (D / 10 * (10 * X)) * ONE) by ring.
    apply Z.mul_le_mono_nonneg_r; lia.
Qed.

End Truncation.

(** ** Texts with one numeral *)

Section OneToken.

Local Opaque ONE TOP.

Lemma pairs_filter {X : Type} (R : X -> X -> Prop) (f : X -> bool) (l : list X) :
  ForallOrdPairs R l -> ForallOrdPairs R (filter f l).
Proof.
  induction 1 as [|x l Hx Hl IH]; cbn [filter]; [constructor|].
  destruct (f x); [|assumption].
  constructor; [|assumption].
  apply Forall_forall. intros y Hy. apply filter_In in Hy.
  rewrite Forall_forall in Hx. apply Hx, Hy.
Qed.

Lemma distinct_pairs (xs : list number) :
  ForallOrdPairs (fun x y => eqb x y = false) (distinct xs).
Proof.
  induction xs as [|x xs IH]; cbn [distinct]; constructor.
  - apply Forall_forall. intros y Hy. apply filter_In in Hy.
    destruct Hy as [_ Hy]. destruct (eqb x y); [discriminate|reflexivity].
  - apply pairs_filter, IH.
Qed.

Lemma span_stop (p : N -> bool) (s r : jsstring) :
  Forall (fun c => p c = true) s ->
  match r with [] => True | c :: _ => p c = false end ->
  span p (s ++ r) = (s, r).
Proof.
  intros Hs Hr. induction Hs as [|c s Hc Hs IH]; cbn [app span].
  - destruct r as [|c r]; [reflexivity|]. cbn [span]. rewrite Hr. reflexivity.
  - rewrite Hc, IH. reflexivity.
Qed.

Lemma no_digit_stop (r : jsstring) :
  no_digit r -> match r with [] => True | c :: _ => is_digit c = false end.
Proof. intros H. destruct H; [exact I|assumption]. Qed.

Lemma scan_no_digit (c : N) (s : jsstring) : is_digit c = false -> scan (c :: s) = None.
Proof. intros H. unfold scan. cbn [span]. rewrite H. reflexivity. Qed.

Lemma tokens_from_no_digit (text : jsstring) :
  no_digit text -> forall skip, tokens_from skip text = [].
Proof.
  induction 1 as [|c text Hc Ht IH]; intros [|skip]; cbn [tokens_from];
    try reflexivity; [|apply IH].
  rewrite scan_no_digit by assumption. apply IH.
Qed.

Lemma tokens_from_prefix (pre s : jsstring) :
  no_digit pre -> tokens_from O (pre ++ s) = tokens_from O s.
Proof.
  induction 1 as [|c pre Hc Hp IH]; [reflexivity|].
  cbn [app tokens_from]. rewrite scan_no_digit by assumption. exact IH.
Qed.

Lemma tokens_from_skip (a r : jsstring) :
  tokens_from (length a) (a ++ r) = tokens_from O r.
Proof. induction a as [|c a IH]; [reflexivity|]. cbn [length app tokens_from]. exact IH. Qed.

Lemma no_digit_app (a b : jsstring) : no_digit (a ++ b) <-> no_digit a /\ no_digit b.
Proof. apply Forall_app. Qed.

Lemma no_digit_span (p : N -> bool) (s : jsstring) :
  no_digit s -> no_digit (snd (span p s)).
Proof.
  intros H. rewrite <- (span_app p s) in H. apply no_digit_app in H. tauto.
Qed.

Lemma no_digit_skipn (k : nat) (s : jsstring) : no_digit s -> no_digit (skipn k s).
Proof.
  intros H. rewrite <- (firstn_skipn k s) in H. apply no_digit_app in H. tauto.
Qed.

Lemma take_fraction_part (fp post : jsstring) :
  fraction_part fp -> no_digit post -> take_fraction (fp ++ post) = (fp, post).
Proof.
  intros [->|(d & -> & Hne & Hd)] Hp.
  - cbn [app]. unfold take_fraction. destruct post as [|c r]; [reflexivity|].
    destruct (c =? 46)%N; [|reflexivity].
    inversion Hp as [|? ? _ Hr]; subst.
    destruct r as [|y r]; [reflexivity|]. cbn [span].
    inversion Hr as [|? ? Hy _]; subst. rewrite Hy. reflexivity.
  - cbn [app]. unfold take_fraction. rewrite N.eqb_refl.
    rewrite (span_stop is_digit d post Hd (no_digit_stop _ Hp)).
    destruct d; [contradiction|reflexivity].
Qed.

(** The text holds a single numeral: the tokens are this one. *)
Lemma tokens_one (pre ip fp post : jsstring) :
  no_digit pre -> all_digits ip -> fraction_part fp -> no_digit post ->
  tokens (pre ++ ip ++ fp ++ post) =
  [{| numeral := ip ++ fp;
      gap := fst (span is_space post);
      magnitude := take_suffix (snd (span is_space post)) |}].
Proof.
  intros Hpre [Hne Hip] Hfp Hpost. unfold tokens.
  rewrite tokens_from_prefix by assumption.
  destruct ip as [|c ip]; [contradiction|].
  assert (Hs : scan ((c :: ip) ++ fp ++ post) =
               Some {| numeral := (c :: ip) ++ fp;
                       gap := fst (span is_space post);
                       magnitude := take_suffix (snd (span is_space post)) |}).
  { unfold scan. rewrite (span_stop is_digit (c :: ip) (fp ++ post) Hip).
    - rewrite take_fraction_part by assumption.
      destruct (span is_space post) as [ws r3]. reflexivity.
    - destruct Hfp as [->|(d & -> & _)]; [apply no_digit_stop; assumption|reflexivity]. }
  cbn [app tokens_from] in *. rewrite Hs. f_equal.
  set (t := {| numeral := c :: ip ++ fp; gap := _; magnitude := _ |}).
  pose proof (span_app is_space post) as E3.
  set (w := match take_suffix (snd (span is_space post)) with
            | Some (w, _) => w | None => [] end).
  assert (E4 : snd (span is_space post) = w ++ skipn (length w) (snd (span is_space post))).
  { unfold w. destruct (take_suffix _) as [[w' e]|] eqn:Es; [|reflexivity].
    apply starts_with_skipn. unfold take_suffix in Es. apply find_some in Es.
    exact (proj2 Es). }
  set (r4 := skipn (length w) (snd (span is_space post))) in *.
  assert (Er : ip ++ fp ++ post = (ip ++ fp ++ fst (span is_space post) ++ w) ++ r4).
  { rewrite <- E3 at 1. rewrite E4 at 1. rewrite <- !app_assoc. reflexivity. }
  assert (El : Nat.pred (length (token_text t)) =
               length (ip ++ fp ++ fst (span is_space post) ++ w)).
  { unfold token_text, t. cbn [numeral gap magnitude]. fold w.
    cbn [app length Nat.pred]. rewrite <- !app_assoc. reflexivity. }
  rewrite El, Er, tokens_from_skip.
  apply tokens_from_no_digit. unfold r4. apply no_digit_skipn, no_digit_span. assumption.
Qed.

Lemma distinct_one (x : number) : distinct [x] = [x].
Proof. reflexivity. Qed.

(** The code units of the digits of a decimal number. *)
Lemma js_cons (c : ascii) (s : string) :
  (N_of_ascii c <? 128)%N = true -> js (String c s) = N_of_ascii c :: js s.
Proof. intros H. unfold js. cbn [list_ascii_of_string map utf16_of_utf8]. rewrite H. reflexivity. Qed.

Lemma uint_digits (d : Decimal.uint) :
  Forall (fun c => is_digit c = true) (js (NilEmpty.string_of_uint d)).
Proof.
  induction d; cbn [NilEmpty.string_of_uint];
    [constructor|rewrite js_cons by reflexivity; constructor; [reflexivity|assumption]..].
Qed.

Lemma uint_value (d : Decimal.uint) :
  forall acc : positive,
    fold_left (fun a c => 10 * a + Z.of_N (c - 48)) (js (NilEmpty.string_of_uint d))
              (Z.pos acc) =
    Z.pos (Pos.of_uint_acc d acc).
Proof.
  induction d; intros acc; cbn [NilEmpty.string_of_uint Pos.of_uint_acc];
    [reflexivity|rewrite js_cons by reflexivity; cbn [fold_left]; rewrite <- IHd; f_equal;
     match goal with
     | |- 10 * _ + ?x = _ => let y := eval vm_compute in x in change x with y
     end; lia..].
Qed.

Lemma uint_value_0 (d : Decimal.uint) :
  digits_value (js (NilEmpty.string_of_uint d)) = Z.of_N (Pos.of_uint d).
Proof.
  unfold digits_value.
  induction d; cbn [NilEmpty.string_of_uint Pos.of_uint];
    [reflexivity| rewrite js_cons by reflexivity; cbn [fold_left]..];
    [exact IHd|cbn [Z.of_N]; rewrite <- uint_value; reflexivity..].
Qed.

Lemma decimal_nonneg (z : Z) :
  0 <= z ->
  exists d, d <> Decimal.Nil /\ decimal z = js (NilEmpty.string_of_uint d) /\
            Z.of_N (Pos.of_uint d) = z.
Proof.
  intros Hz. destruct z as [|p|p]; [| |lia].
  - exists (Decimal.D0 Decimal.Nil). split; [discriminate|]. split; reflexivity.
  - exists (Pos.to_uint p). pose proof (DecimalPos.Unsigned.to_uint_nonnil p) as Hn.
    split; [assumption|]. split.
    + unfold decimal. cbn [Z.to_int NilZero.string_of_int]. unfold NilZero.string_of_uint.
      destruct (Pos.to_uint p); [contradiction|reflexivity..].
    + rewrite DecimalPos.Unsigned.of_to. reflexivity.
Qed.

(** The decimal numeral of a whole number is a run of digits with the
    number as its value. *)
Lemma decimal_digits (z : Z) :
  0 <= z -> all_digits (decimal z) /\ digits_value (decimal z) = z.
Proof.
  intros Hz. destruct (decimal_nonneg z Hz) as (d & Hd & -> & E).
  split; [split|].
  - destruct d; [congruence|cbn [NilEmpty.string_of_uint]; rewrite js_cons by reflexivity; discriminate..].
  - apply uint_digits.
  - rewrite uint_value_0. exact E.
Qed.

Lemma digit_not_I (c : N) : is_digit c = true -> (73 =? c)%N = false.
Proof.
  unfold is_digit. intros H. apply andb_prop in H as [H1 H2].
  apply N.leb_le in H1, H2. apply N.eqb_neq. lia.
Qed.

(** [parseFloat] on a run of digits. *)
Lemma parseFloat_digits (s : jsstring) :
  all_digits s -> parseFloat (Some s) = of_Z (digits_value s).
Proof.
  intros [Hne Hs]. destruct s as [|c s]; [contradiction|].
  inversion Hs as [|? ? Hc Hs']; subst.
  unfold parseFloat. cbn [span].
  rewrite (digit_not_space c Hc). cbn [snd].
  assert (E45 : (c =? 45)%N = false /\ (c =? 43)%N = false).
  { unfold is_digit in Hc. apply andb_prop in Hc as [H1 H2].
    apply N.leb_le in H1, H2. split; apply N.eqb_neq; lia. }
  rewrite (proj1 E45), (proj2 E45).
  unfold parse_unsigned.
  assert (EI : starts_with (js "Infinity") (c :: s) = false).
  { change (js "Infinity") with [73; 110; 102; 105; 110; 105; 116; 121]%N.
    cbn [starts_with]. rewrite (digit_not_I c Hc). reflexivity. }
  rewrite EI.
  pose proof (span_stop is_digit (c :: s) [] Hs I) as Es. rewrite app_nil_r in Es.
  rewrite Es. rewrite app_nil_r. cbn [exponent_part length Z.of_nat].
  unfold of_decimal, of_Z. cbn [Z.sub Z.leb Z.compare Z.opp].
  rewrite Z.pow_0_r, Z.mul_1_r. reflexivity.
Qed.

Lemma parseFloat_decimal (z : Z) : 0 <= z -> parseFloat (Some (decimal z)) = of_Z z.
Proof.
  intros Hz. destruct (decimal_digits z Hz) as [Hd E].
  rewrite parseFloat_digits by assumption. rewrite E. reflexivity.
Qed.

Lemma mul_of_Z (a b : Z) :
  0 <= a <= 2 ^ 53 -> 0 <= b <= 2 ^ 53 -> a * b <= 2 ^ 53 ->
  (of_Z a * of_Z b)%num = of_Z (a * b).
Proof.
  intros Ha Hb Hab. pose proof ONE_pos.
  rewrite (of_Z_exact a), (of_Z_exact (a * b)) by (rewrite Z.abs_eq; nia).
  rewrite mul_whole by nia.
  replace (b * (a * ONE)) with (a * b * ONE * 1) by ring.
  rewrite rnd_exact by first [lia|nia|apply grid_integer; nia].
  apply finish_fin, integer_below_TOP. assumption.
Qed.

Lemma space_not_digit (c : N) : is_space c = true -> is_digit c = false.
Proof.
  intros H. destruct (is_digit c) eqn:E; [|reflexivity].
  rewrite (digit_not_space c E) in H. discriminate.
Qed.

Lemma suffix_cases (w : jsstring) (e : Z) :
  In (w, e) suffixes ->
  (w, e) = ([107%N], 3) \/ (w, e) = ([75%N], 3) \/ (w, e) = ([77%N], 6) \/
  (w, e) = ([109%N; 101%N; 103%N; 97%N], 6) \/ (w, e) = ([71%N], 9) \/
  (w, e) = ([103%N], 9).
Proof.
  rewrite suffixes_eq. cbn [In]. intros H.
  repeat (destruct H as [H|H]; [symmetry in H; tauto|]). contradiction.
Qed.

(** A suffix of the table at the start of a text is the one taken, and
    it holds neither a digit nor white space. *)
Lemma take_suffix_In (w rest : jsstring) (e : Z) :
  In (w, e) suffixes ->
  take_suffix (w ++ rest) = Some (w, e) /\ no_digit w /\ 0 <= e <= 9 /\
  match w ++ rest with [] => True | c :: _ => is_space c = false end.
Proof.
  intros H. unfold take_suffix. rewrite suffixes_eq.
  destruct (suffix_cases w e H) as [E|[E|[E|[E|[E|E]]]]]; injection E as -> ->;
    (split; [reflexivity|]); (split; [repeat constructor|]); (split; [lia|reflexivity]).
Qed.

(** The text holds one whole number and nothing that reads as a
    magnitude. *)
Lemma extract_whole (pre post : jsstring) (z e : Z) :
  no_digit pre -> no_digit post -> 0 <= z <= 2 ^ 53 ->
  match take_suffix (snd (span is_space post)) with Some (_, e') => e' | None => 0 end = e ->
  extractOhmValues (pre ++ decimal z ++ post) = [(of_Z z * of_Z (10 ^ e))%num].
Proof.
  intros Hpre Hpost Hz He.
  destruct (decimal_digits z ltac:(lia)) as [Hd Ev].
  rewrite extractOhmValues_tokens.
  pose proof (tokens_one pre (decimal z) [] post Hpre Hd (or_introl eq_refl) Hpost) as Et.
  cbn [app] in Et. rewrite Et. cbn [filter].
  unfold token_finite. cbn [numeral]. rewrite app_nil_r.
  rewrite parseFloat_decimal by lia.
  rewrite of_Z_exact by (rewrite Z.abs_eq; lia). cbn [isFinite map].
  unfold token_value. cbn [numeral magnitude].
  rewrite parseFloat_decimal by lia.
  rewrite He, <- (of_Z_exact z) by (rewrite Z.abs_eq; lia). reflexivity.
Qed.

End OneToken.

(** ** Written signs *)

Section Signs.

Local Opaque ONE TOP.











End Signs.



Section ExtractExtras.

Local Opaque ONE TOP.

(** X5. No two of the returned values are equal as numbers. *)
Theorem extractOhmValues_distinct (text : jsstring) :
  ForallOrdPairs (fun x y => eqb x y = false) (extractOhmValues text).
Proof. rewrite extractOhmValues_tokens. apply distinct_pairs. Qed.

(** X6. A text without a decimal digit, the empty text among them, has
    no values. *)
Theorem extractOhmValues_no_digit (text : jsstring) :
  no_digit text -> extractOhmValues text = [].
Proof.
  intros H. rewrite extractOhmValues_tokens. unfold tokens.
  rewrite tokens_from_no_digit by assumption. reflexivity.
Qed.

(** X7. A text that names one whole number, in decimal digits and
    without a magnitude letter after it, has this number as its only
    value. *)
Theorem extractOhmValues_whole (pre post : jsstring) (z : Z) :
  no_digit pre -> no_digit post -> 0 <= z <= 2 ^ 53 ->
  take_suffix (snd (span is_space post)) = None ->
  extractOhmValues (pre ++ decimal z ++ post) = [of_Z z].
Proof.
  intros Hpre Hpost Hz Hs.
  rewrite (extract_whole pre post z 0 Hpre Hpost Hz) by (rewrite Hs; reflexivity).
  rewrite Z.pow_0_r, mul_of_Z, Z.mul_1_r by lia. reflexivity.
Qed.

(** X8. A whole number followed by white space and a magnitude suffix
    is scaled by the power of ten of the suffix, whatever comes after the
    suffix: the letter is taken also as the first letter of a word. *)
Theorem extractOhmValues_suffix (pre ws w rest : jsstring) (z e : Z) :
  no_digit pre -> Forall (fun c => is_space c = true) ws ->
  In (w, e) suffixes -> no_digit rest ->
  0 <= z -> z * 10 ^ e <= 2 ^ 53 ->
  extractOhmValues (pre ++ decimal z ++ ws ++ w ++ rest) = [of_Z (z * 10 ^ e)].
Proof.
  intros Hpre Hws Hin Hrest Hz Hb.
  destruct (take_suffix_In w rest e Hin) as (Hs & Hw & He & Hstop).
  pose proof (Z.pow_pos_nonneg 10 e ltac:(lia) ltac:(lia)) as Hp.
  assert (H9 : 10 ^ e <= 10 ^ 9) by (apply Z.pow_le_mono_r; lia).
  assert (H53 : 10 ^ 9 <= 2 ^ 53) by (apply Z.leb_le; reflexivity).
  assert (Hz' : z <= 2 ^ 53) by nia.
  assert (Hpost : no_digit (ws ++ w ++ rest)).
  { apply no_digit_app. split.
    - unfold no_digit. rewrite Forall_forall in *. intros c Hc.
      apply space_not_digit, Hws, Hc.
    - apply no_digit_app. split; assumption. }
  rewrite (extract_whole pre (ws ++ w ++ rest) z e Hpre Hpost ltac:(lia)).
  - rewrite mul_of_Z by lia. reflexivity.
  - rewrite (span_stop is_space ws (w ++ rest) Hws Hstop). cbn [snd].
    rewrite Hs. reflexivity.
Qed.

(** [parseFloat] on digits, a dot and digits. *)
Lemma parseFloat_fraction (ip d : jsstring) :
  all_digits ip -> all_digits d ->
  parseFloat (Some (ip ++ 46%N :: d)) =
  of_decimal (digits_value (ip ++ d)) (- Z.of_nat (length d)).
Proof.
  intros [Hne Hip] [Hned Hd]. destruct ip as [|c ip]; [contradiction|].
  inversion Hip as [|? ? Hc Hip']; subst.
  unfold parseFloat. cbn [app span].
  rewrite (digit_not_space c Hc). cbn [snd].
  assert (E45 : (c =? 45)%N = false /\ (c =? 43)%N = false).
  { unfold is_digit in Hc. apply andb_prop in Hc as [H1 H2].
    apply N.leb_le in H1, H2. split; apply N.eqb_neq; lia. }
  rewrite (proj1 E45), (proj2 E45).
  unfold parse_unsigned.
  assert (EI : starts_with (js "Infinity") (c :: ip ++ 46%N :: d) = false).
  { change (js "Infinity") with [73; 110; 102; 105; 110; 105; 116; 121]%N.
    cbn [starts_with]. rewrite (digit_not_I c Hc). reflexivity. }
  rewrite EI.
  pose proof (span_stop is_digit (c :: ip) (46%N :: d) Hip eq_refl) as Es.
  cbn [app] in Es. rewrite Es. rewrite N.eqb_refl.
  pose proof (span_stop is_digit d [] Hd I) as Ed. rewrite app_nil_r in Ed.
  rewrite Ed.
  destruct ((c :: ip) ++ d) as [|x l] eqn:El; [discriminate El|].
  cbn [exponent_part]. rewrite <- El. cbn [app]. f_equal.
Qed.

(** X23. A text that holds one numeral with a fraction part has one
    value: the double nearest to the decimal fraction, times the power of
    ten of the suffix that follows it ("4.7k" gives 4.7 * 1000). *)
Theorem extractOhmValues_fraction (pre ip d post : jsstring) :
  no_digit pre -> all_digits ip -> all_digits d -> no_digit post ->
  isFinite (of_decimal (digits_value (ip ++ d)) (- Z.of_nat (length d))) = true ->
  extractOhmValues (pre ++ ip ++ (46%N :: d) ++ post) =
  [(of_decimal (digits_value (ip ++ d)) (- Z.of_nat (length d))
    * of_Z (10 ^ match take_suffix (snd (span is_space post)) with
                 | Some (_, e) => e
                 | None => 0
                 end))%num].
Proof.
  intros Hpre Hip Hd Hpost Hfin.
  rewrite extractOhmValues_tokens.
  assert (Hfp : fraction_part (46%N :: d)) by (right; exists d; split; [reflexivity|assumption]).
  rewrite (tokens_one pre ip (46%N :: d) post Hpre Hip Hfp Hpost).
  cbn [filter]. unfold token_finite. cbn [numeral].
  rewrite parseFloat_fraction by assumption. rewrite Hfin. cbn [map].
  unfold token_value. cbn [numeral magnitude].
  rewrite parseFloat_fraction by assumption.
  destruct (take_suffix (snd (span is_space post))) as [[w e]|]; reflexivity.
Qed.

End ExtractExtras.

(** ** Patterns and what they match *)

Section Semantics.

Context {A : Type}.

Lemma star_matches (p : N -> bool) (k : @continuation A) :
  blind k ->
  forall inp caps,
    star p inp caps k <> None <->
    exists rest, matches (Star p) inp rest /\ k rest caps <> None.
Proof.
  intros Hk. induction inp as [|c inp IH]; intros caps; cbn [star].
  - split.
    + intros H. exists []. split; [constructor|assumption].
    + intros (rest & Hm & H). inversion Hm; subst. assumption.
  - destruct (p c) eqn:Ep.
    + destruct (star p inp caps k) as [a|] eqn:Es.
      * split; [|discriminate]. intros _.
        assert (Hs : star p inp caps k <> None) by (rewrite Es; discriminate).
        apply IH in Hs as (rest & Hm & H). exists rest. split; [|assumption].
        apply m_star_step; assumption.
      * split.
        -- intros H. exists (c :: inp). split; [constructor|assumption].
        -- intros (rest & Hm & H). inversion Hm; subst; [assumption|].
           exfalso. assert (Hs : star p inp caps k <> None) by (apply IH; eauto).
           contradiction.
    + split.
      * intros H. exists (c :: inp). split; [constructor|assumption].
      * intros (rest & Hm & H). inversion Hm; subst; [assumption|congruence].
Qed.

Lemma star_blind (p : N -> bool) (k : @continuation A) :
  blind k -> blind (fun i c => star p i c k).
Proof.
  intros Hk i. induction i as [|x i IH]; intros c c'; cbn [star].
  - apply Hk.
  - destruct (p x); [|apply Hk].
    destruct (star p i c k) eqn:E; [discriminate|].
    rewrite (IH c c' E). apply Hk.
Qed.

(** The matcher succeeds exactly when the pattern matches a prefix after
    which the continuation succeeds. *)
Lemma mtch_matches (r : regex) :
  forall k : @continuation A,
    blind k ->
    blind (fun i c => mtch r i c k) /\
    forall inp caps,
      mtch r inp caps k <> None <->
      exists rest, matches r inp rest /\ k rest caps <> None.
Proof.
  induction r as [p|r1 IH1 r2 IH2|r1 IH1 r2 IH2|r IH|p|n r IH]; intros k Hk.
  - split.
    + intros i c c'. cbn [mtch]. destruct i as [|x i]; [reflexivity|].
      destruct (p x); [apply Hk|reflexivity].
    + intros inp caps. cbn [mtch]. destruct inp as [|x i].
      * split; [congruence|]. intros (rest & Hm & _). inversion Hm.
      * destruct (p x) eqn:Ep.
        -- split; [intros H; exists i; split; [constructor; assumption|assumption]|].
           intros (rest & Hm & H). inversion Hm; subst. assumption.
        -- split; [congruence|]. intros (rest & Hm & _). inversion Hm; congruence.
  - destruct (IH2 k Hk) as [Hb2 H2].
    destruct (IH1 _ Hb2) as [Hb1 H1].
    split; [exact Hb1|].
    intros inp caps. cbn [mtch]. rewrite H1. split.
    + intros (mid & Hm1 & H). apply H2 in H as (rest & Hm2 & H).
      exists rest. split; [econstructor; eassumption|assumption].
    + intros (rest & Hm & H). inversion Hm; subst.
      exists mid. split; [assumption|]. apply H2. eauto.
  - destruct (IH1 k Hk) as [Hb1 H1]. destruct (IH2 k Hk) as [Hb2 H2].
    split.
    + intros i c c'. cbn [mtch].
      destruct (mtch r1 i c k) eqn:E1; [discriminate|].
      rewrite (Hb1 i c c' E1). apply Hb2.
    + intros inp caps. cbn [mtch].
      destruct (mtch r1 inp caps k) as [a|] eqn:E1.
      * split; [|discriminate]. intros _.
        assert (Hs : mtch r1 inp caps k <> None) by (rewrite E1; discriminate).
        apply H1 in Hs as (rest & Hm & H). exists rest. split; [apply m_alt_l|]; assumption.
      * rewrite H2. split.
        -- intros (rest & Hm & H). exists rest. split; [apply m_alt_r|]; assumption.
        -- intros (rest & Hm & H). inversion Hm; subst;
             [|exists rest; split; assumption].
           exfalso. assert (Hs : mtch r1 inp caps k <> None) by (apply H1; eauto).
           contradiction.
  - destruct (IH k Hk) as [Hb H1].
    split.
    + intros i c c'. cbn [mtch].
      destruct (mtch r i c k) eqn:E1; [discriminate|].
      rewrite (Hb i c c' E1). apply Hk.
    + intros inp caps. cbn [mtch].
      destruct (mtch r inp caps k) as [a|] eqn:E1.
      * split; [|discriminate]. intros _.
        assert (Hs : mtch r inp caps k <> None) by (rewrite E1; discriminate).
        apply H1 in Hs as (rest & Hm & H). exists rest. split; [apply m_opt_some|]; assumption.
      * split.
        -- intros H. exists inp. split; [apply m_opt_none|assumption].
        -- intros (rest & Hm & H). inversion Hm; subst; [|assumption].
           exfalso. assert (Hs : mtch r inp caps k <> None) by (apply H1; eauto).
           contradiction.
  - split; [apply star_blind; assumption|].
    intros inp caps. cbn [mtch]. apply star_matches. assumption.
  - assert (Hk' : forall inp : jsstring,
               blind (fun inp' caps' =>
                        k inp' ((n, firstn (length inp - length inp') inp) :: caps'))).
    { intros inp i c c'. apply Hk. }
    split.
    + intros i c c'. cbn [mtch]. apply (proj1 (IH _ (Hk' i))).
    + intros inp caps. cbn [mtch]. rewrite (proj2 (IH _ (Hk' inp))). split.
      * intros (rest & Hm & H). exists rest. split; [constructor; assumption|].
        intros E. apply H. revert E. apply Hk.
      * intros (rest & Hm & H). inversion Hm; subst. exists rest. split; [assumption|].
        intros E. apply H. revert E. apply Hk.
Qed.

End Semantics.

Lemma exec_matches (r : regex) (inp : jsstring) :
  exec r inp <> None <-> exists rest, matches r inp rest.
Proof.
  unfold exec.
  set (k := fun (rest : jsstring) (caps : captures) =>
              Some {| matched := firstn (length inp - length rest) inp; groups := caps |}).
  assert (Hk : blind k) by (intros i c c'; discriminate).
  rewrite (proj2 (mtch_matches r k Hk)).
  split; intros (rest & H); exists rest; [tauto|split; [assumption|discriminate]].
Qed.

Lemma tails_In (t s : jsstring) : In t (tails s) <-> suffix_of t s.
Proof.
  induction s as [|c s IH].
  - cbn [tails In]. split.
    + intros [<-|[]]. exists []. reflexivity.
    + intros [a E]. left. symmetry in E. apply app_eq_nil in E. symmetry. tauto.
  - cbn [tails In]. rewrite IH. split.
    + intros [<-|[a ->]]; [exists []; reflexivity|exists (c :: a); reflexivity].
    + intros [[|x a] E]; [left; exact E|right].
      injection E as -> ->. exists a. reflexivity.
Qed.

Lemma test_matches (r : regex) (s : jsstring) :
  test r s = true <-> exists t rest, suffix_of t s /\ matches r t rest.
Proof.
  unfold test. rewrite existsb_exists. split.
  - intros (t & Hin & H). apply tails_In in Hin.
    destruct (exec r t) eqn:E; [|discriminate].
    assert (Hm : exec r t <> None) by (rewrite E; discriminate).
    apply exec_matches in Hm as [rest Hm]. exists t, rest. split; assumption.
  - intros (t & rest & Hs & Hm). exists t. split; [apply tails_In; assumption|].
    destruct (exec r t) eqn:E; [reflexivity|].
    exfalso. revert E. apply exec_matches. exists rest. assumption.
Qed.

Lemma matches_suffix (r : regex) (inp rest : jsstring) :
  matches r inp rest -> suffix_of rest inp.
Proof.
  induction 1 as [p c rest Hp|r1 r2 inp mid rest _ [a ->] _ [b ->]| | | | | |
                  p c inp rest Hp _ [a ->]|];
    try assumption.
  - exists [c]. reflexivity.
  - exists (a ++ b). apply app_assoc.
  - exists []. reflexivity.
  - exists []. reflexivity.
  - exists (c :: a). reflexivity.
Qed.

Lemma suffix_of_trans (a b c : jsstring) : suffix_of a b -> suffix_of b c -> suffix_of a c.
Proof. intros [x ->] [y ->]. exists (y ++ x). apply app_assoc. Qed.

Lemma colorWords_number (i j : nat) (inp rest : jsstring) :
  matches (colorWords i) inp rest -> matches (colorWords j) inp rest.
Proof. unfold colorWords. intros H. inversion H; subst. constructor. assumption. Qed.

(** X9. The two patterns by which the handler recognises a colour-code
    question accept the same questions: the optional [resistor] and the
    [.*] before the words change nothing. *)
Theorem wantColor_wantsColorCode (question : jsstring) :
  wantColor question = wantsColorCode question.
Proof.
  unfold wantColor, wantsColorCode.
  apply eq_true_iff_eq. rewrite !test_matches. split.
  - intros (t & rest & Hs & Hm). unfold wantColor_re in Hm.
    inversion Hm as [|? ? ? mid ? H1 H2| | | | | | |]; subst.
    inversion H2 as [|? ? ? mid' ? H3 H4| | | | | | |]; subst.
    exists mid', rest. split.
    + apply suffix_of_trans with mid; [apply (matches_suffix _ _ _ H3)|].
      apply suffix_of_trans with t; [apply (matches_suffix _ _ _ H1)|assumption].
    + apply (colorWords_number 2 1). assumption.
  - intros (t & rest & Hs & Hm). exists t, rest. split; [assumption|].
    unfold wantColor_re. apply m_seq with t; [apply m_opt_none|].
    apply m_seq with t; [apply m_star_stop|].
    apply (colorWords_number 1 2). assumption.
Qed.

(** ** The answers of the handler *)

Section HandlerExtras.

Local Opaque ONE TOP.

Variable fuel : nat.
Hypothesis Hfuel : (enough <= fuel)%nat.

(** A value has a bullet exactly when it lies in the range. *)
Lemma code_in_range (v : number) :
  representable v ->
  if in_range v
  then exists m part, computeResistorColorCode fuel v = Some (Some m) /\
                      format_part v m = Some part
  else computeResistorColorCode fuel v = Some None.
Proof using Hfuel.
  intros Hr. unfold in_range. pose proof pow53_big. pose proof ONE_pos.
  assert (H11 : Z.abs (10 ^ 11) <= 2 ^ 53) by (apply Z.leb_le; reflexivity).
  destruct v as [|s|n].
  - rewrite (of_Z_exact 100) by (cbn [Z.abs]; lia). cbn [geb leb ltb eqb orb andb].
    apply guard_rejects. left. reflexivity.
  - rewrite guard_rejects by (left; reflexivity).
    rewrite (of_Z_exact 100), (of_Z_exact (10 ^ 11)) by (cbn [Z.abs]; lia).
    destruct s; reflexivity.
  - rewrite geb_whole, ltb_whole by (cbn [Z.abs]; lia).
    destruct (Z_lt_le_dec 0 n) as [Hpos|Hneg].
    2:{ destruct (Z.leb_spec (100 * ONE) n); [lia|]. cbn [andb].
        apply guard_rejects. right.
        rewrite (of_Z_exact 0) by (cbn [Z.abs]; lia). rewrite Z.mul_0_l.
        unfold gtb, ltb. destruct (Z.ltb_spec 0 n); [lia|reflexivity]. }
    cbn [representable] in Hr. rewrite Z.abs_eq in Hr by lia. destruct Hr as [Hg HT].
    destruct (Z.leb_spec (100 * ONE) n) as [H100|Hlow]; cbn [andb].
    2:{ apply code_low; try assumption. lia. }
    destruct (Z.ltb_spec n (10 ^ 11 * ONE)) as [Hmid|Hhigh].
    2:{ apply code_high; try assumption. lia. }
    destruct (code_mid _ Hfuel n Hg ltac:(lia))
      as (i1 & i2 & p4 & j1 & j2 & j3 & p5 & H4 & H5 & E').
    rewrite E'. eexists. eexists. split; [reflexivity|].
    unfold format_part. rewrite round_Fin, toString_whole; [reflexivity|].
    pose proof (round_range n ltac:(lia)). rewrite Z.abs_eq by lia.
    assert (10 ^ 11 < 10 ^ 21) by reflexivity. lia.
Qed.

Lemma colorParts_filter (qVals : list number) :
  Forall representable qVals ->
  exists parts,
    colorParts fuel qVals = Some parts /\
    Forall2 (fun v part =>
               exists m, computeResistorColorCode fuel v = Some (Some m) /\
                         format_part v m = Some part)
            (filter in_range qVals) parts.
Proof using Hfuel.
  induction 1 as [|v qVals Hr _ (parts & E & IH)]; cbn [colorParts filter].
  - exists []. split; [reflexivity|constructor].
  - pose proof (code_in_range v Hr) as Hv. rewrite E.
    destruct (in_range v).
    + destruct Hv as (m & part & Ec & Ep). rewrite Ec, Ep.
      exists (part :: parts). split; [reflexivity|].
      constructor; [|assumption]. exists m. split; assumption.
    + rewrite Hv. exists parts. split; [reflexivity|assumption].
Qed.

Lemma header_not_unknown (rest : jsstring) :
  js "Resistor color code:" ++ rest <> js "I don't know.".
Proof.
  intros E. apply (f_equal (hd 0%N)) in E. vm_compute in E. discriminate.
Qed.

Lemma filter_nil_iff {X : Type} (f : X -> bool) (l : list X) :
  filter f l = [] <-> Forall (fun x => f x = false) l.
Proof.
  induction l as [|x l IH]; cbn [filter].
  - split; [constructor|reflexivity].
  - destruct (f x) eqn:E.
    + split; [discriminate|]. intros H. inversion H; subst. congruence.
    + rewrite IH. split; [constructor; assumption|].
      intros H. inversion H; subst. assumption.
Qed.

End HandlerExtras.

Section HandlerTheorems.

Local Opaque ONE TOP.

(** X10. The bullets of the answer are those of the values between 100
    and 10^11, one for each, in the order of the values; a value outside
    this range is left out without a word. *)
Theorem colorParts_in_range (fuel : nat) (qVals : list number) :
  (enough <= fuel)%nat -> Forall representable qVals ->
  exists parts,
    colorParts fuel qVals = Some parts /\
    Forall2 (fun v part =>
               exists m, computeResistorColorCode fuel v = Some (Some m) /\
                         format_part v m = Some part)
            (filter in_range qVals) parts.
Proof. intros Hf. apply colorParts_filter. assumption. Qed.

(** X11. The fallback of lines 687-706 always answers, and it answers
    "I don't know." exactly when the question is no colour-code question
    or names no value between 100 and 10^11. *)
Theorem colorAnswer_unknown (fuel : nat) (wantColor : bool) (question : jsstring) :
  (enough <= fuel)%nat ->
  exists answer,
    colorAnswer fuel wantColor question = Some answer /\
    (answer = js "I don't know." <->
     wantColor = false \/
     Forall (fun v => in_range v = false) (extractOhmValues question)).
Proof.
  intros Hf. unfold colorAnswer.
  destruct wantColor.
  - destruct (colorParts_filter fuel Hf _ (extractOhmValues_repr question))
      as (parts & E & H2).
    rewrite E.
    destruct parts as [|part parts].
    + exists (js "I don't know."). split; [reflexivity|].
      inversion H2 as [E0|]. symmetry in E0. apply filter_nil_iff in E0.
      split; [right; assumption|reflexivity].
    + eexists. split; [reflexivity|]. split.
      * intros E'. exfalso. revert E'. apply header_not_unknown.
      * intros [H|H]; [discriminate|]. apply filter_nil_iff in H.
        rewrite H in H2. inversion H2.
  - cbn [colorParts]. exists (js "I don't know."). split; [reflexivity|].
    split; [left; reflexivity|reflexivity].
Qed.

(** X12. The handler never sends an empty answer after the model call;
    a question that is no colour-code question gets the draft as it is;
    and when the model returned nothing for a colour-code question, the
    answer is the one of the fallback of lines 687-706. *)
Theorem finalAnswer_cases (lower : jsstring -> jsstring) (fuel : nat)
    (question draft : jsstring) :
  (enough <= fuel)%nat ->
  exists answer,
    finalAnswer lower fuel question draft = Some answer /\
    answer <> [] /\
    (wantColor question = false -> draft <> [] -> answer = draft) /\
    (wantColor question = true -> draft = [] ->
     colorAnswer fuel true question = Some answer).
Proof.
  intros Hf. unfold finalAnswer, colorAnswer.
  destruct (colorParts_filter fuel Hf _ (extractOhmValues_repr question))
    as (parts & E & _).
  rewrite E.
  destruct (wantColor question) eqn:Ew; cbn [andb].
  - destruct draft as [|c draft]; cbn [is_empty orb].
    + destruct parts as [|part parts].
      * exists (js "I don't know."). repeat split; try discriminate.
      * eexists. split; [reflexivity|]. split; [discriminate|].
        split; [discriminate|reflexivity].
    + destruct (looksUnknown lower (c :: draft)).
      * destruct parts as [|part parts].
        -- exists (c :: draft). repeat split; discriminate.
        -- eexists. split; [reflexivity|]. repeat split; discriminate.
      * exists (c :: draft). repeat split; discriminate.
  - destruct draft as [|c draft].
    + exists (js "I don't know."). repeat split; try discriminate. congruence.
    + exists (c :: draft). repeat split; discriminate.
Qed.

End HandlerTheorems.

(** ** Image paths *)

Section ClientPath.

Lemma lastIndexOf_Some (needle s : jsstring) (i : nat) :
  lastIndexOf needle s = Some i -> starts_with needle (skipn i s) = true.
Proof.
  revert i. induction s as [|c s IH]; intros i; cbn [lastIndexOf].
  - destruct (starts_with needle []) eqn:E; [|discriminate].
    intros [= <-]. exact E.
  - destruct (lastIndexOf needle s) as [j|].
    + intros [= <-]. cbn [skipn]. apply IH. reflexivity.
    + destruct (starts_with needle (c :: s)) eqn:E; [|discriminate].
      intros [= <-]. exact E.
Qed.

Lemma starts_with_app (w s : jsstring) : starts_with w (w ++ s) = true.
Proof. induction w as [|c w IH]; [reflexivity|]. cbn. rewrite N.eqb_refl. exact IH. Qed.

Lemma starts_with_tl (c : N) (w s : jsstring) :
  starts_with (c :: w) s = true -> starts_with w (skipn 1 s) = true.
Proof.
  destruct s as [|x s]; [discriminate|]. cbn. intros H.
  apply andb_prop in H. tauto.
Qed.

Lemma client_path_prefix (p : jsstring) :
  starts_with (js "images/") (toClientPath p) = true.
Proof.
  unfold toClientPath.
  destruct (lastIndexOf (js "/images/") (slashes p)) as [i|] eqn:E.
  - apply lastIndexOf_Some in E.
    replace (i + 1)%nat with (1 + i)%nat by lia.
    rewrite <- skipn_skipn.
    change (js "/images/") with (47%N :: js "images/") in E.
    apply (starts_with_tl _ _ _ E).
  - apply starts_with_app.
Qed.

(** X13. Whatever the stored path, the path sent to the client starts
    with [images/]. *)
Theorem toClientPath_images (p : jsstring) :
  starts_with (js "images/") (toClientPath p) = true.
Proof. apply client_path_prefix. Qed.

Lemma starts_with_slash (w s : jsstring) :
  Forall (fun c => c <> 47%N) s -> starts_with (47%N :: w) s = false.
Proof.
  intros H. destruct H as [|c s Hc _]; [reflexivity|].
  cbn [starts_with]. destruct (N.eqb_spec 47 c); [congruence|reflexivity].
Qed.

Lemma lastIndexOf_none (w s : jsstring) :
  Forall (fun c => c <> 47%N) s -> lastIndexOf (47%N :: w) s = None.
Proof.
  induction 1 as [|c s Hc Hs IH]; [reflexivity|].
  cbn [lastIndexOf]. rewrite IH.
  rewrite starts_with_slash by (constructor; assumption). reflexivity.
Qed.

Lemma lastIndexOf_cons (w : jsstring) (c : N) (s : jsstring) :
  c <> 47%N ->
  lastIndexOf (47%N :: w) (c :: s) = option_map S (lastIndexOf (47%N :: w) s).
Proof.
  intros Hc. cbn [lastIndexOf].
  destruct (lastIndexOf (47%N :: w) s); [reflexivity|].
  cbn [starts_with]. destruct (N.eqb_spec 47 c); [congruence|reflexivity].
Qed.

Lemma starts_with_prefix (w s : jsstring) :
  starts_with w s = true -> exists r, s = w ++ r.
Proof. intros H. exists (skipn (length w) s). apply starts_with_skipn. assumption. Qed.

Lemma lastIndexOf_eq (needle : jsstring) (c : N) (rest : jsstring) :
  lastIndexOf needle (c :: rest) =
  match lastIndexOf needle rest with
  | Some i => Some (S i)
  | None => if starts_with needle (c :: rest) then Some O else None
  end.
Proof. reflexivity. Qed.

Lemma lastIndexOf_images (f : jsstring) :
  Forall (fun c => c <> 47%N) f ->
  lastIndexOf (js "/images/") (js "/images/" ++ f) = Some O.
Proof.
  intros Hf.
  change (js "/images/") with [47; 105; 109; 97; 103; 101; 115; 47]%N.
  cbn [app].
  assert (E : lastIndexOf [47; 105; 109; 97; 103; 101; 115; 47]%N (47%N :: f) = None).
  { rewrite lastIndexOf_eq, lastIndexOf_none by assumption.
    change (starts_with [47; 105; 109; 97; 103; 101; 115; 47]%N (47%N :: f))
      with (starts_with [105; 109; 97; 103; 101; 115; 47]%N f).
    destruct (starts_with [105; 109; 97; 103; 101; 115; 47]%N f) eqn:Es; [|reflexivity].
    exfalso. apply starts_with_prefix in Es as [r ->].
    rewrite Forall_forall in Hf. apply (Hf 47%N); [|reflexivity].
    apply in_or_app. left. cbn. tauto. }
  rewrite lastIndexOf_eq.
  rewrite !lastIndexOf_cons by (intros E'; discriminate E').
  rewrite E. cbn [option_map]. reflexivity.
Qed.

Lemma lastIndexOf_app (needle a s : jsstring) (i : nat) :
  lastIndexOf needle s = Some i -> lastIndexOf needle (a ++ s) = Some (length a + i)%nat.
Proof.
  intros H. induction a as [|c a IH]; [exact H|].
  cbn [app lastIndexOf length]. rewrite IH. reflexivity.
Qed.

Lemma slashes_id (f : jsstring) : Forall (fun c => c <> 92%N) f -> slashes f = f.
Proof.
  induction 1 as [|c f Hc _ IH]; [reflexivity|].
  cbn [slashes map]. fold (slashes f). rewrite IH.
  destruct (N.eqb_spec c 92); [contradiction|reflexivity].
Qed.

Lemma slashes_no_slash (f : jsstring) :
  Forall (fun c => c <> 47%N /\ c <> 92%N) f ->
  slashes f = f /\ Forall (fun c => c <> 47%N) f.
Proof.
  intros H. split.
  - apply slashes_id. eapply Forall_impl; [|exact H]. cbn. tauto.
  - eapply Forall_impl; [|exact H]. cbn. tauto.
Qed.

Lemma split_no_sep (sep : N) (f : jsstring) :
  Forall (fun c => c <> sep) f -> split sep f = [f].
Proof.
  induction 1 as [|c f Hc _ IH]; [reflexivity|].
  cbn [split]. rewrite IH. destruct (N.eqb_spec c sep); [contradiction|reflexivity].
Qed.

(** X14. A file directly under a directory [images], written with
    slashes or backslashes, is sent as [images/] and the file name,
    whatever directories come before; so is a bare file name. *)
Theorem toClientPath_file (dir sep f : jsstring) :
  slashes sep = js "/images/" ->
  Forall (fun c => c <> 47%N /\ c <> 92%N) f ->
  toClientPath (dir ++ sep ++ f) = js "images/" ++ f /\
  (f <> [] -> toClientPath f = js "images/" ++ f).
Proof.
  intros Hsep Hf. destruct (slashes_no_slash f Hf) as [Ef Hf'].
  unfold toClientPath. split.
  - unfold slashes at 1 2. rewrite !map_app. fold (slashes dir) (slashes sep) (slashes f).
    rewrite Hsep, Ef.
    rewrite (lastIndexOf_app _ (slashes dir) _ O (lastIndexOf_images f Hf')).
    rewrite Nat.add_0_r.
    replace (length (slashes dir) + 1)%nat with (1 + length (slashes dir))%nat by lia.
    rewrite <- skipn_skipn, skipn_app, skipn_all, Nat.sub_diag. reflexivity.
  - intros Hne. rewrite Ef.
    change (js "/images/") with (47%N :: js "images/").
    rewrite lastIndexOf_none by assumption.
    rewrite split_no_sep by assumption. cbn [last].
    destruct f; [contradiction|reflexivity].
Qed.

End ClientPath.

Section ImageAnswer.

Variable lower : jsstring -> jsstring.

Lemma firstn_incl_In {X : Type} (k : nat) (l : list X) (x : X) : In x (firstn k l) -> In x l.
Proof. intros H. rewrite <- (firstn_skipn k l). apply in_or_app. left. assumption. Qed.

Lemma picks_from (question : jsstring) (images : list jsstring) (r : jsstring) :
  In r (imagePicks lower question images) ->
  exists p, In p images /\ r = toClientPath p /\
            (existsb (preferredImage lower question) images = true ->
             preferredImage lower question p = true).
Proof.
  unfold imagePicks. intros H. apply in_map_iff in H as (p & <- & H).
  apply firstn_incl_In in H. exists p.
  destruct (filter (preferredImage lower question) images) as [|x l] eqn:Ef.
  - split; [assumption|]. split; [reflexivity|].
    intros Hex. apply existsb_exists in Hex as (y & Hy & Hp).
    assert (Hin : In y (filter (preferredImage lower question) images))
      by (apply filter_In; split; assumption).
    rewrite Ef in Hin. contradiction.
  - rewrite <- Ef in H. apply filter_In in H as [Hin Hp].
    split; [assumption|]. split; [reflexivity|]. intros _. assumption.
Qed.

Lemma picks_length (question : jsstring) (images : list jsstring) :
  images <> [] ->
  (1 <= length (imagePicks lower question images) <= 6)%nat.
Proof.
  intros Hne. unfold imagePicks. rewrite length_map, length_firstn.
  destruct (filter (preferredImage lower question) images) as [|x l].
  - destruct images; [contradiction|]. cbn [length]. lia.
  - cbn [length]. lia.
Qed.

End ImageAnswer.

(** X15. When the retrieval found images, the answer to a question that
    asks for one lists between one and six of them; every source it
    names is [/images/...], the client path of a retrieved image, and of
    one that the question prefers when there is such an image. *)
Theorem imageAnswer_sources (lower : jsstring -> jsstring)
    (question : jsstring) (images : list jsstring) :
  images <> [] ->
  let sources := snd (imageAnswer lower question images) in
  (1 <= length sources <= 6)%nat /\
  Forall (fun src =>
            starts_with (js "/images/") src = true /\
            exists p, In p images /\ src = 47%N :: toClientPath p /\
                      (existsb (preferredImage lower question) images = true ->
                       preferredImage lower question p = true))
         sources.
Proof.
  intros Hne. cbn [imageAnswer snd]. split.
  - rewrite length_map. apply picks_length. assumption.
  - apply Forall_forall. intros src Hsrc.
    apply in_map_iff in Hsrc as (r & <- & Hr).
    destruct (picks_from lower question images r Hr) as (p & Hin & -> & Hp).
    split.
    + change (js "/images/") with (47%N :: js "images/").
      cbn [starts_with]. rewrite N.eqb_refl. cbn [andb]. apply client_path_prefix.
    + exists p. split; [assumption|]. split; [reflexivity|assumption].
Qed.

(** ** The model candidates *)

Section Candidates.

Import Gemini.

Lemma jsstring_eqb_eq (s t : jsstring) : jsstring_eqb s t = true <-> s = t.
Proof.
  revert t. induction s as [|a s IH]; intros [|b t]; cbn [jsstring_eqb];
    try (split; [discriminate|discriminate]); [tauto|].
  rewrite andb_true_iff, N.eqb_eq, IH. split; [intros [-> ->]; reflexivity|].
  intros [= -> ->]. tauto.
Qed.

Lemma seen_In (k : jsstring) (seen : list jsstring) :
  existsb (jsstring_eqb k) seen = true <-> In k seen.
Proof.
  rewrite existsb_exists. split.
  - intros (x & Hx & E). apply jsstring_eqb_eq in E. subst. assumption.
  - intros H. exists k. split; [assumption|]. apply jsstring_eqb_eq. reflexivity.
Qed.

Lemma dedupe_keys (l : list candidate) :
  forall seen,
    NoDup (map key (dedupe seen l)) /\
    (forall c, In c (dedupe seen l) -> In c l /\ ~ In (key c) seen) /\
    (forall c, In c l -> ~ In (key c) seen ->
               exists c', In c' (dedupe seen l) /\ key c' = key c) /\
    (length (dedupe seen l) <= length l)%nat.
Proof.
  induction l as [|c l IH]; intros seen; cbn [dedupe].
  - split; [constructor|]. split; [intros c []|]. split; [intros c []|]. lia.
  - destruct (existsb (jsstring_eqb (key c)) seen) eqn:E.
    + apply seen_In in E. destruct (IH seen) as (H1 & H2 & H3 & H4).
      split; [assumption|]. split; [|split]; [| |cbn [length]; lia].
      * intros c' Hc'. destruct (H2 c' Hc'). split; [right|]; assumption.
      * intros c' [<-|Hc'] Hn; [contradiction|]. apply H3; assumption.
    + assert (Hn : ~ In (key c) seen).
      { intros H. apply seen_In in H. congruence. }
      destruct (IH (key c :: seen)) as (H1 & H2 & H3 & H4).
      split; [|split; [|split]]; [| | |cbn [length]; lia].
      * cbn [map]. constructor; [|assumption].
        intros H. apply in_map_iff in H as (c' & Ek & Hc').
        destruct (H2 c' Hc') as [_ Hno]. apply Hno. left. symmetry. assumption.
      * intros c' [<-|Hc']; [split; [left; reflexivity|assumption]|].
        destruct (H2 c' Hc') as [Hin Hno]. split; [right; assumption|].
        intros H. apply Hno. right. assumption.
      * intros c' [<-|Hc'] Hn'; [exists c; split; [left|]; reflexivity|].
        destruct (jsstring_eqb (key c') (key c)) eqn:Ek.
        -- apply jsstring_eqb_eq in Ek. exists c. split; [left; reflexivity|].
           symmetry. assumption.
        -- destruct (H3 c' Hc') as (c'' & Hin & Ek').
           { intros [H|H]; [|contradiction]. rewrite H in Ek.
             assert (jsstring_eqb (key c') (key c') = true) by (apply jsstring_eqb_eq; reflexivity).
             congruence. }
           exists c''. split; [right|]; assumption.
Qed.

(** A key determines the pair when the version and the model hold no
    bar. *)
Lemma key_pivot (a b a' b' : jsstring) :
  ~ In 124%N a' -> ~ In 124%N b' ->
  a ++ 124%N :: b = a' ++ 124%N :: b' -> a = a' /\ b = b'.
Proof.
  revert a'. induction a as [|x a IH]; intros [|y a'] Ha Hb E; cbn [app] in E.
  - injection E as ->. tauto.
  - injection E as <- _. exfalso. apply Ha. left. reflexivity.
  - injection E as -> E. exfalso. apply Hb. rewrite <- E.
    apply in_or_app. right. left. reflexivity.
  - injection E as -> E. destruct (IH a') as [-> ->]; try assumption; [|tauto].
    intros H. apply Ha. right. assumption.
Qed.

Lemma default_no_bar (d : candidate) :
  In d defaults -> ~ In 124%N (v d) /\ ~ In 124%N (m d).
Proof.
  intros H. cbn [defaults In] in H.
  repeat (destruct H as [<-|H];
          [split; cbv; intros H'; repeat (destruct H' as [H'|H']; [discriminate|]); exact H'|]).
  contradiction.
Qed.

Lemma key_default (c d : candidate) : In d defaults -> key c = key d -> c = d.
Proof.
  intros Hd E. destruct (default_no_bar d Hd) as [Hv Hm].
  unfold key in E. change (js "|") with [124%N] in E. cbn [app] in E.
  destruct (key_pivot _ _ _ _ Hv Hm E) as [E1 E2].
  destruct c, d. cbn in *. subst. reflexivity.
Qed.

Lemma defaults_NoDup : NoDup defaults.
Proof.
  unfold defaults.
  repeat (constructor;
          [cbn [In]; intros H;
           repeat (destruct H as [H|H]; [apply (f_equal key) in H; vm_compute in H; discriminate|]);
           exact H|]).
  constructor.
Qed.

(** X16. Whatever the variables hold, no two candidates have the same
    key, each of the six default pairs is a candidate, there are between
    six and nine of them, and the pair of the two variables comes first
    when both are set. *)
Theorem candidates_spec (GEMINI_MODEL GEMINI_API_VERSION : value) :
  let cs := candidates GEMINI_MODEL GEMINI_API_VERSION in
  NoDup (map key cs) /\
  incl defaults cs /\
  (6 <= length cs <= 9)%nat /\
  (truthy GEMINI_MODEL = true -> truthy GEMINI_API_VERSION = true ->
   hd_error cs = Some {| v := text_of GEMINI_API_VERSION; m := text_of GEMINI_MODEL |}).
Proof.
  cbv zeta. unfold candidates.
  destruct (dedupe_keys (preferred GEMINI_MODEL GEMINI_API_VERSION) [])
    as (H1 & H2 & H3 & H4).
  assert (Hincl : incl defaults (dedupe [] (preferred GEMINI_MODEL GEMINI_API_VERSION))).
  { intros d Hd.
    destruct (H3 d) as (c' & Hin & Ek); [|intros []|].
    - unfold preferred. apply in_or_app. right. apply in_or_app. right. assumption.
    - rewrite <- (key_default c' d Hd Ek). assumption. }
  split; [assumption|]. split; [assumption|]. split; [split|].
  - change 6%nat with (length defaults). apply (NoDup_incl_length defaults_NoDup Hincl).
  - apply Nat.le_trans with (1 := H4). unfold preferred. rewrite !length_app.
    change (length defaults) with 6%nat.
    destruct (truthy GEMINI_MODEL && truthy GEMINI_API_VERSION), (truthy GEMINI_MODEL);
      cbn [length]; lia.
  - intros Hm Hv. unfold preferred. rewrite Hm, Hv. reflexivity.
Qed.

End Candidates.

(** ** The passages of the context *)

Section PassagesProofs.

Import Passages.

Lemma fold_step (h : bool) (texts : list jsstring) :
  forall st,
    let kept := uniq (seen st) (filter (fun t => negb (is_empty t)) (map trim texts)) in
    let st' := fold_left (step h) texts st in
    prioritized st' = prioritized st ++ filter (fun t => h && test focusRegex t) kept /\
    tail st' = tail st ++ filter (fun t => negb (h && test focusRegex t)) kept.
Proof.
  induction texts as [|s texts IH]; intros st; cbn [fold_left map filter uniq].
  - cbn [filter]. rewrite !app_nil_r. split; reflexivity.
  - cbv zeta in IH |- *. unfold step at 2 4.
    destruct (is_empty (trim s)) eqn:Ee; cbn [negb].
    + apply IH.
    + cbn [uniq]. destruct (existsb (jsstring_eqb (trim s)) (seen st)) eqn:Es.
      * apply IH.
      * cbn [filter]. destruct (h && test focusRegex (trim s)) eqn:Ef; cbn [negb].
        -- destruct (IH {| prioritized := prioritized st ++ [trim s]; tail := tail st;
                           seen := trim s :: seen st |}) as [E1 E2].
           cbn [prioritized tail seen] in *. rewrite E1, E2.
           rewrite <- app_assoc. split; reflexivity.
        -- destruct (IH {| prioritized := prioritized st; tail := tail st ++ [trim s];
                           seen := trim s :: seen st |}) as [E1 E2].
           cbn [prioritized tail seen] in *. rewrite E1, E2.
           rewrite <- app_assoc. split; reflexivity.
Qed.

Lemma filter_nonempty_trim (texts : list jsstring) :
  filter (fun t => negb (is_empty t)) (map trim (filter (fun s => negb (is_empty s)) texts)) =
  filter (fun t => negb (is_empty t)) (map trim texts).
Proof.
  induction texts as [|s texts IH]; [reflexivity|].
  cbn [filter map]. destruct s as [|c s]; cbn [is_empty negb]; [exact IH|].
  cbn [map filter]. rewrite IH. reflexivity.
Qed.

Lemma ordered_eq (query : jsstring) (texts : list jsstring) :
  ordered query texts =
  if test focusRegex query
  then filter (test focusRegex) (passages texts)
       ++ filter (fun t => negb (test focusRegex t)) (passages texts)
  else filter (fun s => negb (is_empty s)) texts.
Proof.
  unfold ordered. cbv zeta.
  destruct (test focusRegex query) eqn:Eq.
  - destruct (fold_step true (filter (fun s => negb (is_empty s)) texts) start) as [E1 E2].
    rewrite E1, E2. cbn [prioritized tail seen start app andb].
    rewrite filter_nonempty_trim. reflexivity.
  - destruct (tail _); reflexivity.
Qed.

End PassagesProofs.

(** X17. When the query names a focus word, the passages are the
    trimmed texts that are not blank, each one once, those that name a
    focus word first and the others after, both in the order of the
    retrieval.  When it names none, they are the texts as retrieved:
    neither trimmed nor freed of duplicates.  At most five of them make
    the context. *)
Theorem ordered_passages (query : jsstring) (texts : list jsstring) :
  (test focusRegex query = true ->
   Passages.ordered query texts =
   filter (test focusRegex) (passages texts)
   ++ filter (fun t => negb (test focusRegex t)) (passages texts)) /\
  (test focusRegex query = false ->
   Passages.ordered query texts = filter (fun s => negb (is_empty s)) texts) /\
  (length (Passages.snippets query texts) <= 5)%nat.
Proof.
  rewrite ordered_eq. split; [intros ->; reflexivity|]. split; [intros ->; reflexivity|].
  unfold Passages.snippets. rewrite length_firstn. lia.
Qed.

(** ** The embedding provider *)

Section EmbedderProofs.

Import Embedder.

Variable lower : jsstring -> jsstring.

Lemma or_else_default (x : value) (d : jsstring) :
  or_else (Some (default_to x d)) d = or_else x d.
Proof. destruct x as [[|c s]|]; try reflexivity. cbn. destruct d; reflexivity. Qed.

Lemma getEmbedder_provider (e : env) :
  getEmbedder lower e =
  let collection := default_to (ASTRA_DB_COLLECTION e) (js "experiment_docs") in
  if isMultimodal lower e
  then if negb (truthy (GEMINI_API_KEY e)) then None
       else Some (1408, collection ++ js "_mm")
  else if jsstring_eqb (provider lower e) (js "xenova")
       then Some (384, collection ++ js "_xv")
       else if negb (truthy (GEMINI_API_KEY e)) then None
            else Some (768, collection).
Proof.
  unfold getEmbedder, isMultimodal, provider. rewrite or_else_default. reflexivity.
Qed.

Lemma xenova_not_google (p : jsstring) :
  jsstring_eqb p (js "xenova") = true -> jsstring_eqb p (js "google") = false.
Proof.
  intros H. apply jsstring_eqb_eq in H. subst. vm_compute. reflexivity.
Qed.

(** X18. When the route finds an embedder, the loading script has
    written the collection that the route reads, with the same dimension,
    exactly when [ASTRA_DB_COLLECTION] is set and the provider is the
    multimodal one, [xenova] or [google]: with any other provider name
    the route reads the plain collection of dimension 768 and the script
    fills the [_xv] collection of dimension 384. *)
Theorem embedder_agreement (e : env) (dim : Z) (name : jsstring) :
  getEmbedder lower e = Some (dim, name) ->
  (loadDB lower e = Some (dim, name) <->
   ASTRA_DB_COLLECTION e <> None /\
   (isMultimodal lower e = true \/
    provider lower e = js "xenova" \/ provider lower e = js "google")).
Proof.
  rewrite getEmbedder_provider. unfold loadDB. cbv zeta.
  destruct (isMultimodal lower e) eqn:Emm; cbn [negb andb].
  - destruct (truthy (GEMINI_API_KEY e)); cbn [negb]; [|discriminate].
    intros [= <- <-]. destruct (ASTRA_DB_COLLECTION e) as [c|]; cbn [default_to template].
    + split; [intros _; split; [discriminate|left; reflexivity]|reflexivity].
    + split; [|intros [H _]; congruence].
      intros E. exfalso. vm_compute in E. discriminate E.
  - destruct (jsstring_eqb (provider lower e) (js "xenova")) eqn:Ex.
    + rewrite (xenova_not_google _ Ex). cbn [andb].
      apply jsstring_eqb_eq in Ex.
      intros [= <- <-]. destruct (ASTRA_DB_COLLECTION e) as [c|]; cbn [default_to template].
      * split; [intros _; split; [discriminate|right; left; assumption]|reflexivity].
      * split; [|intros [H _]; congruence].
        intros E. exfalso. vm_compute in E. discriminate E.
    + destruct (truthy (GEMINI_API_KEY e)); cbn [negb]; [|discriminate].
      intros [= <- <-]. rewrite andb_true_r.
      destruct (jsstring_eqb (provider lower e) (js "google")) eqn:Eg.
      * apply jsstring_eqb_eq in Eg.
        destruct (ASTRA_DB_COLLECTION e) as [c|]; cbn [default_to template].
        -- rewrite app_nil_r.
           split; [intros _; split; [discriminate|right; right; assumption]|reflexivity].
        -- split; [|intros [H _]; congruence].
           intros E. exfalso. vm_compute in E. discriminate E.
      * split; [discriminate|].
        intros [_ [H|[H|H]]]; [discriminate| |].
        -- apply jsstring_eqb_eq in H. congruence.
        -- apply jsstring_eqb_eq in H. congruence.
Qed.

End EmbedderProofs.

(** ** The web search *)

Section WebSearch.

Lemma endsWith_iff (d s : jsstring) : endsWith d s = true <-> exists p, s = p ++ d.
Proof.
  unfold endsWith. split.
  - intros H. apply starts_with_skipn in H.
    exists (rev (skipn (length (rev d)) (rev s))).
    rewrite <- (rev_involutive s), H at 1. rewrite rev_app_distr, rev_involutive. reflexivity.
  - intros [p ->]. rewrite rev_app_distr. apply starts_with_app.
Qed.

Lemma domain_cases (d : jsstring) :
  In d ALLOWED_EDU_DOMAINS ->
  d = js "vlab.co.in" \/ d = js "nptel.ac.in" \/ d = js "wikipedia.org".
Proof. cbn [ALLOWED_EDU_DOMAINS In]. intros [<-|[<-|[<-|[]]]]; tauto. Qed.

Lemma strip_www_app (p d : jsstring) :
  In d ALLOWED_EDU_DOMAINS -> exists q, strip_www (p ++ d) = q ++ d.
Proof.
  intros Hd. unfold strip_www.
  destruct (starts_with (js "www.") (p ++ d)) eqn:E; [|exists p; reflexivity].
  change (js "www.") with [119; 119; 119; 46]%N in E.
  destruct p as [|c1 [|c2 [|c3 [|c4 p]]]].
  - exfalso. destruct (domain_cases d Hd) as [->|[->| ->]]; vm_compute in E; discriminate.
  - exfalso. destruct (domain_cases d Hd) as [->|[->| ->]]; cbn in E;
      rewrite ?andb_false_r in E; discriminate.
  - exfalso. destruct (domain_cases d Hd) as [->|[->| ->]]; cbn in E;
      rewrite ?andb_false_r in E; discriminate.
  - exfalso. destruct (domain_cases d Hd) as [->|[->| ->]]; cbn in E;
      rewrite ?andb_false_r in E; discriminate.
  - exists p. reflexivity.
Qed.

(** X19. A host passes the filter exactly when its name, without a
    leading [www.], ends with one of the three domains; nothing is asked
    of what comes before the domain, not even a dot. *)
Theorem hostAllowed_suffix :
  (forall p d, In d ALLOWED_EDU_DOMAINS -> hostAllowed (p ++ d) = true) /\
  (forall hostname,
     hostAllowed hostname = true ->
     exists p d, In d ALLOWED_EDU_DOMAINS /\ hostname = p ++ d).
Proof.
  split.
  - intros p d Hd. unfold hostAllowed. apply existsb_exists. exists d.
    split; [assumption|]. destruct (strip_www_app p d Hd) as [q ->].
    apply endsWith_iff. exists q. reflexivity.
  - intros h H. unfold hostAllowed in H. apply existsb_exists in H as (d & Hd & H).
    apply endsWith_iff in H as [q E]. unfold strip_www in E.
    destruct (starts_with (js "www.") h) eqn:Ew.
    + apply starts_with_skipn in Ew. change (length (js "www.")) with 4%nat in Ew.
      exists (js "www." ++ q), d. split; [assumption|].
      rewrite Ew, E, app_assoc. reflexivity.
    + exists q, d. split; assumption.
Qed.

Lemma matches_Lit_head (c : N) (s inp rest : jsstring) :
  matches (Lit c s) inp rest -> exists t, inp = c :: t.
Proof.
  destruct s as [|d s]; cbn [Lit]; unfold Chr; intros H.
  - inversion H; subst. match goal with E : (c =? _)%N = true |- _ => apply N.eqb_eq in E; subst end.
    eexists. reflexivity.
  - inversion H as [|? ? ? mid ? H1 H2| | | | | | |]; subst.
    inversion H1; subst.
    match goal with E : (c =? _)%N = true |- _ => apply N.eqb_eq in E; subst end.
    eexists. reflexivity.
Qed.

Lemma suffix_In (c : N) (t s : jsstring) : suffix_of (c :: t) s -> In c s.
Proof. intros [a ->]. apply in_or_app. right. left. reflexivity. Qed.

Lemma digitsInContext_false (question context : jsstring) :
  ~ In 8%N context -> digitsInContext question context = false.
Proof.
  intros Hc. unfold digitsInContext.
  destruct (existsb _ (qDigits question)) eqn:E; [|reflexivity].
  exfalso. apply existsb_exists in E as (d & _ & E).
  apply test_matches in E as (t & rest & Hs & Hm).
  apply matches_Lit_head in Hm as [t' ->].
  apply Hc. apply (suffix_In _ _ _ Hs).
Qed.

(** X20. On a context without the character U+0008 the check of the
    digits never succeeds, whatever the question and the context say: a
    colour-code question is then always sent to the web search. *)
Theorem digitsInContext_backspace (question context : jsstring) :
  ~ In 8%N context ->
  digitsInContext question context = false /\
  insufficientMapping question context = wantsColorCode question /\
  (wantsColorCode question = true ->
   forall forceWeb topTextSimilarity topSimilarity SEARCH_SIM_THRESHOLD,
     shouldSearchWeb forceWeb topTextSimilarity topSimilarity SEARCH_SIM_THRESHOLD
                     question context = true).
Proof.
  intros Hc. pose proof (digitsInContext_false question context Hc) as E.
  split; [assumption|].
  assert (Ei : insufficientMapping question context = wantsColorCode question).
  { unfold insufficientMapping. rewrite E. cbn [negb orb]. apply andb_true_r. }
  split; [assumption|].
  intros Hw forceWeb s1 s2 th. unfold shouldSearchWeb. rewrite Ei, Hw.
  rewrite orb_true_r. reflexivity.
Qed.

End WebSearch.

(** ** The greeting *)

Section Greeting.

(** [toLowerCase] of the engine; of it the proofs use only that it
    keeps the decimal digits of a text. *)
Variable lower : jsstring -> jsstring.
Hypothesis lower_digits : forall s, no_digit (lower s) -> no_digit s.

Lemma matches_takes_only (P : N -> Prop) (r : regex) (inp rest : jsstring) :
  takes_only P r -> matches r inp rest ->
  exists a, inp = a ++ rest /\ Forall P a.
Proof.
  intros Hr Hm. induction Hm; cbn [takes_only] in Hr.
  - exists [c]. split; [reflexivity|]. constructor; [apply Hr; assumption|constructor].
  - destruct Hr as [Hr1 Hr2].
    destruct (IHHm1 Hr1) as (a & -> & Ha). destruct (IHHm2 Hr2) as (b & -> & Hb).
    exists (a ++ b). split; [apply app_assoc|]. apply Forall_app. split; assumption.
  - apply IHHm. tauto.
  - apply IHHm. tauto.
  - apply IHHm. assumption.
  - exists []. split; [reflexivity|constructor].
  - exists []. split; [reflexivity|constructor].
  - destruct (IHHm Hr) as (a & -> & Ha). exists (c :: a).
    split; [reflexivity|]. constructor; [apply Hr; assumption|assumption].
  - apply IHHm. assumption.
Qed.

Lemma ci_letter (c x : N) :
  (97 <= c <= 122)%N -> ci c x = true -> is_digit x = false.
Proof.
  intros Hc H. unfold ci in H. apply orb_prop in H.
  unfold is_digit. apply andb_false_iff.
  destruct H as [H|H]; apply N.eqb_eq in H; subst x.
  - right. apply N.leb_gt. lia.
  - right. apply N.leb_gt. lia.
Qed.

Lemma LitI_letters (s : jsstring) :
  forall c,
    (97 <= c <= 122)%N -> Forall (fun d => 97 <= d <= 122)%N s ->
    takes_only (fun x => is_digit x = false) (LitI c s).
Proof.
  induction s as [|d s IH]; intros c Hc Hs; cbn [LitI takes_only].
  - intros x. apply ci_letter. assumption.
  - inversion Hs; subst. split; [intros x; apply ci_letter; assumption|].
    apply IH; assumption.
Qed.

Lemma greetWords_no_digit : takes_only (fun x => is_digit x = false) greetWords.
Proof.
  assert (Hw : forall w, forallb (fun d => (97 <=? d)%N && (d <=? 122)%N) (js w) = true ->
                         takes_only (fun x => is_digit x = false) (word w)).
  { intros w H. unfold word. destruct (js w) as [|c s]; [intros x Hx; discriminate Hx|].
    cbn [forallb] in H. apply andb_prop in H as [H1 H2]. apply andb_prop in H1 as [H0 H1].
    apply N.leb_le in H0, H1. apply LitI_letters; [lia|].
    rewrite forallb_forall in H2. apply Forall_forall. intros d Hd.
    specialize (H2 d Hd). apply andb_prop in H2 as [H2 H3].
    apply N.leb_le in H2, H3. lia. }
  unfold greetWords. cbn [takes_only].
  repeat match goal with |- _ /\ _ => split end; try (apply Hw; reflexivity).
  - intros x Hx. apply space_not_digit. assumption.
  - intros x Hx. apply orb_prop in Hx as [Hx|Hx]; [|apply space_not_digit; assumption].
    cbn [existsb] in Hx. unfold is_digit.
    repeat (apply orb_prop in Hx as [Hx|Hx];
            [apply N.eqb_eq in Hx; subst x; reflexivity|]).
    discriminate.
Qed.

(** A text that the greeting pattern accepts holds no decimal digit. *)
Lemma greetRe_test_no_digit (s : jsstring) : greetRe_test s = true -> no_digit s.
Proof.
  intros H. unfold greetRe_test in H.
  set (k := fun (rest : jsstring) (_ : captures) =>
              if is_empty rest then Some tt else None) in H.
  assert (Hk : blind k) by (intros i c c' E; exact E).
  destruct (mtch greetWords s [] k) eqn:E; [|discriminate].
  assert (Hm : mtch greetWords s [] k <> None) by (rewrite E; discriminate).
  apply (proj2 (mtch_matches greetWords k Hk)) in Hm as (rest & Hm & Hr).
  unfold k in Hr. destruct rest; [|contradiction].
  destruct (matches_takes_only _ _ _ _ greetWords_no_digit Hm) as (a & -> & Ha).
  rewrite app_nil_r. exact Ha.
Qed.

Lemma span_fst_all (p : N -> bool) (s : jsstring) :
  Forall (fun c => p c = true) (fst (span p s)).
Proof.
  induction s as [|c s IH]; cbn [span]; [constructor|].
  destruct (p c) eqn:E; [|constructor].
  destruct (span p s) as [a b]. cbn [fst] in *. constructor; assumption.
Qed.

Lemma no_digit_rev (s : jsstring) : no_digit (rev s) -> no_digit s.
Proof. intros H. apply Forall_rev in H. rewrite rev_involutive in H. exact H. Qed.

Lemma no_digit_unspan (s : jsstring) : no_digit (snd (span is_space s)) -> no_digit s.
Proof.
  intros H. rewrite <- (span_app is_space s). apply no_digit_app. split; [|exact H].
  eapply Forall_impl; [|apply span_fst_all]. intros c. apply space_not_digit.
Qed.

(** [trim] removes white space only: the digits of the text stay. *)
Lemma no_digit_trim (s : jsstring) : no_digit (trim s) -> no_digit s.
Proof.
  unfold trim. intros H.
  apply no_digit_unspan, no_digit_rev, no_digit_unspan, no_digit_rev. exact H.
Qed.

(** X21. A question that is answered with the greeting holds no decimal
    digit, so it names no value: the pattern is tested on the trimmed
    question in lower case, the values are read from the question as it
    was sent, and trimming and lowering keep the digits. *)
Theorem greeting_no_digit (question : jsstring) :
  isGreeting lower question = true ->
  no_digit question /\ extractOhmValues question = [].
Proof using lower_digits.
  intros H. unfold isGreeting, qNorm in H.
  assert (Hn : no_digit question).
  { apply no_digit_trim, lower_digits, greetRe_test_no_digit, H. }
  split; [exact Hn|].
  rewrite extractOhmValues_tokens. unfold tokens.
  rewrite tokens_from_no_digit by assumption. reflexivity.
Qed.

End Greeting.

(** ** From the question to the answer *)

Section EndToEnd.

Local Opaque ONE TOP.

Lemma round_whole (z : Z) : round (Fin (z * ONE)) = Fin (z * ONE).
Proof.
  rewrite round_Fin. pose proof ONE_pos. f_equal. f_equal.
  replace (2 * (z * ONE) + ONE) with ((2 * z + 1) * ONE) by ring.
  rewrite Z.div_mul_cancel_r by lia.
  replace (2 * z + 1) with (1 + z * 2) by ring.
  rewrite Z.div_add by lia. reflexivity.
Qed.

(** X22. End to end: for a colour-code question that names one whole
    number of ohms between [D * 10^e] and [(D + 1) * 10^e], the fallback
    answers with the heading and one bullet of three lines, which shows
    the number, the 4-band colours of the first two digits of [D] with
    the multiplier [e + 1], and the 5-band colours of [D] with the
    multiplier [e]. *)
Theorem colorAnswer_whole (fuel : nat) (pre post : jsstring) (z D e : Z) :
  (enough <= fuel)%nat ->
  no_digit pre -> no_digit post ->
  take_suffix (snd (span is_space post)) = None ->
  100 <= D <= 999 -> 0 <= e <= 8 -> D * 10 ^ e <= z < (D + 1) * 10 ^ e ->
  colorAnswer fuel true (pre ++ decimal z ++ post) =
  Some (js "Resistor color code:" ++ [LF; LF]
        ++ js "- " ++ decimal z ++ js " Ω:" ++ [LF]
        ++ js "  - 4‑band: " ++ join (js " - ") (four_bands (D / 10) (e + 1)) ++ [LF]
        ++ js "  - 5‑band: " ++ join (js " - ") (five_bands D e)).
Proof.
  intros Hf Hpre Hpost Hs HD He Hz. pose proof ONE_pos.
  pose proof (ten_pow_le e ltac:(lia)) as Hp.
  change (10 ^ 9) with 1000000000 in Hp.
  assert (H53 : 10 ^ 12 <= 2 ^ 53) by (apply Z.leb_le; reflexivity).
  change (10 ^ 12) with 1000000000000 in H53.
  assert (Hz' : 100 <= z <= 1000000000000) by nia.
  unfold colorAnswer.
  rewrite (extract_whole pre post z 0 Hpre Hpost ltac:(lia)) by (rewrite Hs; reflexivity).
  rewrite Z.pow_0_r, mul_of_Z, Z.mul_1_r by lia.
  rewrite of_Z_exact by (rewrite Z.abs_eq; lia).
  cbn [colorParts].
  assert (Ec : computeResistorColorCode fuel (Fin (z * ONE)) =
               Some (Some {| fourBand := four_bands (D / 10) (e + 1);
                             fiveBand := five_bands D e |})).
  { rewrite <- (Z2Nat.id e) by lia.
    apply code_digits; try assumption; try lia.
    - apply grid_integer. lia.
    - rewrite Z2Nat.id by lia. nia. }
  rewrite Ec. unfold format_part. rewrite round_whole, toString_whole.
  2:{ rewrite Z.abs_eq by lia. assert (10 ^ 12 < 10 ^ 21) by reflexivity.
      change (10 ^ 12) with 1000000000000 in *. lia. }
  cbn [fourBand fiveBand map join]. reflexivity.
Qed.

End EndToEnd.

(** ** The theorems at concrete inputs *)

Lemma no_digit_check (s : jsstring) :
  forallb (fun c => negb (is_digit c)) s = true -> no_digit s.
Proof.
  intros H. rewrite forallb_forall in H. apply Forall_forall. intros c Hc.
  apply negb_true_iff, H, Hc.
Qed.

Lemma spaces_check (s : jsstring) :
  forallb is_space s = true -> Forall (fun c => is_space c = true) s.
Proof. intros H. rewrite forallb_forall in H. apply Forall_forall. exact H. Qed.

Lemma file_name_check (f : jsstring) :
  forallb (fun c => negb (c =? 47)%N && negb (c =? 92)%N) f = true ->
  Forall (fun c => c <> 47%N /\ c <> 92%N) f.
Proof.
  intros H. rewrite forallb_forall in H. apply Forall_forall. intros c Hc.
  specialize (H c Hc). apply andb_prop in H as [H1 H2].
  apply negb_true_iff in H1, H2. split; apply N.eqb_neq; assumption.
Qed.

Lemma absent_check (c : N) (s : jsstring) : existsb (N.eqb c) s = false -> ~ In c s.
Proof.
  intros H Hin. assert (E : existsb (N.eqb c) s = true); [|congruence].
  apply existsb_exists. exists c. split; [assumption|apply N.eqb_refl].
Qed.

(** X1 at 1234.5 ohms: Brown, Red, Red and Brown, Red, Orange, Brown. *)
Lemma colorCode_truncates_witness :
  representable (of_decimal 12345 (-1)) /\
  (of_decimal 12345 (-1) >=? of_Z (123 * 10 ^ 1))%num = true /\
  (of_decimal 12345 (-1) <? of_Z ((123 + 1) * 10 ^ 1))%num = true /\
  returns (of_decimal 12345 (-1))
          (Some {| fourBand := four_bands 12 2; fiveBand := five_bands 123 1 |}).
Proof.
  assert (H1 : representable (of_decimal 12345 (-1))) by (vm_compute; split; reflexivity).
  assert (H2 : (of_decimal 12345 (-1) >=? of_Z (123 * 10 ^ 1))%num = true)
    by (vm_compute; reflexivity).
  assert (H3 : (of_decimal 12345 (-1) <? of_Z ((123 + 1) * 10 ^ 1))%num = true)
    by (vm_compute; reflexivity).
  split; [exact H1|]. split; [exact H2|]. split; [exact H3|].
  exact (colorCode_truncates (of_decimal 12345 (-1)) 123 1 H1
           ltac:(lia) ltac:(lia) H2 H3).
Defined.

(** X2 at 220 ohms. *)
Lemma colorCode_cell_witness :
  representable (of_Z 220) /\
  computeResistorColorCode enough (of_Z 220) = Some (Some mapping_220) /\
  exists D e,
    100 <= D <= 999 /\ 0 <= e <= 8 /\
    (of_Z 220 >=? of_Z (D * 10 ^ e))%num = true /\
    (of_Z 220 <? of_Z ((D + 1) * 10 ^ e))%num = true /\
    fourBand mapping_220 = four_bands (D / 10) (e + 1) /\
    fiveBand mapping_220 = five_bands D e.
Proof.
  assert (H1 : representable (of_Z 220)) by (vm_compute; split; reflexivity).
  assert (H2 : computeResistorColorCode enough (of_Z 220) = Some (Some mapping_220))
    by (vm_compute; reflexivity).
  split; [exact H1|]. split; [exact H2|].
  exact (colorCode_cell enough (of_Z 220) mapping_220 H1 H2).
Defined.

(** X3 at Yellow, Violet, Black, Brown: 4700 ohms. *)
Lemma colorCode_round_trip_witness :
  100 <= 470 <= 999 /\ 0 <= 1 <= 8 /\
  decode (five_bands 470 1) = Some (470 * 10 ^ 1) /\
  exists m,
    returns (of_Z (470 * 10 ^ 1)) (Some m) /\
    fiveBand m = five_bands 470 1 /\
    decode (fourBand m) = Some (470 / 10 * 10 * 10 ^ 1).
Proof.
  assert (H1 : 100 <= 470 <= 999) by lia.
  assert (H2 : 0 <= 1 <= 8) by lia.
  split; [exact H1|]. split; [exact H2|].
  exact (colorCode_round_trip 470 1 H1 H2).
Defined.

(** X4 at 220 ohms. *)
Lemma colorCode_decode_error_witness :
  representable (of_Z 220) /\
  computeResistorColorCode enough (of_Z 220) = Some (Some mapping_220) /\
  exists n v4 v5,
    of_Z 220 = Fin n /\
    decode (fourBand mapping_220) = Some v4 /\ decode (fiveBand mapping_220) = Some v5 /\
    v4 <= v5 /\ v5 * ONE <= n /\
    100 * n < 101 * (v5 * ONE) /\ 10 * n < 11 * (v4 * ONE).
Proof.
  assert (H1 : representable (of_Z 220)) by (vm_compute; split; reflexivity).
  assert (H2 : computeResistorColorCode enough (of_Z 220) = Some (Some mapping_220))
    by (vm_compute; reflexivity).
  split; [exact H1|]. split; [exact H2|].
  exact (colorCode_decode_error enough (of_Z 220) mapping_220 H1 H2).
Defined.

(** X6 on a question without a number. *)
Lemma extractOhmValues_no_digit_witness :
  no_digit (js "what is a resistor?") /\
  extractOhmValues (js "what is a resistor?") = [].
Proof.
  assert (H : no_digit (js "what is a resistor?"))
    by (apply no_digit_check; vm_compute; reflexivity).
  split; [exact H|]. exact (extractOhmValues_no_digit _ H).
Defined.

(** X7 on "color code of 220 ohm". *)
Lemma extractOhmValues_whole_witness :
  no_digit (js "color code of ") /\ no_digit (js " ohm") /\ 0 <= 220 <= 2 ^ 53 /\
  take_suffix (snd (span is_space (js " ohm"))) = None /\
  extractOhmValues (js "color code of " ++ decimal 220 ++ js " ohm") = [of_Z 220].
Proof.
  assert (H1 : no_digit (js "color code of "))
    by (apply no_digit_check; vm_compute; reflexivity).
  assert (H2 : no_digit (js " ohm")) by (apply no_digit_check; vm_compute; reflexivity).
  assert (H3 : 0 <= 220 <= 2 ^ 53) by lia.
  assert (H4 : take_suffix (snd (span is_space (js " ohm"))) = None)
    by (vm_compute; reflexivity).
  split; [exact H1|]. split; [exact H2|]. split; [exact H3|]. split; [exact H4|].
  exact (extractOhmValues_whole _ _ 220 H1 H2 H3 H4).
Defined.

(** X8 on "10 kohm resistor": the value is 10000. *)
Lemma extractOhmValues_suffix_witness :
  no_digit [] /\ Forall (fun c => is_space c = true) (js " ") /\
  In (js "k", 3) suffixes /\ no_digit (js "ohm resistor") /\
  0 <= 10 /\ 10 * 10 ^ 3 <= 2 ^ 53 /\
  extractOhmValues ([] ++ decimal 10 ++ js " " ++ js "k" ++ js "ohm resistor")
  = [of_Z (10 * 10 ^ 3)].
Proof.
  assert (H1 : no_digit []) by (apply no_digit_check; reflexivity).
  assert (H2 : Forall (fun c => is_space c = true) (js " "))
    by (apply spaces_check; vm_compute; reflexivity).
  assert (H3 : In (js "k", 3) suffixes) by (left; reflexivity).
  assert (H4 : no_digit (js "ohm resistor"))
    by (apply no_digit_check; vm_compute; reflexivity).
  assert (H5 : 0 <= 10) by lia.
  assert (H6 : 10 * 10 ^ 3 <= 2 ^ 53) by lia.
  split; [exact H1|]. split; [exact H2|]. split; [exact H3|]. split; [exact H4|].
  split; [exact H5|]. split; [exact H6|].
  exact (extractOhmValues_suffix _ _ _ _ 10 3 H1 H2 H3 H4 H5 H6).
Defined.

(** X10 on the values 220 and 1: one bullet. *)
Lemma colorParts_in_range_witness :
  (enough <= enough)%nat /\ Forall representable [of_Z 220; of_Z 1] /\
  exists parts,
    colorParts enough [of_Z 220; of_Z 1] = Some parts /\
    Forall2 (fun v part =>
               exists m, computeResistorColorCode enough v = Some (Some m) /\
                         format_part v m = Some part)
            (filter in_range [of_Z 220; of_Z 1]) parts.
Proof.
  assert (H1 : (enough <= enough)%nat) by apply le_n.
  assert (H2 : Forall representable [of_Z 220; of_Z 1]).
  { constructor; [vm_compute; split; reflexivity|].
    constructor; [vm_compute; split; reflexivity|]. constructor. }
  split; [exact H1|]. split; [exact H2|].
  exact (colorParts_in_range enough _ H1 H2).
Defined.

(** X11 on the question "220". *)
Lemma colorAnswer_unknown_witness :
  (enough <= enough)%nat /\
  exists answer,
    colorAnswer enough true (js "220") = Some answer /\
    (answer = js "I don't know." <->
     true = false \/ Forall (fun v => in_range v = false) (extractOhmValues (js "220"))).
Proof.
  assert (H1 : (enough <= enough)%nat) by apply le_n.
  split; [exact H1|].
  exact (colorAnswer_unknown enough true (js "220") H1).
Defined.

(** X12 on a colour-code question that the model left unanswered. *)
Lemma finalAnswer_cases_witness :
  (enough <= enough)%nat /\
  exists answer,
    finalAnswer toLowerCase enough (js "color code of 220") [] = Some answer /\
    answer <> [] /\
    colorAnswer enough true (js "color code of 220") = Some answer.
Proof.
  assert (H1 : (enough <= enough)%nat) by apply le_n.
  assert (H2 : wantColor (js "color code of 220") = true) by (vm_compute; reflexivity).
  split; [exact H1|].
  destruct (finalAnswer_cases toLowerCase enough (js "color code of 220") [] H1)
    as (answer & Ha & Hne & _ & Hc).
  exists answer. split; [exact Ha|]. split; [exact Hne|]. exact (Hc H2 eq_refl).
Defined.

(** X14 on a Windows path. *)
Lemma toClientPath_file_witness :
  slashes (js "\images\") = js "/images/" /\
  Forall (fun c => c <> 47%N /\ c <> 92%N) (js "r.png") /\
  toClientPath (js "C:\vlab" ++ js "\images\" ++ js "r.png") = js "images/" ++ js "r.png".
Proof.
  assert (H1 : slashes (js "\images\") = js "/images/") by (vm_compute; reflexivity).
  assert (H2 : Forall (fun c => c <> 47%N /\ c <> 92%N) (js "r.png"))
    by (apply file_name_check; vm_compute; reflexivity).
  split; [exact H1|]. split; [exact H2|].
  exact (proj1 (toClientPath_file (js "C:\vlab") _ _ H1 H2)).
Defined.

(** X15 on one retrieved image. *)
Lemma imageAnswer_sources_witness :
  [js "public\images\resistor.png"] <> [] /\
  (1 <= length (snd (imageAnswer toLowerCase (js "photo of a resistor")
                                 [js "public\images\resistor.png"])) <= 6)%nat.
Proof.
  assert (H1 : [js "public\images\resistor.png"] <> []) by discriminate.
  split; [exact H1|].
  exact (proj1 (imageAnswer_sources toLowerCase (js "photo of a resistor") _ H1)).
Defined.

(** X16 with both variables set. *)
Lemma candidates_spec_witness :
  truthy (Some (js "gemini-1.5-pro")) = true /\ truthy (Some (js "v1")) = true /\
  hd_error (Gemini.candidates (Some (js "gemini-1.5-pro")) (Some (js "v1"))) =
  Some {| Gemini.v := js "v1"; Gemini.m := js "gemini-1.5-pro" |}.
Proof.
  assert (H1 : truthy (Some (js "gemini-1.5-pro")) = true) by reflexivity.
  assert (H2 : truthy (Some (js "v1")) = true) by reflexivity.
  split; [exact H1|]. split; [exact H2|].
  exact (proj2 (proj2 (proj2 (candidates_spec (Some (js "gemini-1.5-pro")) (Some (js "v1")))))
           H1 H2).
Defined.

(** X17 on a query that names a focus word. *)
Lemma ordered_passages_witness :
  test focusRegex (js "what is the procedure") = true /\
  Passages.ordered (js "what is the procedure") [js " intro "; js "Procedure: step 1"] =
  filter (test focusRegex) (passages [js " intro "; js "Procedure: step 1"])
  ++ filter (fun t => negb (test focusRegex t))
            (passages [js " intro "; js "Procedure: step 1"]).
Proof.
  assert (H1 : test focusRegex (js "what is the procedure") = true)
    by (vm_compute; reflexivity).
  split; [exact H1|].
  exact (proj1 (ordered_passages (js "what is the procedure")
                  [js " intro "; js "Procedure: step 1"]) H1).
Defined.

(** X18 with the local provider. *)
Lemma embedder_agreement_witness :
  let e := {| Embedder.GEMINI_API_KEY := None;
              Embedder.ASTRA_DB_COLLECTION := Some (js "docs");
              Embedder.EMBED_PROVIDER := Some (js "Xenova");
              Embedder.EMBED_MODEL := None |} in
  Embedder.getEmbedder toLowerCase e = Some (384, js "docs_xv") /\
  (Embedder.loadDB toLowerCase e = Some (384, js "docs_xv") <->
   Embedder.ASTRA_DB_COLLECTION e <> None /\
   (Embedder.isMultimodal toLowerCase e = true \/
    Embedder.provider toLowerCase e = js "xenova" \/
    Embedder.provider toLowerCase e = js "google")).
Proof.
  intros e.
  assert (H1 : Embedder.getEmbedder toLowerCase e = Some (384, js "docs_xv"))
    by (vm_compute; reflexivity).
  split; [exact H1|].
  exact (embedder_agreement toLowerCase e 384 (js "docs_xv") H1).
Defined.

(** X19 on a host that only ends like an allowed one. *)
Lemma hostAllowed_suffix_witness :
  In (js "wikipedia.org") ALLOWED_EDU_DOMAINS /\
  hostAllowed (js "not" ++ js "wikipedia.org") = true.
Proof.
  assert (H1 : In (js "wikipedia.org") ALLOWED_EDU_DOMAINS)
    by (right; right; left; reflexivity).
  split; [exact H1|].
  exact (proj1 hostAllowed_suffix (js "not") (js "wikipedia.org") H1).
Defined.

(** X20 on a context that names the digits and the colours. *)
Lemma digitsInContext_backspace_witness :
  ~ In 8%N (js "a 220 ohm resistor has the color bands red red brown") /\
  digitsInContext (js "color code of 220")
                  (js "a 220 ohm resistor has the color bands red red brown") = false.
Proof.
  assert (H1 : ~ In 8%N (js "a 220 ohm resistor has the color bands red red brown"))
    by (apply absent_check; vm_compute; reflexivity).
  split; [exact H1|].
  exact (proj1 (digitsInContext_backspace (js "color code of 220") _ H1)).
Defined.

(** [toLowerCase] on the letters A to Z keeps the digits. *)
Lemma toLowerCase_digits (s : jsstring) : no_digit (toLowerCase s) -> no_digit s.
Proof.
  unfold toLowerCase, no_digit. rewrite Forall_map. apply Forall_impl. intros c.
  destruct ((65 <=? c)%N && (c <=? 90)%N) eqn:E; [|exact (fun H => H)].
  intros _. apply andb_prop in E as [E1 E2]. apply N.leb_le in E1, E2.
  unfold is_digit. apply andb_false_iff. right. apply N.leb_gt. lia.
Qed.

(** X21 on "  Hello! " with the lowering of the letters A to Z. *)
Lemma greeting_no_digit_witness :
  isGreeting toLowerCase (32%N :: 32%N :: js "Hello! ") = true /\
  no_digit (32%N :: 32%N :: js "Hello! ") /\
  extractOhmValues (32%N :: 32%N :: js "Hello! ") = [].
Proof.
  assert (H1 : isGreeting toLowerCase (32%N :: 32%N :: js "Hello! ") = true)
    by (vm_compute; reflexivity).
  split; [exact H1|].
  exact (greeting_no_digit toLowerCase toLowerCase_digits _ H1).
Defined.

(** X22 on "color code of 4700 ohm". *)
Lemma colorAnswer_whole_witness :
  (enough <= enough)%nat /\ no_digit (js "color code of ") /\ no_digit (js " ohm") /\
  take_suffix (snd (span is_space (js " ohm"))) = None /\
  100 <= 470 <= 999 /\ 0 <= 1 <= 8 /\ 470 * 10 ^ 1 <= 4700 < (470 + 1) * 10 ^ 1 /\
  colorAnswer enough true (js "color code of " ++ decimal 4700 ++ js " ohm") =
  Some (js "Resistor color code:" ++ [LF; LF]
        ++ js "- " ++ decimal 4700 ++ js " Ω:" ++ [LF]
        ++ js "  - 4‑band: " ++ join (js " - ") (four_bands (470 / 10) (1 + 1)) ++ [LF]
        ++ js "  - 5‑band: " ++ join (js " - ") (five_bands 470 1)).
Proof.
  assert (H0 : (enough <= enough)%nat) by apply le_n.
  assert (H1 : no_digit (js "color code of "))
    by (apply no_digit_check; vm_compute; reflexivity).
  assert (H2 : no_digit (js " ohm")) by (apply no_digit_check; vm_compute; reflexivity).
  assert (H3 : take_suffix (snd (span is_space (js " ohm"))) = None)
    by (vm_compute; reflexivity).
  assert (H4 : 100 <= 470 <= 999) by lia.
  assert (H5 : 0 <= 1 <= 8) by lia.
  assert (H6 : 470 * 10 ^ 1 <= 4700 < (470 + 1) * 10 ^ 1) by lia.
  split; [exact H0|]. split; [exact H1|]. split; [exact H2|]. split; [exact H3|].
  split; [exact H4|]. split; [exact H5|]. split; [exact H6|].
  exact (colorAnswer_whole enough _ _ 4700 470 1 H0 H1 H2 H3 H4 H5 H6).
Defined.

(** A boolean check for a run of digits. *)
Lemma digits_check (s : jsstring) :
  negb (Nat.eqb (length s) 0) && forallb is_digit s = true -> all_digits s.
Proof.
  intros H. apply andb_prop in H as [H1 H2]. split.
  - destruct s; [discriminate H1|discriminate].
  - rewrite forallb_forall in H2. apply Forall_forall. exact H2.
Qed.

(** X23 on "4.7k". *)
Lemma extractOhmValues_fraction_witness :
  no_digit [] /\ all_digits (js "4") /\ all_digits (js "7") /\ no_digit (js "k") /\
  isFinite (of_decimal (digits_value (js "4" ++ js "7")) (- Z.of_nat (length (js "7")))) = true /\
  extractOhmValues ([] ++ js "4" ++ (46%N :: js "7") ++ js "k") =
  [(of_decimal (digits_value (js "4" ++ js "7")) (- Z.of_nat (length (js "7")))
    * of_Z (10 ^ match take_suffix (snd (span is_space (js "k"))) with
                 | Some (_, e) => e
                 | None => 0
                 end))%num].
Proof.
  assert (H1 : no_digit []) by (apply no_digit_check; reflexivity).
  assert (H2 : all_digits (js "4")) by (apply digits_check; vm_compute; reflexivity).
  assert (H3 : all_digits (js "7")) by (apply digits_check; vm_compute; reflexivity).
  assert (H4 : no_digit (js "k")) by (apply no_digit_check; vm_compute; reflexivity).
  assert (H5 : isFinite (of_decimal (digits_value (js "4" ++ js "7"))
                                    (- Z.of_nat (length (js "7")))) = true)
    by (vm_compute; reflexivity).
  split; [exact H1|]. split; [exact H2|]. split; [exact H3|]. split; [exact H4|].
  split; [exact H5|].
  exact (extractOhmValues_fraction [] (js "4") (js "7") (js "k") H1 H2 H3 H4 H5).
Defined.
